(** * A shallow embedding of the jsonpath engine (parser, footprints, evaluator)

    The development follows the Go sources:
    - the expression parser ([Parse], [parseInsideAction], [parseArray],
      [parseField], ...);
    - the footprint model ([MapFootprint], [ArrayFootprint],
      [NonRefFootprint]) over an explicit store of Go maps and slices;
    - the evaluator ([walk], [evalList], [evalField], [evalArray], ...) and
      the facade ([FindResult], [Get], [Set]).

    Go values of type [int] are integers of 64 bits: they are modelled in [Z]
    and every addition the code performs is wrapped by [wrap64]. Positions in
    the input string are byte offsets bounded by the length of the input and
    are kept in [nat]. *)

From Stdlib Require Import ZArith String Ascii List Bool Lia Sorted.
From stdpp Require Import base option list gmap strings.

Import ListNotations.
Set Warnings "-register-all".
Local Open Scope string_scope.
Local Open Scope list_scope.

(* ===================================================================== *)
(** * Go strings and runes *)
(* ===================================================================== *)

Module GoString.

Definition rune := Z.

Definition eof : rune := (-1)%Z.
Definition RuneError : rune := 65533%Z.
Definition RuneSelf : Z := 128%Z.

Definition byte_val (c : ascii) : Z := Z.of_N (N_of_ascii c).
Definition byte_of (z : Z) : ascii := ascii_of_N (Z.to_N (z mod 256)).

Fixpoint str_drop (n : nat) (s : string) : string :=
  match n, s with
  | O, _ => s
  | S n', String _ t => str_drop n' t
  | S _, EmptyString => EmptyString
  end.

Fixpoint str_take (n : nat) (s : string) : string :=
  match n, s with
  | O, _ => EmptyString
  | S n', String c t => String c (str_take n' t)
  | S _, EmptyString => EmptyString
  end.

(** [s[lo:hi]]; Go panics when the bounds are out of range ([None]). *)
Definition str_slice (s : string) (lo hi : nat) : option string :=
  if (lo <=? hi)%nat && (hi <=? String.length s)%nat
  then Some (str_take (hi - lo) (str_drop lo s))
  else None.

(** [s[i]]; out of range is a panic ([None]). *)
Definition str_at (s : string) (i : nat) : option ascii := String.get i s.

Fixpoint str_rev_onto (s acc : string) : string :=
  match s with
  | EmptyString => acc
  | String c t => str_rev_onto t (String c acc)
  end.

Definition str_rev (s : string) : string := str_rev_onto s EmptyString.

(** [strings.HasPrefix s prefix] *)
Definition HasPrefix (s prefix : string) : bool := String.prefix prefix s.

(** strings.Replace of the backslash by nothing, everywhere: every
    backslash byte is removed. *)
Fixpoint remove_backslashes (s : string) : string :=
  match s with
  | EmptyString => EmptyString
  | String c t =>
      if Ascii.eqb c "\"%char then remove_backslashes t
      else String c (remove_backslashes t)
  end.

Fixpoint str_contains (s : string) (c : ascii) : bool :=
  match s with
  | EmptyString => false
  | String d t => Ascii.eqb d c || str_contains t c
  end.

(** strings.Trim with the cutset of one space *)
Fixpoint trim_left_spaces (s : string) : string :=
  match s with
  | String " "%char t => trim_left_spaces t
  | _ => s
  end.

Definition Trim_spaces (s : string) : string :=
  str_rev (trim_left_spaces (str_rev (trim_left_spaces s))).

(** The six ASCII white-space bytes of [strings.TrimSpace]'s fast path. *)
Definition ascii_space (c : ascii) : bool :=
  let b := byte_val c in
  ((9 <=? b) && (b <=? 13) || (b =? 32))%Z.

(** [utf8.DecodeRuneInString], with the first-byte table and the accept
    ranges of the Go library written as comparisons. *)
Definition DecodeRuneInString (s : string) : rune * nat :=
  match s with
  | EmptyString => (RuneError, 0)
  | String c0 t =>
      let s0 := byte_val c0 in
      if (s0 <? 128)%Z then (s0, 1)
      else if ((s0 <? 194) || (244 <? s0))%Z then (RuneError, 1)
      else
        let sz := if (s0 <? 224)%Z then 2 else if (s0 <? 240)%Z then 3 else 4 in
        let lo := if (s0 =? 224)%Z then 160%Z else if (s0 =? 240)%Z then 144%Z else 128%Z in
        let hi := if (s0 =? 237)%Z then 159%Z else if (s0 =? 244)%Z then 143%Z else 191%Z in
        if (String.length s <? sz)%nat then (RuneError, 1)
        else
          match t with
          | EmptyString => (RuneError, 1)
          | String c1 t1 =>
              let s1 := byte_val c1 in
              if ((s1 <? lo) || (hi <? s1))%Z then (RuneError, 1)
              else if (sz <=? 2)%nat
              then (Z.lor (Z.shiftl (Z.land s0 31) 6) (Z.land s1 63), 2)
              else
                match t1 with
                | EmptyString => (RuneError, 1)
                | String c2 t2 =>
                    let s2 := byte_val c2 in
                    if ((s2 <? 128) || (191 <? s2))%Z then (RuneError, 1)
                    else if (sz <=? 3)%nat
                    then (Z.lor (Z.lor (Z.shiftl (Z.land s0 15) 12)
                                       (Z.shiftl (Z.land s1 63) 6))
                                (Z.land s2 63), 3)
                    else
                      match t2 with
                      | EmptyString => (RuneError, 1)
                      | String c3 _ =>
                          let s3 := byte_val c3 in
                          if ((s3 <? 128) || (191 <? s3))%Z then (RuneError, 1)
                          else (Z.lor (Z.lor (Z.lor (Z.shiftl (Z.land s0 7) 18)
                                                    (Z.shiftl (Z.land s1 63) 12))
                                             (Z.shiftl (Z.land s2 63) 6))
                                      (Z.land s3 63), 4)
                      end
                end
          end
  end.

(** [[]rune(s)] *)
Fixpoint runes_of_fuel (fuel : nat) (s : string) : list rune :=
  match fuel with
  | O => []
  | S fuel' =>
      match s with
      | EmptyString => []
      | _ =>
          let '(r, w) := DecodeRuneInString s in
          r :: runes_of_fuel fuel' (str_drop w s)
      end
  end.

Definition runes_of (s : string) : list rune := runes_of_fuel (String.length s) s.

(** [utf8.EncodeRune]: the UTF-8 bytes of one rune. *)
Definition encode_rune (r : rune) : string :=
  let cont (z : Z) := byte_of (Z.lor 128 (Z.land z 63)) in
  let bad := String (byte_of 239) (String (byte_of 191) (String (byte_of 189) EmptyString)) in
  if (r <? 0)%Z then bad
  else if (r <? 128)%Z then String (byte_of r) EmptyString
  else if (r <? 2048)%Z then
    String (byte_of (Z.lor 192 (Z.shiftr r 6))) (String (cont r) EmptyString)
  else if ((55296 <=? r) && (r <=? 57343))%Z then bad
  else if (r <? 65536)%Z then
    String (byte_of (Z.lor 224 (Z.shiftr r 12)))
      (String (cont (Z.shiftr r 6)) (String (cont r) EmptyString))
  else if (r <=? 1114111)%Z then
    String (byte_of (Z.lor 240 (Z.shiftr r 18)))
      (String (cont (Z.shiftr r 12))
         (String (cont (Z.shiftr r 6)) (String (cont r) EmptyString)))
  else bad.

(** [string(rs)] for a slice of runes. *)
Fixpoint string_of_runes (rs : list rune) : string :=
  match rs with
  | [] => EmptyString
  | r :: t => encode_rune r ++ string_of_runes t
  end.

Definition rune_of_ascii (c : ascii) : rune := byte_val c.

(** The rune at the head of [s], or eof when [s] is empty. *)
Definition first_rune (s : string) : rune :=
  match s with
  | EmptyString => eof
  | _ => fst (DecodeRuneInString s)
  end.

End GoString.

Import GoString.

(* ===================================================================== *)
(** * The syntax tree *)
(* ===================================================================== *)

(** Go's [int]: 64 bits, two's complement. *)
Definition MinInt64 : Z := (- 2 ^ 63)%Z.
Definition MaxInt64 : Z := (2 ^ 63 - 1)%Z.
Definition in_int64 (z : Z) : bool := ((MinInt64 <=? z) && (z <=? MaxInt64))%Z.
Definition wrap64 (z : Z) : Z := ((z + 2 ^ 63) mod 2 ^ 64 - 2 ^ 63)%Z.

(** A [float64]: the engine never computes on one, it only hands it to the
    comparison helpers. The model carries a float as an integer that stands
    for it (its bit pattern, say; in the examples a whole number stands for
    itself). *)
Definition float64 := Z.

Record ParamsEntry := mkParamsEntry {
  Value : Z;
  Known : bool;
  Derived : bool
}.

(** Modelled from the spec: the declarations of the node types (the file
    that defines [ListNode], [FieldNode], ..., [newList], [newField], ...) are
    not among the sources; the constructors below are the node kinds of
    section 3.2, with the fields the parser fills and the evaluator reads,
    and [IdentifierNode] for [newIdentifier]. A [*ListNode] is the list of
    its [Nodes]. *)
Inductive Node :=
| ListNode (Nodes : list Node)
| TextNode (Text : string)
| FieldNode (Value : string)
| IdentifierNode (Name : string)
| ArrayNode (Params : list ParamsEntry)
| ArrayElementNode (Entry : ParamsEntry)
| FilterNode (Left Right : list Node) (Operator : string)
| IntNode (Value : Z)
| FloatNode (Value : float64)
| BoolNode (Value : bool)
| WildcardNode
| RecursiveNode
| UnionNode (Nodes : list (list Node)).

Definition is_RecursiveNode (n : Node) : bool :=
  match n with RecursiveNode => true | _ => false end.

(* ===================================================================== *)
(** * The parser *)
(* ===================================================================== *)

Module Parse.

Definition leftDelim : string := "{".
Definition rightDelim : string := "}".

Definition dquote : ascii := "034"%char.
Definition squote : ascii := "'"%char.
Definition backslash : ascii := "\"%char.
Definition newline : ascii := "010"%char.

Definition r_of (c : ascii) : rune := rune_of_ascii c.

Record Parser := mkParser {
  Name : string;
  Root : list Node;
  input : string;
  pos : nat;
  start : nat;
  width : nat
}.

Definition set_pos (p : Parser) (n : nat) : Parser :=
  mkParser (Name p) (Root p) (input p) n (start p) (width p).
Definition set_start (p : Parser) (n : nat) : Parser :=
  mkParser (Name p) (Root p) (input p) (pos p) n (width p).
Definition set_width (p : Parser) (n : nat) : Parser :=
  mkParser (Name p) (Root p) (input p) (pos p) (start p) n.
Definition set_Root (p : Parser) (r : list Node) : Parser :=
  mkParser (Name p) r (input p) (pos p) (start p) (width p).

(** What a parsing function returns: [nil] ([POk], with the parser as the
    function left it), an error, a run-time panic of Go (a slice or index
    out of range), or [PFuel] when the fuel of the model ran out. The
    messages are those of the source; where the source formats a rune with
    the verb for Unicode or an error with the verb for values, the message
    stops before it. *)
Inductive presult (A : Type) :=
| POk (a : A)
| PErr (msg : string)
| PPanic
| PFuel.
Arguments POk {A} a.
Arguments PErr {A} msg.
Arguments PPanic {A}.
Arguments PFuel {A}.

(** [p.input[p.pos:]] *)
Definition rest (p : Parser) : string := str_drop (pos p) (input p).

(** consumeText returns the text parsed since the last consumeText. *)
Definition consumeText (p : Parser) : string * Parser :=
  (str_take (pos p - start p) (str_drop (start p) (input p)), set_start p (pos p)).

(** next returns the next rune of the input. *)
Definition next (p : Parser) : rune * Parser :=
  if (String.length (input p) <=? pos p)%nat then (eof, set_width p 0)
  else
    let '(r, w) := DecodeRuneInString (rest p) in
    (r, set_pos (set_width p w) (pos p + w)).

(** backup steps back one rune. *)
Definition backup (p : Parser) : Parser := set_pos p (pos p - width p).

(** peek returns but does not consume the next rune. *)
Definition peek (p : Parser) : rune * Parser :=
  let '(r, p1) := next p in (r, backup p1).

(** isSpace, isEndOfLine, isTerminator, isBool *)
Definition isSpace (r : rune) : bool := ((r =? 32) || (r =? 9))%Z.
Definition isEndOfLine (r : rune) : bool := ((r =? 13) || (r =? 10))%Z.

Definition isTerminator (r : rune) : bool :=
  if isSpace r || isEndOfLine r then true
  else
    ((r =? eof) || (r =? r_of ".") || (r =? r_of ",") || (r =? r_of "[")
     || (r =? r_of "]") || (r =? r_of "$") || (r =? r_of "@")
     || (r =? r_of "{") || (r =? r_of "}"))%Z.

Definition isBool (s : string) : bool := String.eqb s "true" || String.eqb s "false".

(** *** strconv.Atoi *)

Definition is_digit_byte (c : ascii) : bool :=
  ((48 <=? byte_val c) && (byte_val c <=? 57))%Z.

Fixpoint digits_value (s : string) (acc : Z) : option Z :=
  match s with
  | EmptyString => Some acc
  | String c t =>
      if is_digit_byte c then digits_value t (acc * 10 + (byte_val c - 48))%Z
      else None
  end.

Inductive atoi_result :=
| AtoiOk (i : Z)
| AtoiSyntax            (* returns 0 and ErrSyntax *)
| AtoiRange (i : Z).    (* returns the nearest bound and ErrRange *)

Definition Atoi (s : string) : atoi_result :=
  let '(neg, body) :=
    match s with
    | String "+"%char t => (false, t)
    | String "-"%char t => (true, t)
    | _ => (false, s)
    end in
  match body with
  | EmptyString => AtoiSyntax
  | _ =>
      match digits_value body 0 with
      | None => AtoiSyntax
      | Some v =>
          let v' := if neg : bool then (- v)%Z else v in
          if in_int64 v' then AtoiOk v'
          else AtoiRange (if neg then MinInt64 else MaxInt64)
      end
  end.

(** *** The regular expressions *)

Definition is_quote (c : ascii) : bool := Ascii.eqb c squote || Ascii.eqb c dquote.

(** dictKeyRex: a quote (single or double), any text, a quote (single or
    double), anchored at both ends. The capture, when the text matches;
    the dot of the expression matches every rune but the newline. *)
Definition dictKeyRex (text : string) : option string :=
  match text with
  | String c0 t =>
      match str_rev t with
      | String cl mid_rev =>
          if is_quote c0 && is_quote cl && negb (str_contains mid_rev newline)
          then Some (str_rev mid_rev)
          else None
      | EmptyString => None
      end
  | EmptyString => None
  end.

(** The longest prefix of digits, and what follows it. *)
Fixpoint span_digits (s : string) : string * string :=
  match s with
  | String c t =>
      if is_digit_byte c then let '(d, r) := span_digits t in (String c d, r)
      else (EmptyString, s)
  | EmptyString => (EmptyString, EmptyString)
  end.

(** An optional minus sign and digits, at the head of [s]. *)
Definition span_signed (s : string) : string * string :=
  match s with
  | String "-"%char t => let '(d, r) := span_digits t in (String "-"%char d, r)
  | _ => span_digits s
  end.

(** An optional group (a colon, an optional minus sign, digits) at the
    head of [s]: a group that did not take part in the match is reported
    as the empty string. *)
Definition span_colon_group (s : string) : string * string :=
  match s with
  | String ":"%char t => let '(g, r) := span_signed t in (String ":"%char g, r)
  | _ => (EmptyString, s)
  end.

(** sliceOperatorRex: a signed run of digits, then up to two colon
    groups, anchored at both ends. The three captures when the text
    matches. *)
Definition sliceOperatorRex (text : string) : option (string * string * string) :=
  let '(g1, r1) := span_signed text in
  let '(g2, r2) := span_colon_group r1 in
  let '(g3, r3) := span_colon_group r2 in
  match r3 with
  | EmptyString => Some (g1, g2, g3)
  | _ => None
  end.

Definition is_op_byte (c : ascii) : bool :=
  Ascii.eqb c "!" || Ascii.eqb c "<" || Ascii.eqb c ">" || Ascii.eqb c "=".

Fixpoint span_bytes (f : ascii -> bool) (s : string) : string * string :=
  match s with
  | String c t =>
      if f c then let '(d, r) := span_bytes f t in (String c d, r)
      else (EmptyString, s)
  | EmptyString => (EmptyString, EmptyString)
  end.

(** The regular expression of parseFilter (one or more bytes that are
    not operator bytes, one or more operator bytes, one or more runes,
    lazily, anchored at both ends): the left side is
    the text before the first operator byte; the operator is the run of
    operator bytes that follows, less its last byte when nothing comes
    after the run (the third group needs one rune at least, and no
    newline). *)
Definition filterRex (text : string) : option (string * string * string) :=
  let '(g1, r1) := span_bytes (fun c => negb (is_op_byte c)) text in
  let '(g2, r2) := span_bytes is_op_byte r1 in
  match g1, g2 with
  | EmptyString, _ => None
  | _, EmptyString => None
  | _, _ =>
      match r2 with
      | EmptyString =>
          match str_rev g2 with
          | String cl (String c2 more) =>
              Some (g1, str_rev (String c2 more), String cl EmptyString)
          | _ => None
          end
      | _ => if str_contains r2 newline then None else Some (g1, g2, r2)
      end
  end.

(** *** The library functions the parser calls

    The classification of runes beyond Latin-1 (the tables of Go's
    unicode package), the Unicode-aware slow paths of strings.TrimSpace,
    strconv.ParseFloat and the escape-decoding loop of UnquoteExtend
    (strconv.UnquoteChar, utf8.EncodeRune) belong to Go's library: they are
    parameters of the parser. On ASCII, and on Latin-1 for the classes of
    runes, the functions are written out. *)
Section WithLibrary.

Variable unicode_IsLetter_tables : rune -> bool.
Variable unicode_IsDigit_tables : rune -> bool.
Variable strings_TrimFunc_IsSpace : string -> string.
Variable strings_TrimRightFunc_IsSpace : string -> string.
Variable strconv_ParseFloat : string -> option float64.
Variable unquote_escapes : string -> ascii -> option string.

Definition IsDigit (r : rune) : bool :=
  if (r <=? 255)%Z then ((48 <=? r) && (r <=? 57))%Z
  else unicode_IsDigit_tables r.

Definition IsLetter (r : rune) : bool :=
  if (r <? 0)%Z then false
  else if (r <=? 255)%Z then
    ((65 <=? r) && (r <=? 90) || (97 <=? r) && (r <=? 122)
     || (r =? 170) || (r =? 181) || (r =? 186)
     || (192 <=? r) && (r <=? 214) || (216 <=? r) && (r <=? 246)
     || (248 <=? r) && (r <=? 255))%Z
  else unicode_IsLetter_tables r.

(** isAlphaNumeric reports whether r is an alphabetic, digit, or
    underscore. *)
Definition isAlphaNumeric (r : rune) : bool :=
  (r =? r_of "_")%Z || IsLetter r || IsDigit r.

Fixpoint TrimSpace_back (rev_s : string) : string :=
  match rev_s with
  | EmptyString => EmptyString
  | String c t =>
      if (RuneSelf <=? byte_val c)%Z then strings_TrimRightFunc_IsSpace (str_rev rev_s)
      else if ascii_space c then TrimSpace_back t
      else str_rev rev_s
  end.

Fixpoint TrimSpace (s : string) : string :=
  match s with
  | EmptyString => EmptyString
  | String c t =>
      if (RuneSelf <=? byte_val c)%Z then strings_TrimFunc_IsSpace s
      else if ascii_space c then TrimSpace t
      else TrimSpace_back (str_rev s)
  end.

(** UnquoteExtend is almost same as strconv.Unquote(), but it support
    parse single quotes as a string. *)
Definition UnquoteExtend (s : string) : option string :=
  let n := String.length s in
  if (n <? 2)%nat then None
  else
    match str_at s 0, str_at s (n - 1), str_slice s 1 (n - 1) with
    | Some quote, Some last, Some body =>
        if negb (Ascii.eqb quote last) then None
        else if negb (Ascii.eqb quote dquote) && negb (Ascii.eqb quote squote) then None
        else if negb (str_contains body backslash) && negb (str_contains body quote)
        then Some body
        else unquote_escapes body quote
    | _, _, _ => None
    end.

(** The continuation of every parsing function: parseInsideAction on
    the list under construction. *)
Definition K := list Node -> Parser -> presult Parser.

Definition scan_fuel (p : Parser) : nat := S (String.length (input p)).

(** parseLeftDelim scans the left delimiter, which is known to be
    present. The new list node is [cur] from here on; it is attached to
    the root when its right delimiter is read (Go attaches it at once,
    through the pointer; the root is only looked at after a successful
    parse, when every list has been closed). *)
Definition parseLeftDelim (k : K) (p : Parser) : presult Parser :=
  let p1 := set_pos p (pos p + String.length leftDelim) in
  let '(_, p2) := consumeText p1 in
  k [] p2.

Definition flush_text (p : Parser) : Parser :=
  if (start p <? pos p)%nat
  then let '(t, p1) := consumeText p in set_Root p1 (Root p1 ++ [TextNode t])
  else p.

(** parseText: its argument [cur] is always the root of the parser. *)
Fixpoint parseText_loop (k : K) (n : nat) (p : Parser) : presult Parser :=
  if HasPrefix (rest p) leftDelim then parseLeftDelim k (flush_text p)
  else
    let '(r, p1) := next p in
    if (r =? eof)%Z then POk (flush_text p1)
    else
      match n with
      | O => PFuel
      | S n' => parseText_loop k n' p1
      end.

Definition parseText (k : K) (p : Parser) : presult Parser :=
  parseText_loop k (scan_fuel p) p.

(** parseRightDelim scans the right delimiter, which is known to be
    present. *)
Definition parseRightDelim (k : K) (cur : list Node) (p : Parser) : presult Parser :=
  let p1 := set_pos p (pos p + String.length rightDelim) in
  let '(_, p2) := consumeText p1 in
  parseText k (set_Root p2 (Root p2 ++ [ListNode cur])).

Definition Parse_with (k : K) (name text : string) : presult Parser :=
  parseText k (mkParser name [] text 0 0 0).

(** parseAction parsed the expression inside delimiter *)
Definition parseAction (k : K) (name text : string) : presult Parser :=
  match Parse_with k name (leftDelim ++ text ++ rightDelim) with
  | POk p =>
      match Root p with
      | ListNode l :: _ => POk (set_Root p l)
      | _ => PPanic
      end
  | e => e
  end.

Fixpoint scan_identifier (n : nat) (p : Parser) : option Parser :=
  let '(r, p1) := next p in
  if isTerminator r then Some (backup p1)
  else
    match n with
    | O => None
    | S n' => scan_identifier n' p1
    end.

(** parseIdentifier scans build-in keywords *)
Definition parseIdentifier (k : K) (cur : list Node) (p : Parser) : presult Parser :=
  match scan_identifier (scan_fuel p) p with
  | None => PFuel
  | Some p1 =>
      let '(value, p2) := consumeText p1 in
      if isBool value then k (cur ++ [BoolNode (String.eqb value "true")]) p2
      else k (cur ++ [IdentifierNode value]) p2
  end.

(** advance scans until next non-escaped terminator *)
Definition advance (p : Parser) : bool * Parser :=
  let '(r, p1) := next p in
  if (r =? r_of backslash)%Z then (true, snd (next p1))
  else if isTerminator r then (false, backup p1)
  else (true, p1).

Fixpoint advance_loop (n : nat) (p : Parser) : option Parser :=
  let '(b, p1) := advance p in
  if b then
    match n with
    | O => None
    | S n' => advance_loop n' p1
    end
  else Some p1.

(** parseField scans a field until a terminator *)
Definition parseField (k : K) (cur : list Node) (p : Parser) : presult Parser :=
  let '(_, p1) := consumeText p in
  match advance_loop (scan_fuel p1) p1 with
  | None => PFuel
  | Some p2 =>
      let '(value, p3) := consumeText p2 in
      if String.eqb value "*" then k (cur ++ [WildcardNode]) p3
      else k (cur ++ [FieldNode (remove_backslashes value)]) p3
  end.

(** parseRecursive scans the recursive descent operator .. *)
Definition parseRecursive (k : K) (cur : list Node) (p : Parser) : presult Parser :=
  if match last cur with Some n => is_RecursiveNode n | None => false end
  then PErr "invalid multiple recursive descent"
  else
    let p1 := set_pos p (pos p + 2) in
    let '(_, p2) := consumeText p1 in
    let cur' := cur ++ [RecursiveNode] in
    let '(r, p3) := peek p2 in
    if isAlphaNumeric r then parseField k cur' p3
    else k cur' p3.

Fixpoint scan_number (n : nat) (p : Parser) : option Parser :=
  let '(r, p1) := next p in
  if negb (r =? r_of ".")%Z && negb (IsDigit r) then Some (backup p1)
  else
    match n with
    | O => None
    | S n' => scan_number n' p1
    end.

(** parseNumber scans number *)
Definition parseNumber (k : K) (cur : list Node) (p : Parser) : presult Parser :=
  let '(r, p1) := peek p in
  let p2 := if ((r =? r_of "+") || (r =? r_of "-"))%Z then snd (next p1) else p1 in
  match scan_number (scan_fuel p2) p2 with
  | None => PFuel
  | Some p3 =>
      let '(value, p4) := consumeText p3 in
      match Atoi value with
      | AtoiOk i => k (cur ++ [IntNode i]) p4
      | _ =>
          match strconv_ParseFloat value with
          | Some d => k (cur ++ [FloatNode d]) p4
          | None => PErr ("cannot parse number " ++ value)
          end
      end
  end.

Fixpoint findNextRune_loop (n : nat) (r : rune) (escapeMode : bool) (p : Parser)
  : presult Parser :=
  let '(c, p1) := next p in
  if (c =? r)%Z && negb escapeMode then POk p1
  else
    let continue (e : bool) :=
      match n with
      | O => PFuel
      | S n' => findNextRune_loop n' r e p1
      end in
    if (c =? r_of backslash)%Z && negb escapeMode then continue true
    else if (c =? eof)%Z then PErr ("cannot find the next " ++ encode_rune r)
    else continue false.

Definition findNextRune (r : rune) (p : Parser) : presult Parser :=
  findNextRune_loop (scan_fuel p) r false p.

Fixpoint findRune_from (rs : list rune) (target : rune) (escapeMode : bool) (i : nat)
  : option nat :=
  match rs with
  | [] => None
  | r :: t =>
      if (r =? target)%Z && negb escapeMode then Some i
      else if (r =? r_of backslash)%Z && negb escapeMode
      then findRune_from t target true (S i)
      else if (r =? eof)%Z then None
      else findRune_from t target false (S i)
  end.

(** findRune: the index of the first unescaped [target], if any. *)
Definition findRune (rs : list rune) (target : rune) : option nat :=
  findRune_from rs target false 0.

Fixpoint splitByComma_loop (n : nat) (rs : list rune) (i base : nat)
  (result : list string) : list string :=
  if (length rs <=? i)%nat then result ++ [string_of_runes (drop base rs)]
  else
    match n with
    | O => []
    | S n' =>
        match rs !! i with
        | None => []
        | Some c =>
            if (c =? r_of ",")%Z then
              splitByComma_loop n' rs (i + 1) (i + 1)
                (result ++ [string_of_runes (take (i - base) (drop base rs))])
            else if ((c =? r_of squote) || (c =? r_of dquote))%Z then
              match findRune (drop (i + 1) rs) c with
              | None => []
              | Some nxt => splitByComma_loop n' rs (i + (nxt + 1) + 1) base result
              end
            else splitByComma_loop n' rs (i + 1) base result
        end
    end.

Definition splitByComma (str : string) : list string :=
  let rs := runes_of str in
  splitByComma_loop (S (length rs)) rs 0 0 [].

Fixpoint scan_array (n : nat) (p : Parser) : presult Parser :=
  let '(r, p1) := next p in
  let continue (q : Parser) :=
    match n with
    | O => PFuel
    | S n' => scan_array n' q
    end in
  if ((r =? eof) || (r =? r_of newline))%Z then PErr "unterminated array"
  else if ((r =? r_of dquote) || (r =? r_of squote))%Z then
    match findNextRune r p1 with
    | POk p2 => continue p2
    | e => e
    end
  else if (r =? r_of "]")%Z then POk p1
  else continue p1.

Fixpoint parse_union (k : K) (strs : list string) (union : list (list Node))
  : presult (list (list Node)) :=
  match strs with
  | [] => POk union
  | str :: more =>
      match parseAction k "union" ("[" ++ Trim_spaces str ++ "]") with
      | POk parser => parse_union k more (union ++ [Root parser])
      | PErr e => PErr e
      | PPanic => PPanic
      | PFuel => PFuel
      end
  end.

(** The three entries of a slice: [value] holds the captures of
    sliceOperatorRex. *)
Fixpoint slice_params (i : nat) (value : list string) (params : list ParamsEntry)
  : presult (list ParamsEntry) :=
  match value with
  | [] => POk params
  | v :: more =>
      if negb (String.eqb v EmptyString) then
        let v' := if (0 <? i)%nat then str_drop 1 v else v in
        if (0 <? i)%nat && String.eqb v' EmptyString then
          slice_params (S i) more (params ++ [mkParamsEntry 0 false false])
        else
          match Atoi v' with
          | AtoiOk z => slice_params (S i) more (params ++ [mkParamsEntry z true false])
          | _ => PErr ("array index " ++ v' ++ " is not a number")
          end
      else slice_params (S i) more (params ++ [mkParamsEntry 0 false false])
  end.

(** parseArray scans array index selection *)
Definition parseArray (k : K) (cur : list Node) (p : Parser) : presult Parser :=
  match scan_array (scan_fuel p) p with
  | POk p1 =>
      let '(text0, p2) := consumeText p1 in
      match str_slice text0 1 (String.length text0 - 1) with
      | None => PPanic
      | Some text =>
          if String.eqb text "*" then k (cur ++ [WildcardNode]) p2
          else
            let strs := splitByComma text in
            if (1 <? length strs)%nat then
              match parse_union k strs [] with
              | POk union => k (cur ++ [UnionNode union]) p2
              | PErr e => PErr e
              | PPanic => PPanic
              | PFuel => PFuel
              end
            else
              let text := TrimSpace text in
              match dictKeyRex text with
              | Some key => k (cur ++ [FieldNode key]) p2
              | None =>
                  match sliceOperatorRex text with
                  | None => PErr ("invalid array index " ++ text)
                  | Some (v0, v1, v2) =>
                      if String.eqb v1 EmptyString && String.eqb v2 EmptyString then
                        if String.eqb v0 EmptyString
                        then k (cur ++ [ArrayElementNode (mkParamsEntry 0 false false)]) p2
                        else
                          match Atoi v0 with
                          | AtoiOk i =>
                              k (cur ++ [ArrayElementNode (mkParamsEntry i true false)]) p2
                          | AtoiSyntax =>
                              PErr ("array index " ++ v0 ++ " is not a number")
                          | AtoiRange _ => PPanic
                          end
                      else
                        match slice_params 0 [v0; v1; v2] [] with
                        | POk params => k (cur ++ [ArrayNode params]) p2
                        | PErr e => PErr e
                        | PPanic => PPanic
                        | PFuel => PFuel
                        end
                  end
              end
      end
  | e => e
  end.

(** [p.input[p.pos-2]] *)
Definition byte_before (p : Parser) : option ascii :=
  if (2 <=? pos p)%nat then str_at (input p) (pos p - 2) else None.

Fixpoint scan_filter (n : nat) (begin end_ : bool) (pair : rune) (p : Parser)
  : presult Parser :=
  let '(r, p1) := next p in
  let continue (b e : bool) (pr : rune) :=
    match n with
    | O => PFuel
    | S n' => scan_filter n' b e pr p1
    end in
  if ((r =? eof) || (r =? r_of newline))%Z then PErr "unterminated filter"
  else if ((r =? r_of dquote) || (r =? r_of squote))%Z then
    if negb begin then continue true end_ r
    else
      match byte_before p1 with
      | None => PPanic
      | Some c =>
          if negb (Ascii.eqb c backslash) && (r =? pair)%Z
          then continue begin true pair
          else continue begin end_ pair
      end
  else if (r =? r_of ")")%Z then
    if Bool.eqb begin end_ then POk p1 else continue begin end_ pair
  else continue begin end_ pair.

(** parseFilter scans filter inside array selection *)
Definition parseFilter (k : K) (cur : list Node) (p : Parser) : presult Parser :=
  let p0 := set_pos p (pos p + 3) in
  let '(_, p1) := consumeText p0 in
  match scan_filter (scan_fuel p1) false false 0%Z p1 with
  | POk p2 =>
      let '(r, p3) := next p2 in
      if negb (r =? r_of "]")%Z then PErr "unclosed array expect ]"
      else
        let '(text0, p4) := consumeText p3 in
        match str_slice text0 0 (String.length text0 - 2) with
        | None => PPanic
        | Some text =>
            if (String.length text0 <? 2)%nat then PPanic
            else
              match filterRex text with
              | None =>
                  match parseAction k "text" text with
                  | POk parser => k (cur ++ [FilterNode (Root parser) [] "exists"]) p4
                  | e => e
                  end
              | Some (g1, g2, g3) =>
                  match parseAction k "left" g1 with
                  | POk leftParser =>
                      match parseAction k "right" g3 with
                      | POk rightParser =>
                          k (cur ++ [FilterNode (Root leftParser) (Root rightParser) g2]) p4
                      | e => e
                      end
                  | e => e
                  end
              end
        end
  | e => e
  end.

Fixpoint scan_quote (n : nat) (end_ : rune) (p : Parser) : presult Parser :=
  let '(r, p1) := next p in
  let continue :=
    match n with
    | O => PFuel
    | S n' => scan_quote n' end_ p1
    end in
  if ((r =? eof) || (r =? r_of newline))%Z then PErr "unterminated quoted string"
  else if (r =? end_)%Z then
    match byte_before p1 with
    | None => PPanic
    | Some c => if negb (Ascii.eqb c backslash) then POk p1 else continue
    end
  else continue.

(** parseQuote unquotes string inside double or single quote *)
Definition parseQuote (k : K) (cur : list Node) (end_ : rune) (p : Parser)
  : presult Parser :=
  match scan_quote (scan_fuel p) end_ p with
  | POk p1 =>
      let '(value, p2) := consumeText p1 in
      match UnquoteExtend value with
      | None => PErr ("unquote string " ++ value ++ " error")
      | Some s => k (cur ++ [TextNode s]) p2
      end
  | e => e
  end.

(** parseInsideAction: one unit of fuel for every call; the other
    parsing functions return through [parseInsideAction fuel]. *)
Fixpoint parseInsideAction (fuel : nat) (cur : list Node) (p : Parser)
  : presult Parser :=
  match fuel with
  | O => PFuel
  | S fuel' =>
      let k := parseInsideAction fuel' in
      if HasPrefix (rest p) rightDelim then parseRightDelim k cur p
      else if HasPrefix (rest p) "[?(" then parseFilter k cur p
      else if HasPrefix (rest p) ".." then parseRecursive k cur p
      else
        let '(r, p1) := next p in
        if (r =? eof)%Z || isEndOfLine r then PErr "unclosed action"
        else if (r =? r_of " ")%Z then k cur (snd (consumeText p1))
        else if ((r =? r_of "@") || (r =? r_of "$"))%Z then k cur (snd (consumeText p1))
        else if (r =? r_of "[")%Z then parseArray k cur p1
        else if ((r =? r_of dquote) || (r =? r_of squote))%Z then parseQuote k cur r p1
        else if (r =? r_of ".")%Z then parseField k cur p1
        else if ((r =? r_of "+") || (r =? r_of "-"))%Z || IsDigit r
        then parseNumber k cur (backup p1)
        else if isAlphaNumeric r then parseIdentifier k cur (backup p1)
        else PErr "unrecognized character in action"
  end.

(** The fuel of a parse: every call of parseInsideAction but the one at
    the right delimiter reads one byte at least, and the parser of a union
    or of a filter runs on a text shorter than the input. A run that ends
    with [PFuel] says nothing about the source; none of the runs below
    does. *)
Definition parse_fuel (text : string) : nat :=
  (String.length text + 2) * (String.length text + 2).

(** Parse parsed the given text and return a node Parser. *)
Definition Parse (name text : string) : presult Parser :=
  Parse_with (parseInsideAction (parse_fuel text)) name text.

End WithLibrary.

End Parse.

(* ===================================================================== *)
(** * The store: Go maps and slices *)
(* ===================================================================== *)

(** What a filter, an evaluation step or a facade call returns: a result, an
    [error] of Go, a run-time panic of Go (a failed type assertion, an index
    out of range, a negative length), or [Fuel] when the fuel of the model
    (recursive descent over the document) ran out. The messages are those
    of the source, less the integer or the node some of them end with. *)
Inductive outcome (A : Type) :=
| Ok (a : A)
| Err (msg : string)
| Panic
| Fuel.
Arguments Ok {A} a.
Arguments Err {A} msg.
Arguments Panic {A}.
Arguments Fuel {A}.

Definition is_Ok {A} (o : outcome A) : bool :=
  match o with Ok _ => true | _ => false end.

(** An [interface{}] of a JSON document. A map is a reference to a map
    object of the store. A slice is a header: a reference to a backing array
    of the store (whose length is the capacity of the slice; the engine never
    reslices, so the offset is always 0) and a length. Copying a value copies
    the reference, not the object. *)
Inductive value :=
| VNil
| VBool (b : bool)
| VInt (i : Z)
| VFloat (f : float64)
| VString (s : string)
| VSlice (a : nat) (len : nat)
| VMap (m : nat).

Record heap := mkHeap {
  arrays : list (list value);
  maps : list (gmap string value)
}.

Definition is_map (v : value) : bool := match v with VMap _ => true | _ => false end.
Definition is_slice (v : value) : bool := match v with VSlice _ _ => true | _ => false end.

Module Store.

(** [m[key]] with the comma-ok form: [None] is a dangling reference, which
    no run of the engine creates. *)
Definition map_of (h : heap) (m : nat) : option (gmap string value) := maps h !! m.

(** [m[key] = v] *)
Definition map_store (h : heap) (m : nat) (key : string) (v : value) : option heap :=
  match maps h !! m with
  | Some mp => Some (mkHeap (arrays h) (<[m := <[key := v]> mp]> (maps h)))
  | None => None
  end.

(** [make(map[string]interface{})] *)
Definition map_alloc (h : heap) : heap * value :=
  (mkHeap (arrays h) (maps h ++ [∅]), VMap (length (maps h))).

(** [s[i]] for a slice of [len] elements over the backing array [a]; out
    of range is a panic ([None]). *)
Definition slice_get (h : heap) (a len : nat) (i : Z) : option value :=
  if ((0 <=? i) && (i <? Z.of_nat len))%Z
  then match arrays h !! a with
       | Some backing => backing !! Z.to_nat i
       | None => None
       end
  else None.

(** [s[i] = v] *)
Definition slice_store (h : heap) (a len : nat) (i : Z) (v : value) : option heap :=
  if ((0 <=? i) && (i <? Z.of_nat len))%Z
  then match arrays h !! a with
       | Some backing =>
           if (Z.to_nat i <? length backing)%nat
           then Some (mkHeap (<[a := <[Z.to_nat i := v]> backing]> (arrays h)) (maps h))
           else None
       | None => None
       end
  else None.

(** [make([]interface{}, n)] *)
Definition slice_alloc (h : heap) (n : nat) : heap * value :=
  (mkHeap (arrays h ++ [replicate n VNil]) (maps h), VSlice (length (arrays h)) n).

(** The elements of a slice. *)
Definition slice_elems (h : heap) (a len : nat) : option (list value) :=
  match arrays h !! a with
  | Some backing => if (len <=? length backing)%nat then Some (take len backing) else None
  | None => None
  end.

Section Append.

(** The capacity Go's run time picks when append has to move a slice
    (old capacity, length needed); the model takes the larger of that
    and of the length needed. *)
Variable growslice : nat -> nat -> nat.

(** [append(s, make([]interface{}, k)...)] for the slice [s] of [len]
    elements over the backing array [a]: in place when the capacity
    allows, over a fresh backing array otherwise. *)
Definition append_nils (h : heap) (a len k : nat) : option (heap * value) :=
  match arrays h !! a with
  | Some backing =>
      if (length backing <? len)%nat then None
      else if (len + k <=? length backing)%nat then
        Some (mkHeap (<[a := take len backing ++ replicate k VNil
                              ++ drop (len + k) backing]> (arrays h)) (maps h),
              VSlice a (len + k))
      else
        let newcap := Nat.max (len + k) (growslice (length backing) (len + k)) in
        Some (mkHeap (arrays h ++ [take len backing ++ replicate (newcap - len) VNil])
                     (maps h),
              VSlice (length (arrays h)) (len + k))
  | None => None
  end.

End Append.

End Store.

(* ===================================================================== *)
(** * Footprints *)
(* ===================================================================== *)

Record VirtualInfo := mkVirtualInfo {
  Virtual : bool;
  RealSize : Z
}.

Record SelectionKey := mkSelectionKey {
  Key : string;
  sk_info : VirtualInfo
}.

Record SelectionIndex := mkSelectionIndex {
  Index : Z;
  si_info : VirtualInfo
}.

(** The three implementations of the interface Footprint. [Ref] is a
    pointer to a variable that is never assigned again once the footprint
    exists (the engine only writes through the map or the slice the variable
    holds): the footprint carries the value of that variable. *)
Inductive Footprint :=
| MapFootprint (leaveItAsItIs : bool) (Ref : value)
    (SelectionKeys : list SelectionKey) (Virtual_ : bool)
| ArrayFootprint (leaveItAsItIs : bool) (Ref : value)
    (SelectionIndexes : list SelectionIndex) (info : VirtualInfo)
| NonRefFootprint (leaveItAsItIs : bool) (value_ : value).

Definition no_info : VirtualInfo := mkVirtualInfo false (-1).
Definition zero_info : VirtualInfo := mkVirtualInfo false 0.

(** NewFootprint: [virtualInfo] is a SelectionKey, a SelectionIndex or nil;
    only the VirtualInfo of the first two is read. *)
Definition NewFootprint (v : value) (virtualInfo : option VirtualInfo) : Footprint :=
  let virtual := match virtualInfo with Some i => Virtual i | None => false end in
  let realSize := match virtualInfo with Some i => RealSize i | None => 0%Z end in
  match v with
  | VMap _ => MapFootprint false v [] virtual
  | VSlice _ _ => ArrayFootprint false v [] (mkVirtualInfo virtual realSize)
  | _ => NonRefFootprint false v
  end.

Definition LeaveItAsItIs (fp : Footprint) : Footprint :=
  match fp with
  | MapFootprint _ r s v => MapFootprint true r s v
  | ArrayFootprint _ r s i => ArrayFootprint true r s i
  | NonRefFootprint _ v => NonRefFootprint true v
  end.

Definition HolderPtr (fp : Footprint) : value :=
  match fp with
  | MapFootprint _ r _ _ => r
  | ArrayFootprint _ r _ _ => r
  | NonRefFootprint _ v => v
  end.

Definition IsVirtual (fp : Footprint) : bool :=
  match fp with
  | MapFootprint _ _ _ v => v
  | ArrayFootprint _ _ _ i => Virtual i
  | NonRefFootprint _ _ => false
  end.

(** The children a map footprint selects: a key that is absent reads as
    nil. *)
Definition expand_keys (mp : gmap string value) (sks : list SelectionKey) : list Footprint :=
  map (fun sk => NewFootprint (default VNil (mp !! Key sk)) (Some (sk_info sk))) sks.

(** The children an array footprint selects; an index out of range is a
    panic. *)
Fixpoint expand_indexes (h : heap) (a len : nat) (sis : list SelectionIndex)
  : outcome (list Footprint) :=
  match sis with
  | [] => Ok []
  | s :: more =>
      match Store.slice_get h a len (Index s) with
      | None => Panic
      | Some v =>
          match expand_indexes h a len more with
          | Ok fps => Ok (NewFootprint v (Some (si_info s)) :: fps)
          | e => e
          end
      end
  end.

(** Expand *)
Definition Expand (h : heap) (fp : Footprint) : outcome (list Footprint) :=
  match fp with
  | MapFootprint leave ref sks virt =>
      if leave then Ok [MapFootprint false ref sks virt]
      else if (length sks =? 0)%nat then Ok []
      else
        match ref with
        | VMap m =>
            match Store.map_of h m with
            | Some mp => Ok (expand_keys mp sks)
            | None => Panic
            end
        | _ => Panic
        end
  | ArrayFootprint leave ref sis info =>
      if leave then Ok [ArrayFootprint false ref sis info]
      else if (length sis =? 0)%nat then Ok []
      else
        match ref with
        | VSlice a len => expand_indexes h a len sis
        | _ => Panic
        end
  | NonRefFootprint leave v =>
      let leave := false in
      if leave then Ok [NonRefFootprint leave v]
      else Err "non-reference foot print cannot be expand"
  end.

(** SelectAll. Go ranges over a map in an order it does not specify: the
    model takes the keys in the order of [map_to_list]. *)
Definition SelectAll (h : heap) (fp : Footprint) : outcome Footprint :=
  match fp with
  | MapFootprint leave ref _ virt =>
      match ref with
      | VMap m =>
          match Store.map_of h m with
          | Some mp =>
              Ok (MapFootprint leave ref
                    (map (fun kv => mkSelectionKey (fst kv) no_info) (map_to_list mp)) virt)
          | None => Panic
          end
      | _ => Panic
      end
  | ArrayFootprint leave ref _ info =>
      match ref with
      | VSlice a len =>
          Ok (ArrayFootprint leave ref
                (map (fun i => mkSelectionIndex (Z.of_nat i) no_info) (seq 0 len)) info)
      | _ => Panic
      end
  | NonRefFootprint _ _ => Err "SelectAll is not supported by NonRefFootprint"
  end.

(* ===================================================================== *)
(** * The state of an evaluation *)
(* ===================================================================== *)

(** The store and the warnings of the Jsonpath object. *)
Record state := mkState {
  st_heap : heap;
  warnings : list string
}.

Definition M (A : Type) : Type := state -> outcome A * state.

Definition ret {A} (a : A) : M A := fun s => (Ok a, s).

Definition bind {A B} (c : M A) (f : A -> M B) : M B :=
  fun s =>
    match c s with
    | (Ok a, s') => f a s'
    | (Err e, s') => (Err e, s')
    | (Panic, s') => (Panic, s')
    | (Fuel, s') => (Fuel, s')
    end.

Definition throw {A} (e : string) : M A := fun s => (Err e, s).
Definition panic {A} : M A := fun s => (Panic, s).
Definition out_of_fuel {A} : M A := fun s => (Fuel, s).
Definition lift {A} (o : outcome A) : M A := fun s => (o, s).
Definition get_heap : M heap := fun s => (Ok (st_heap s), s).
Definition put_heap (h : heap) : M unit := fun s => (Ok tt, mkState h (warnings s)).

(** AddWarning *)
Definition AddWarning (warning : string) : M unit :=
  fun s => (Ok tt, mkState (st_heap s) (warnings s ++ [warning])).

Notation "x <- c1 ;; c2" := (bind c1 (fun x => c2))
  (at level 20, c1 at level 99, c2 at level 200, only parsing).
Notation "'exec' c1 ;; c2" := (bind c1 (fun _ => c2))
  (at level 20, c1 at level 99, c2 at level 200, only parsing).

(** A read or a write of the store that Go would answer with a panic. *)
Definition must {A} (o : option A) : M A :=
  match o with Some a => ret a | None => panic end.

Definition map_store (m : nat) (key : string) (v : value) : M unit :=
  h <- get_heap ;; h' <- must (Store.map_store h m key v) ;; put_heap h'.

Definition slice_store (a len : nat) (i : Z) (v : value) : M unit :=
  h <- get_heap ;; h' <- must (Store.slice_store h a len i v) ;; put_heap h'.

Fixpoint forM {A B} (f : A -> M B) (l : list A) : M (list B) :=
  match l with
  | [] => ret []
  | x :: more => y <- f x ;; ys <- forM f more ;; ret (y :: ys)
  end.

Fixpoint forM_ {A} (f : A -> M unit) (l : list A) : M unit :=
  match l with
  | [] => ret tt
  | x :: more => exec f x ;; forM_ f more
  end.

Section Mutation.

Variable growslice : nat -> nat -> nat.

(** The body that EnforceArraySelection runs on a selected child, the same
    for a map and for an array footprint: the child to store back (if any)
    and the VirtualInfo of the selection afterwards. *)
Definition enforce_array_child (size : Z) (info : VirtualInfo) (child : value)
  : M (option value * VirtualInfo) :=
  match child with
  | VSlice a n =>
      let realSize := Z.of_nat n in
      if (negb (size =? -1) && (realSize <? size))%Z then
        h <- get_heap ;;
        r <- must (Store.append_nils growslice h a n (Z.to_nat (size - realSize))) ;;
        exec put_heap (fst r) ;;
        ret (Some (snd r), mkVirtualInfo (Virtual info) realSize)
      else ret (None, mkVirtualInfo (Virtual info) realSize)
  | _ =>
      if negb (Virtual info) then throw "the selection is not an array or a virtual"
      else if (size =? -1)%Z then throw "cannot use * to set in a virtual"
      else if (size <? 0)%Z then panic
      else
        h <- get_heap ;;
        let r := Store.slice_alloc h (Z.to_nat size) in
        exec put_heap (fst r) ;;
        ret (Some (snd r), mkVirtualInfo (Virtual info) (-1))
  end.

Fixpoint enforce_array_keys (size : Z) (m : nat) (sks : list SelectionKey)
  : M (list SelectionKey) :=
  match sks with
  | [] => ret []
  | s :: more =>
      h <- get_heap ;;
      mp <- must (Store.map_of h m) ;;
      match mp !! Key s with
      | None => throw ("cannot find the element by key: " ++ Key s)
      | Some child =>
          r <- enforce_array_child size (sk_info s) child ;;
          exec (match fst r with
                | Some c => map_store m (Key s) c
                | None => ret tt
                end) ;;
          rest <- enforce_array_keys size m more ;;
          ret (mkSelectionKey (Key s) (snd r) :: rest)
      end
  end.

Fixpoint enforce_array_indexes (size : Z) (a len : nat) (sis : list SelectionIndex)
  : M (list SelectionIndex) :=
  match sis with
  | [] => ret []
  | s :: more =>
      if ((Index s <? 0) || (Z.of_nat len <? Index s))%Z
      then throw "invalid index when EnforceArraySelection"
      else
        h <- get_heap ;;
        child <- must (Store.slice_get h a len (Index s)) ;;
        r <- enforce_array_child size (si_info s) child ;;
        exec (match fst r with
              | Some c => slice_store a len (Index s) c
              | None => ret tt
              end) ;;
        rest <- enforce_array_indexes size a len more ;;
        ret (mkSelectionIndex (Index s) (snd r) :: rest)
  end.

(** EnforceArraySelection. The selection entries are updated in place in
    Go ([RealSize]); the model returns the footprint with its selection
    as the call leaves it. *)
Definition EnforceArraySelection (size : Z) (fp : Footprint) : M Footprint :=
  match fp with
  | MapFootprint leave ref sks virt =>
      match ref with
      | VMap m =>
          sks' <- enforce_array_keys size m sks ;;
          ret (MapFootprint leave ref sks' virt)
      | _ => panic
      end
  | ArrayFootprint leave ref sis info =>
      match ref with
      | VSlice a len =>
          sis' <- enforce_array_indexes size a len sis ;;
          ret (ArrayFootprint leave ref sis' info)
      | _ => panic
      end
  | NonRefFootprint _ _ =>
      throw "EnforceArraySelection is not supported by NonRefFootprint"
  end.

(** The body that EnforceObjectSelection runs on a selected child: the
    child to store back, if any. *)
Definition enforce_object_child (info : VirtualInfo) (child : value) : M (option value) :=
  if is_map child then ret None
  else if Virtual info then
    h <- get_heap ;;
    let r := Store.map_alloc h in
    exec put_heap (fst r) ;; ret (Some (snd r))
  else throw "the selection is not an array or a virtual".

Fixpoint enforce_object_keys (m : nat) (sks : list SelectionKey) : M unit :=
  match sks with
  | [] => ret tt
  | s :: more =>
      h <- get_heap ;;
      mp <- must (Store.map_of h m) ;;
      match mp !! Key s with
      | None => throw ("cannot find the element by key: " ++ Key s)
      | Some child =>
          r <- enforce_object_child (sk_info s) child ;;
          exec (match r with
                | Some c => map_store m (Key s) c
                | None => ret tt
                end) ;;
          enforce_object_keys m more
      end
  end.

Fixpoint enforce_object_indexes (a len : nat) (sis : list SelectionIndex) : M unit :=
  match sis with
  | [] => ret tt
  | s :: more =>
      if ((Index s <? 0) || (Z.of_nat len <? Index s))%Z
      then throw "invalid index when EnforceObjectSelection"
      else
        h <- get_heap ;;
        child <- must (Store.slice_get h a len (Index s)) ;;
        r <- enforce_object_child (si_info s) child ;;
        exec (match r with
              | Some c => slice_store a len (Index s) c
              | None => ret tt
              end) ;;
        enforce_object_indexes a len more
  end.

(** EnforceObjectSelection *)
Definition EnforceObjectSelection (fp : Footprint) : M unit :=
  match fp with
  | MapFootprint _ ref sks _ =>
      match ref with
      | VMap m => enforce_object_keys m sks
      | _ => panic
      end
  | ArrayFootprint _ ref sis _ =>
      match ref with
      | VSlice a len => enforce_object_indexes a len sis
      | _ => panic
      end
  | NonRefFootprint _ _ =>
      throw "EnforceObjectSelection is not supported by NonRefFootprint"
  end.

(** UpdateAll *)
Definition UpdateAll (data : value) (fp : Footprint) : M unit :=
  match fp with
  | MapFootprint _ ref sks _ =>
      match ref with
      | VMap m =>
          h <- get_heap ;;
          exec must (Store.map_of h m) ;;
          forM_ (fun sk => map_store m (Key sk) data) sks
      | _ => panic
      end
  | ArrayFootprint _ ref sis _ =>
      match ref with
      | VSlice a len => forM_ (fun si => slice_store a len (Index si) data) sis
      | _ => panic
      end
  | NonRefFootprint _ _ => throw "UpdateAll is not supported by NonRefFootprint"
  end.

End Mutation.

(* ===================================================================== *)
(** * The evaluator *)
(* ===================================================================== *)

(** expandFootprints *)
Fixpoint expand_each (h : heap) (remainUnexpandableFootprint : bool)
  (footprints : list Footprint) : outcome (list Footprint) :=
  match footprints with
  | [] => Ok []
  | fp :: more =>
      match Expand h fp with
      | Panic => Panic
      | Fuel => Fuel
      | r =>
          let fps := match r with
                     | Ok fps => fps
                     | _ => if remainUnexpandableFootprint then [fp] else []
                     end in
          match expand_each h remainUnexpandableFootprint more with
          | Ok rest => Ok (fps ++ rest)
          | e => e
          end
      end
  end.

Definition expandFootprints (h : heap) (footprints : list Footprint)
  (remainUnexpandableFootprint : bool) : outcome (list Footprint) :=
  if (length footprints =? 0)%nat then Ok footprints
  else expand_each h remainUnexpandableFootprint footprints.

(** expandFootprints on the store of the moment. *)
Definition expandM (footprints : list Footprint) (remain : bool) : M (list Footprint) :=
  h <- get_heap ;; lift (expandFootprints h footprints remain).

(** *** Slices *)

(** inferArrayNode, for an array of [L] elements. *)
Definition inferArrayNode (L : Z) (params : list ParamsEntry)
  : outcome (Z * Z * Z * bool) :=
  if (length params =? 1)%nat then
    match params with
    | p0 :: _ => Ok (Value p0, wrap64 (Value p0 + 1), 1%Z, false)
    | [] => Panic
    end
  else
    match params with
    | x :: y :: z :: _ =>
        (* infer step *)
        let step := if Known z then Value z else 0%Z in
        let needInvert := (negb (step =? 0) && (step <? 0))%Z in
        let step := if (step =? 0)%Z then 1%Z else step in
        let base :=
          if (L - 1 <? Value x)%Z then
            if (step <? 0)%Z then (L - 1)%Z else Value x
          else if (0 <=? Value x)%Z then Value x
          else if (- L <=? Value x)%Z then wrap64 (Value x + L)
          else 0%Z in
        let limit :=
          if (0 <=? Value y)%Z then Value y
          else if (- L <=? Value y)%Z then wrap64 (Value y + L)
          else (-1)%Z in
        let base :=
          if negb (Known x) then
            if (0 <? step)%Z then 0%Z else (L - 1)%Z
          else base in
        let limit :=
          if negb (Known y) then
            if (0 <? step)%Z then L else (-1)%Z
          else limit in
        Ok (base, limit, step, needInvert)
    | _ => Panic
    end.

(** The two loops of evalArray, one for each direction: [None] when the
    fuel runs out before the condition of the loop fails. *)
Fixpoint slice_loop (fuel : nat) (needInvert : bool) (L limit step : Z)
  (writeMode : bool) (realSize : Z) (i : Z) : option (list SelectionIndex) :=
  if ((i <? L) && (-1 <? i) && (if needInvert then limit <? i else i <? limit))%Z then
    match fuel with
    | O => None
    | S fuel' =>
        match slice_loop fuel' needInvert L limit step writeMode realSize (wrap64 (i + step)) with
        | Some more =>
            Some (mkSelectionIndex i (mkVirtualInfo (writeMode && (realSize <=? i)%Z) (-1)) :: more)
        | None => None
        end
    end
  else Some [].

(** The indexes evalArray selects in an array of [len] elements. *)
Definition evalArray_indexes (writeMode : bool) (realSize : Z) (len : nat)
  (params : list ParamsEntry) : outcome (list SelectionIndex) :=
  match inferArrayNode (Z.of_nat len) params with
  | Ok (base, limit, step, needInvert) =>
      match slice_loop (S len) needInvert (Z.of_nat len) limit step writeMode realSize base with
      | Some indexes => Ok indexes
      | None => Fuel
      end
  | Err e => Err e
  | Panic => Panic
  | Fuel => Fuel
  end.

(** [footprint.(ArrayFootprint).RealSize] *)
Definition RealSize_of (fp : Footprint) : outcome Z :=
  match fp with
  | ArrayFootprint _ _ _ info => Ok (RealSize info)
  | _ => Panic
  end.

(** The assignment of evalArray to [node.Params[0].Value] in write mode. *)
Definition normalise_start (params : list ParamsEntry) : outcome (list ParamsEntry) :=
  match params with
  | x :: more =>
      Ok ((if Known x then x else mkParamsEntry 0 (Known x) (Derived x)) :: more)
  | [] => Panic
  end.

(** The size evalArray hands to EnforceArraySelection. The third entry is
    read only when the values of the first two are 0. *)
Definition array_tail (params : list ParamsEntry) : outcome Z :=
  match params with
  | x :: y :: more =>
      let tail := if negb (Known y) then wrap64 (Value x + 1) else Value y in
      if ((Value x =? 0) && (Value y =? 0))%Z then
        match more with
        | z :: _ => Ok (if (Value z =? 0)%Z then (-1)%Z (* wildcard *) else tail)
        | [] => Panic
        end
      else Ok tail
  | _ => Panic
  end.

(** The index evalArrayElement selects in an array of [len] elements. *)
Definition element_index (len : nat) (node : ParamsEntry) : Z :=
  let L := Z.of_nat len in
  if ((0 <=? Value node) && (Value node <=? L - 1))%Z then Value node
  else if (- L <=? Value node)%Z then wrap64 (Value node + L)
  else (-1)%Z.

(** The loops of the evaluator that append to [result] what each footprint
    yields. *)
Fixpoint concat_map_M {A B} (f : A -> M (list B)) (l : list A) : M (list B) :=
  match l with
  | [] => ret []
  | x :: more => ys <- f x ;; rest <- concat_map_M f more ;; ret (ys ++ rest)
  end.

(** recursivelyCollectFootprint, over the store [h] (the evaluation of a
    recursive descent reads the store and does not write it). *)
Fixpoint recursivelyCollectFootprint (fuel : nat) (h : heap) (footprint : Footprint)
  (result : list Footprint) : outcome (list Footprint) :=
  match fuel with
  | O => Fuel
  | S fuel' =>
      let result := result ++ [LeaveItAsItIs footprint] in (* record self in result *)
      match SelectAll h footprint with
      | Err _ => Ok result
      | Panic => Panic
      | Fuel => Fuel
      | Ok footprint =>
          let children :=
            match Expand h footprint with
            | Ok children => Ok children
            | Err _ => Ok []
            | Panic => Panic
            | Fuel => Fuel
            end in
          match children with
          | Ok children =>
              (fix each (children : list Footprint) (result : list Footprint) :=
                 match children with
                 | [] => Ok result
                 | child :: more =>
                     match recursivelyCollectFootprint fuel' h child result with
                     | Ok result => each more result
                     | e => e
                     end
                 end) children result
          | e => e
          end
      end
  end.

Fixpoint collect_all (fuel : nat) (h : heap) (footprints : list Footprint)
  (result : list Footprint) : outcome (list Footprint) :=
  match footprints with
  | [] => Ok result
  | fp :: more =>
      match recursivelyCollectFootprint fuel h fp result with
      | Ok result => collect_all fuel h more result
      | e => e
      end
  end.

(** The outcome of a sub-evaluation whose error the caller looks at. *)
Definition try {A} (c : M A) : M (A + string) :=
  fun s =>
    match c s with
    | (Ok a, s') => (Ok (inl a), s')
    | (Err e, s') => (Ok (inr e), s')
    | (Panic, s') => (Panic, s')
    | (Fuel, s') => (Fuel, s')
    end.

Section Evaluator.

Variable growslice : nat -> nat -> nat.

(** The comparison helpers of the package template: a verdict and an
    error, if any. *)
Variable template_Less template_Greater template_Equal : value -> value -> bool * option string.
Variable template_NotEqual template_LessEqual template_GreaterEqual
  : value -> value -> bool * option string.

(** genericCompare *)
Definition genericCompare (operator : string) (left right : value) : bool * option string :=
  let call (f : value -> value -> bool * option string) :=
    match f left right with
    | (_, Some err) => (false, Some err)
    | (pass, None) => (pass, None)
    end in
  if String.eqb operator "<" then call template_Less
  else if String.eqb operator ">" then call template_Greater
  else if String.eqb operator "==" then call template_Equal
  else if String.eqb operator "!=" then call template_NotEqual
  else if String.eqb operator "<=" then call template_LessEqual
  else if String.eqb operator ">=" then call template_GreaterEqual
  else (false, Some ("unrecognized filter operator " ++ operator)%string).

Variable writeMode : bool.

(** evalList *)
Definition evalList_with (walk : list Footprint -> Node -> M (list Footprint))
  : list Footprint -> list Node -> M (list Footprint) :=
  fix evalList footprints nodes :=
    match nodes with
    | [] => ret footprints
    | n :: more => footprints <- walk footprints n ;; evalList footprints more
    end.

(** What evalField does with one expanded footprint. *)
Definition evalField_one (name : string) (fp : Footprint) : M (list Footprint) :=
  let ref := HolderPtr fp in
  match ref with
  | VMap m =>
      h <- get_heap ;;
      mp <- must (Store.map_of h m) ;;
      match mp !! name with
      | Some _ => ret [MapFootprint false ref [mkSelectionKey name no_info] false]
      | None =>
          if writeMode then
            h <- get_heap ;;
            let r := Store.map_alloc h in
            exec put_heap (fst r) ;;
            exec map_store m name (snd r) ;;
            ret [MapFootprint false ref
                   [mkSelectionKey name (mkVirtualInfo true (-1))] false]
          else
            exec AddWarning ("cannot find the field: " ++ name) ;;
            ret []
      end
  | _ => ret []
  end.

(** evalField *)
Definition evalField (footprints : list Footprint) (name : string) : M (list Footprint) :=
  exec (if writeMode then forM_ (EnforceObjectSelection) footprints else ret tt) ;;
  footprints <- expandM footprints false ;;
  concat_map_M (evalField_one name) footprints.

(** What evalArray does with one expanded footprint. *)
Definition evalArray_one (params : list ParamsEntry) (footprint : Footprint)
  : M (list Footprint) :=
  match HolderPtr footprint with
  | VSlice a len =>
      realSize <- lift (RealSize_of footprint) ;;
      indexes <- lift (evalArray_indexes writeMode realSize len params) ;;
      ret [ArrayFootprint false (HolderPtr footprint) indexes zero_info]
  | _ =>
      exec AddWarning "cannot use a index number to find a element in a non-array object" ;;
      ret []
  end.

(** evalArray *)
Definition evalArray (footprints : list Footprint) (params : list ParamsEntry)
  : M (list Footprint) :=
  r <- (if writeMode then
          match footprints with
          | [] => ret (footprints, params)
          | _ =>
              params' <- lift (normalise_start params) ;;
              tail <- lift (array_tail params') ;;
              fps <- forM (EnforceArraySelection growslice tail) footprints ;;
              ret (fps, params')
          end
        else ret (footprints, params)) ;;
  footprints <- expandM (fst r) false ;;
  concat_map_M (evalArray_one (snd r)) footprints.

(** What evalArrayElement does with one expanded footprint. *)
Definition evalArrayElement_one (node : ParamsEntry) (footprint : Footprint)
  : M (list Footprint) :=
  match HolderPtr footprint with
  | VSlice a len =>
      realSize <- lift (RealSize_of footprint) ;;
      let i := element_index len node in
      let indexes :=
        if ((0 <=? i) && (i <? Z.of_nat len))%Z
        then [mkSelectionIndex i (mkVirtualInfo (writeMode && (realSize <=? i)%Z) (-1))]
        else [] in
      ret [ArrayFootprint false (HolderPtr footprint) indexes zero_info]
  | _ =>
      exec AddWarning "cannot use a index number to find a element in a non-array object" ;;
      ret []
  end.

(** evalArrayElement *)
Definition evalArrayElement (footprints : list Footprint) (node : ParamsEntry)
  : M (list Footprint) :=
  r <- (if writeMode then
          if (Value node <? 0)%Z then throw "cannot use a negative index in set mode"
          else if negb (Known node) then throw "index unknown in set mode"
          else forM (EnforceArraySelection growslice (wrap64 (Value node + 1))) footprints
        else ret footprints) ;;
  footprints <- expandM r false ;;
  concat_map_M (evalArrayElement_one node) footprints.

(** evalWildcard: a footprint that cannot select all stays as it is (the
    message goes to the log, not to the warnings). *)
Definition evalWildcard (footprints : list Footprint) : M (list Footprint) :=
  footprints <- expandM footprints false ;;
  h <- get_heap ;;
  forM (fun footprint =>
          match SelectAll h footprint with
          | Ok selected => ret selected
          | Err _ => ret footprint
          | Panic => panic
          | Fuel => out_of_fuel
          end) footprints.

(** evalUnion *)
Definition evalUnion_with (evalList : list Footprint -> list Node -> M (list Footprint))
  (footprints : list Footprint) : list (list Node) -> M (list Footprint) :=
  fix each nodes :=
    match nodes with
    | [] => ret []
    | n :: more =>
        list <- evalList footprints n ;;
        rest <- each more ;;
        ret (list ++ rest)
    end.

(** What a filter decides for one element. *)
Inductive verdict :=
| Skip          (* continue: the element is not selected *)
| Select.       (* the element is appended to the result *)

(** The body of the inner loop of evalFilter, for one element (already
    marked leave-as-it-is); an error ([Err]) ends the evaluation. *)
Definition filter_element (evalLeft evalRight : list Footprint -> M (list Footprint))
  (operator : string) (element : Footprint) : M verdict :=
  lefts <- try (evalLeft [element]) ;;
  if String.eqb operator "exists" then
    match lefts with
    | inl (_ :: _) => ret Select
    | _ => ret Skip
    end
  else
    match lefts with
    | inr err => throw err
    | inl lefts =>
        lefts <- expandM lefts true ;;
        match lefts with
        | [] => ret Skip
        | _ :: _ :: _ => throw "can only compare one element at a time"
        | [l] =>
            let left := HolderPtr l in
            rights <- evalRight [element] ;;
            rights <- expandM rights true ;;
            match rights with
            | [] => ret Skip
            | _ :: _ :: _ => throw "can only compare one element at a time"
            | [r] =>
                let right := HolderPtr r in
                let '(pass, err) := genericCompare operator left right in
                exec (match err with
                      | Some e => AddWarning e
                      | None => ret tt
                      end) ;;
                ret (if pass then Select else Skip)
            end
        end
    end.

(** The inner loop of evalFilter: the elements of one footprint. *)
Fixpoint filter_elements (evalLeft evalRight : list Footprint -> M (list Footprint))
  (operator : string) (elements : list Footprint) : M (list Footprint) :=
  match elements with
  | [] => ret []
  | element :: more =>
      let element := LeaveItAsItIs element in
      v <- filter_element evalLeft evalRight operator element ;;
      rest <- filter_elements evalLeft evalRight operator more ;;
      ret (match v with Select => element :: rest | Skip => rest end)
  end.

(** evalFilter *)
Definition evalFilter_with (evalLeft evalRight : list Footprint -> M (list Footprint))
  (operator : string) (footprints : list Footprint) : M (list Footprint) :=
  footprints <- expandM footprints false ;;
  concat_map_M
    (fun fp =>
       h <- get_heap ;;
       match SelectAll h fp with
       | Err _ => ret []
       | Panic => panic
       | Fuel => out_of_fuel
       | Ok allSelectedFp =>
           elements <- match Expand h allSelectedFp with
                       | Ok elements => ret elements
                       | Err _ => ret []
                       | Panic => panic
                       | Fuel => out_of_fuel
                       end ;;
           filter_elements evalLeft evalRight operator elements
       end) footprints.

(** evalRecursive; [fuel] bounds the depth of the descent. *)
Definition evalRecursive (fuel : nat) (footprints : list Footprint) : M (list Footprint) :=
  footprints <- expandM footprints false ;;
  h <- get_heap ;;
  lift (collect_all fuel h footprints []).

(** evalInt, evalBool, evalFloat: [v] is the literal as an interface. *)
Definition evalLiteral (footprints : list Footprint) (v : value) : M (list Footprint) :=
  footprints <- expandM footprints false ;;
  ret (map (fun _ => NewFootprint v None) footprints).

Definition evalInt (footprints : list Footprint) (i : Z) := evalLiteral footprints (VInt i).
Definition evalBool (footprints : list Footprint) (b : bool) := evalLiteral footprints (VBool b).
Definition evalFloat (footprints : list Footprint) (f : float64) :=
  evalLiteral footprints (VFloat f).

(** walk *)
Fixpoint walk_node (fuel : nat) (node : Node) (footprints : list Footprint) {struct node}
  : M (list Footprint) :=
  let walk := fun fps n => walk_node fuel n fps in
  match node with
  | ListNode nodes => evalList_with walk footprints nodes
  | FieldNode name => evalField footprints name
  | ArrayNode params => evalArray footprints params
  | IntNode i => evalInt footprints i
  | BoolNode b => evalBool footprints b
  | FloatNode f => evalFloat footprints f
  | WildcardNode => evalWildcard footprints
  | RecursiveNode => evalRecursive fuel footprints
  | UnionNode nodes => evalUnion_with (evalList_with walk) footprints nodes
  | FilterNode Left Right operator =>
      evalFilter_with (fun fps => evalList_with walk fps Left)
                      (fun fps => evalList_with walk fps Right) operator footprints
  | ArrayElementNode node => evalArrayElement footprints node
  | TextNode _ | IdentifierNode _ => throw "unexpected Node"
  end.

Definition walk (fuel : nat) (footprints : list Footprint) (node : Node) : M (list Footprint) :=
  walk_node fuel node footprints.

Definition evalList (fuel : nat) : list Footprint -> list Node -> M (list Footprint) :=
  evalList_with (walk fuel).

Definition evalUnion (fuel : nat) : list Footprint -> list (list Node) -> M (list Footprint) :=
  evalUnion_with (evalList fuel).

Definition evalFilter (fuel : nat) (footprints : list Footprint)
  (left right : list Node) (operator : string) : M (list Footprint) :=
  evalFilter_with (fun fps => evalList fuel fps left) (fun fps => evalList fuel fps right)
    operator footprints.

(** *** The facade *)

(** The fields of Jsonpath that an evaluation reads: the root of the
    parser (nil before a successful parse) and the data holder, a slice of
    documents (nil before InitData) given by its backing array and its
    length. The write mode is [writeMode]; the warnings are in the
    state. *)
Record Jsonpath := mkJsonpath {
  name : string;
  parser : option (list Node);
  dataHolder : option (nat * nat)
}.

(** [j.dataHolder] as an interface. *)
Definition dataHolder_value (j : Jsonpath) : value :=
  match dataHolder j with
  | Some (a, len) => VSlice a len
  | None => VSlice 0 0
  end.

(** Data *)
Definition Data (j : Jsonpath) : M value :=
  h <- get_heap ;;
  match dataHolder j with
  | Some (a, len) => must (Store.slice_get h a len 0)
  | None => panic
  end.

(** FindResult *)
Definition FindResult (fuel : nat) (j : Jsonpath) : M (list Footprint) :=
  match parser j with
  | None => throw (name j ++ " is an incomplete jsonpath expr")
  | Some root =>
      let fp := NewFootprint (dataHolder_value j) None in
      h <- get_heap ;;
      selected <- lift (SelectAll h fp) ;;
      match root with
      | ListNode nodes :: _ =>
          match nodes with
          | [] => throw "cannot handle empty expression"
          | _ => evalList fuel [selected] nodes
          end
      | _ => panic
      end
  end.

End Evaluator.

Section Facade.

Variable growslice : nat -> nat -> nat.
Variable template_Less template_Greater template_Equal : value -> value -> bool * option string.
Variable template_NotEqual template_LessEqual template_GreaterEqual
  : value -> value -> bool * option string.

Let FindResult_in (writeMode : bool) :=
  FindResult growslice template_Less template_Greater template_Equal
    template_NotEqual template_LessEqual template_GreaterEqual writeMode.

(** Get: the values the final footprints hold. *)
Definition Get (fuel : nat) (j : Jsonpath) : M (list value) :=
  footprints <- FindResult_in false fuel j ;;
  footprints <- expandM footprints true ;;
  ret (map HolderPtr footprints).

(** Set *)
Definition Set_ (fuel : nat) (j : Jsonpath) (change : value) : M unit :=
  footprints <- FindResult_in true fuel j ;;
  forM_ (UpdateAll change) footprints.

(** InitData: the document is appended to the data holder. *)
Definition InitData (j : Jsonpath) (obj : value) : M Jsonpath :=
  h <- get_heap ;;
  match dataHolder j with
  | None =>
      exec put_heap (mkHeap (arrays h ++ [[obj]]) (maps h)) ;;
      ret (mkJsonpath (name j) (parser j) (Some (length (arrays h), 1)))
  | Some (a, len) =>
      r <- must (Store.append_nils growslice h a len 1) ;;
      exec put_heap (fst r) ;;
      match snd r with
      | VSlice a' len' =>
          exec slice_store a' len' (Z.of_nat len) obj ;;
          ret (mkJsonpath (name j) (parser j) (Some (a', len')))
      | _ => panic
      end
  end.

End Facade.

(** New: the expression is parsed between the delimiters. *)
Definition New (IsLetter_tables IsDigit_tables : rune -> bool)
  (TrimFunc_IsSpace TrimRightFunc_IsSpace : string -> string)
  (ParseFloat : string -> option float64) (unquote_escapes : string -> ascii -> option string)
  (name expr : string) : outcome Jsonpath :=
  match Parse.Parse IsLetter_tables IsDigit_tables TrimFunc_IsSpace TrimRightFunc_IsSpace
          ParseFloat unquote_escapes name ("{" ++ expr ++ "}") with
  | Parse.POk p => Ok (mkJsonpath name (Some (Parse.Root p)) None)
  | Parse.PErr _ => Err "cannot parse jsonpath string"
  | Parse.PPanic => Panic
  | Parse.PFuel => Fuel
  end.

(* ===================================================================== *)
(** * Documents as trees *)
(* ===================================================================== *)

(** A JSON text, as json.Unmarshal reads it into interfaces: numbers are
    float64. *)
Inductive json :=
| JNull
| JBool (b : bool)
| JNumber (f : float64)
| JInt (i : Z)
| JString (s : string)
| JArray (elems : list json)
| JObject (fields : list (string * json)).

Arguments JNumber f%_Z.
Arguments VFloat f%_Z.
Arguments FloatNode Value%_Z.

(** The document [d] laid out in the store: a fresh map for every object, a
    fresh backing array (of capacity its length) for every array. *)
Fixpoint store_json (d : json) (h : heap) : value * heap :=
  match d with
  | JNull => (VNil, h)
  | JBool b => (VBool b, h)
  | JNumber f => (VFloat f, h)
  | JInt i => (VInt i, h)
  | JString s => (VString s, h)
  | JArray elems =>
      let '(vs, h1) :=
        (fix each (l : list json) (h : heap) : list value * heap :=
           match l with
           | [] => ([], h)
           | e :: more =>
               let '(v, h1) := store_json e h in
               let '(vs, h2) := each more h1 in
               (v :: vs, h2)
           end) elems h in
      (VSlice (length (arrays h1)) (length vs), mkHeap (arrays h1 ++ [vs]) (maps h1))
  | JObject fields =>
      let '(mp, h1) :=
        (fix each (l : list (string * json)) (mp : gmap string value) (h : heap)
           : gmap string value * heap :=
           match l with
           | [] => (mp, h)
           | (k, e) :: more =>
               let '(v, h1) := store_json e h in
               each more (<[k := v]> mp) h1
           end) fields ∅ h in
      (VMap (length (maps h1)), mkHeap (arrays h1) (maps h1 ++ [mp]))
  end.

(** The tree a value of the store stands for; the fields of an object come
    in the order of [map_to_list]. *)
Fixpoint read_json (fuel : nat) (h : heap) (v : value) : option json :=
  match fuel with
  | O => None
  | S fuel' =>
      match v with
      | VNil => Some JNull
      | VBool b => Some (JBool b)
      | VInt i => Some (JInt i)
      | VFloat f => Some (JNumber f)
      | VString s => Some (JString s)
      | VSlice a len =>
          match Store.slice_elems h a len with
          | Some vs => JArray <$> mapM (read_json fuel' h) vs
          | None => None
          end
      | VMap m =>
          match Store.map_of h m with
          | Some mp =>
              JObject <$> mapM (fun kv => pair (fst kv) <$> read_json fuel' h (snd kv))
                               (map_to_list mp)
          | None => None
          end
      end
  end.

Definition empty_heap : heap := mkHeap [] [].
Definition empty_state : state := mkState empty_heap [].

(* ===================================================================== *)
(** * The statements of the specification *)
(* ===================================================================== *)

(** Slice resolution as section 4.2.1 of the specification words it, over
    the integers (no wrap-around, no fuel). *)
Module SliceSpec.

Definition step_of (z : ParamsEntry) : Z :=
  let step := if Known z then Value z else 0%Z in
  if (step =? 0)%Z then 1%Z else step.

Definition invert_of (z : ParamsEntry) : bool := (step_of z <? 0)%Z.

Definition base_of (L : Z) (x : ParamsEntry) (step : Z) : Z :=
  if Known x then
    if (L - 1 <? Value x)%Z then (if (step <? 0)%Z then L - 1 else Value x)%Z
    else if (0 <=? Value x)%Z then Value x
    else if (- L <=? Value x)%Z then (Value x + L)%Z
    else 0%Z
  else if (0 <? step)%Z then 0%Z else (L - 1)%Z.

Definition limit_of (L : Z) (y : ParamsEntry) (step : Z) : Z :=
  if Known y then
    if (0 <=? Value y)%Z then Value y
    else if (- L <=? Value y)%Z then (Value y + L)%Z
    else (-1)%Z
  else if (0 <? step)%Z then L else (-1)%Z.

(** The condition of the loop, forward and backward. *)
Definition cond (invert : bool) (L limit i : Z) : bool :=
  ((i <? L) && (-1 <? i) && (if invert then limit <? i else i <? limit))%Z.

(** The indexes a loop [for i := base; cond(i); i += step] visits, in the
    order of the loop. *)
Inductive loop_emits (cond : Z -> bool) (step : Z) : Z -> list Z -> Prop :=
| loop_exit i : cond i = false -> loop_emits cond step i []
| loop_iter i l :
    cond i = true -> loop_emits cond step (i + step)%Z l ->
    loop_emits cond step i (i :: l).

Definition selects (L : Z) (x y z : ParamsEntry) (l : list Z) : Prop :=
  let step := step_of z in
  loop_emits (cond (invert_of z) L (limit_of L y step)) step (base_of L x step) l.

End SliceSpec.

(** The size a slice node asks of EnforceArraySelection in write mode: the
    end when it is known, the start plus one otherwise (a start that is not
    known counts as 0), and -1 (no growth) when the values of start, end and
    step are all 0. *)
Definition slice_enforce_size (x y z : ParamsEntry) : Z :=
  let start := if Known x then Value x else 0%Z in
  if ((start =? 0) && (Value y =? 0) && (Value z =? 0))%Z then (-1)%Z
  else if Known y then Value y
  else (start + 1)%Z.

(** An expanded footprint that holds an array. *)
Definition holds_array (fp : Footprint) : bool := is_slice (HolderPtr fp).

(** A footprint that holds an array is an array footprint (NewFootprint
    makes no other), and the length of the array is a Go integer. *)
Definition array_footprint_ok (fp : Footprint) : Prop :=
  forall a len,
    HolderPtr fp = VSlice a len ->
    (exists leave sis info, fp = ArrayFootprint leave (VSlice a len) sis info)
    /\ (Z.of_nat len <= MaxInt64)%Z.

(** What the evaluation of the slice (x, y, z) makes of an expanded
    footprint that holds an array of L elements: one array footprint over
    the same array, that selects the indexes of section 4.2.1 for L, in the
    order of the loop. *)
Definition slice_of (x y z : ParamsEntry) (fp r : Footprint) : Prop :=
  exists a len indexes,
    HolderPtr fp = VSlice a len
    /\ r = ArrayFootprint false (VSlice a len) indexes zero_info
    /\ SliceSpec.selects (Z.of_nat len) x y z (map Index indexes).

(** The state after evalArray has gone over the expanded footprints: one
    warning for each of them that holds no array. *)
Definition warned_for_non_arrays (st : state) (expanded : list Footprint) : state :=
  mkState (st_heap st)
    (warnings st
     ++ replicate (length (List.filter (fun fp => negb (holds_array fp)) expanded))
          "cannot use a index number to find a element in a non-array object").

(** The body of the outer loop of evalFilter, for one expanded footprint:
    all its children are selected and expanded, and the inner loop goes over
    them. *)
Definition filter_footprint
  (tLess tGreater tEqual tNotEqual tLessEqual tGreaterEqual
     : value -> value -> bool * option string)
  (evalLeft evalRight : list Footprint -> M (list Footprint))
  (operator : string) (fp : Footprint) : M (list Footprint) :=
  h <- get_heap ;;
  match SelectAll h fp with
  | Err _ => ret []
  | Panic => panic
  | Fuel => out_of_fuel
  | Ok allSelectedFp =>
      elements <- match Expand h allSelectedFp with
                  | Ok elements => ret elements
                  | Err _ => ret []
                  | Panic => panic
                  | Fuel => out_of_fuel
                  end ;;
      filter_elements tLess tGreater tEqual tNotEqual tLessEqual tGreaterEqual
        evalLeft evalRight operator elements
  end.

(** How evalFilter goes on after an element that it skips: [found] are the
    footprints of the earlier expanded footprints, [selected] the elements
    selected before the skipped one; the inner loop goes over the elements
    [after] it, the outer loop over the footprints [fps_after], and the
    result has nothing for the skipped element. *)
Definition filter_continues
  (tLess tGreater tEqual tNotEqual tLessEqual tGreaterEqual
     : value -> value -> bool * option string)
  (evalLeft evalRight : list Footprint -> M (list Footprint))
  (operator : string) (found selected after fps_after : list Footprint)
  : M (list Footprint) :=
  rest <- filter_elements tLess tGreater tEqual tNotEqual tLessEqual tGreaterEqual
            evalLeft evalRight operator after ;;
  more <- concat_map_M
            (filter_footprint tLess tGreater tEqual tNotEqual tLessEqual tGreaterEqual
               evalLeft evalRight operator) fps_after ;;
  ret (found ++ (selected ++ rest) ++ more).

(** A footprint that expands to itself: a map or an array footprint marked
    leave-as-it-is (what evalFilter hands to the two sides of a filter for an
    element that is a container). *)
Definition left_as_is_container (fp : Footprint) : bool :=
  match fp with
  | MapFootprint true _ _ _ => true
  | ArrayFootprint true _ _ _ => true
  | _ => false
  end.

(** The value a literal node holds, as an interface. *)
Definition literal_value (node : Node) : option value :=
  match node with
  | IntNode i => Some (VInt i)
  | FloatNode f => Some (VFloat f)
  | BoolNode b => Some (VBool b)
  | _ => None
  end.

(** A computation that leaves the store as it found it. *)
Definition keeps_heap {A} (c : M A) : Prop :=
  forall s, st_heap (snd (c s)) = st_heap s.

(** Instances of the library functions and of the comparison helpers, for
    the examples: no letter or digit beyond Latin-1, no float, no escape;
    equality and order on numbers only. *)
Module Examples.

Definition no_rune (r : rune) : bool := false.
Definition same (s : string) : string := s.
Definition no_float (s : string) : option float64 := None.
Definition no_escape (s : string) (q : ascii) : option string := None.
Definition exact_cap (old needed : nat) : nat := needed.

Definition number_of (v : value) : option Z :=
  match v with
  | VInt i => Some i
  | VFloat f => Some f
  | _ => None
  end.

Definition compare_with (f : Z -> Z -> bool) (a b : value) : bool * option string :=
  match number_of a, number_of b with
  | Some x, Some y => (f x y, None)
  | _, _ => (false, Some "incompatible types for comparison")
  end.

Definition Parse (text : string) : Parse.presult Parse.Parser :=
  Parse.Parse no_rune no_rune same same no_float no_escape "example" text.

Definition New (expr : string) : outcome Jsonpath :=
  New no_rune no_rune same same no_float no_escape "example" expr.

Definition Get (fuel : nat) (j : Jsonpath) : M (list value) :=
  Get exact_cap (compare_with Z.ltb) (compare_with Z.gtb) (compare_with Z.eqb)
    (compare_with (fun a b => negb (Z.eqb a b))) (compare_with Z.leb)
    (compare_with Z.geb) fuel j.

Definition Set_ (fuel : nat) (j : Jsonpath) (change : value) : M unit :=
  Set_ exact_cap (compare_with Z.ltb) (compare_with Z.gtb) (compare_with Z.eqb)
    (compare_with (fun a b => negb (Z.eqb a b))) (compare_with Z.leb)
    (compare_with Z.geb) fuel j change.

Definition walk (writeMode : bool) (fuel : nat)
  : list Footprint -> Node -> M (list Footprint) :=
  walk exact_cap (compare_with Z.ltb) (compare_with Z.gtb) (compare_with Z.eqb)
    (compare_with (fun a b => negb (Z.eqb a b))) (compare_with Z.leb)
    (compare_with Z.geb) writeMode fuel.

Definition evalList (writeMode : bool) (fuel : nat)
  : list Footprint -> list Node -> M (list Footprint) :=
  evalList exact_cap (compare_with Z.ltb) (compare_with Z.gtb) (compare_with Z.eqb)
    (compare_with (fun a b => negb (Z.eqb a b))) (compare_with Z.leb)
    (compare_with Z.geb) writeMode fuel.

Definition filter_elements
  (evalLeft evalRight : list Footprint -> M (list Footprint)) (operator : string)
  : list Footprint -> M (list Footprint) :=
  filter_elements (compare_with Z.ltb) (compare_with Z.gtb) (compare_with Z.eqb)
    (compare_with (fun a b => negb (Z.eqb a b))) (compare_with Z.leb)
    (compare_with Z.geb) evalLeft evalRight operator.

(** A Jsonpath over the expression [expr] and the document [d], in a
    store that holds the document only. *)
Definition load (expr : string) (d : json) : outcome Jsonpath * state :=
  match New expr with
  | Ok j =>
      let '(v, h) := store_json d empty_heap in
      InitData exact_cap j v (mkState h [])
  | Err e => (Err e, empty_state)
  | Panic => (Panic, empty_state)
  | Fuel => (Fuel, empty_state)
  end.

(** Get on a document given as a tree: the values as trees, and the
    warnings. *)
Definition get (expr : string) (d : json) : outcome (list (option json) * list string) :=
  match load expr d with
  | (Ok j, s) =>
      match Get 64 j s with
      | (Ok vs, s') => Ok (map (read_json 64 (st_heap s')) vs, warnings s')
      | (Err e, _) => Err e
      | (Panic, _) => Panic
      | (Fuel, _) => Fuel
      end
  | (Err e, _) => Err e
  | (Panic, _) => Panic
  | (Fuel, _) => Fuel
  end.

(** Set on a document given as a tree: the document afterwards. *)
Definition set (expr : string) (d : json) (change : value) : outcome (option json) :=
  match load expr d with
  | (Ok j, s) =>
      match Set_ 64 j change s with
      | (Ok _, s') =>
          match Data j s' with
          | (Ok v, _) => Ok (read_json 64 (st_heap s') v)
          | (Err e, _) => Err e
          | (Panic, _) => Panic
          | (Fuel, _) => Fuel
          end
      | (Err e, _) => Err e
      | (Panic, _) => Panic
      | (Fuel, _) => Fuel
      end
  | (Err e, _) => Err e
  | (Panic, _) => Panic
  | (Fuel, _) => Fuel
  end.

(** A heap with an array of two objects: one with the fields a and b, one
    with the field missing. *)
Definition objects_in_array : heap :=
  mkHeap [[VMap 0; VMap 1]]
    [<["a" := VInt 1]> (<["b" := VInt 2]> ∅); <["missing" := VInt 5]> ∅].

End Examples.

(* ===================================================================== *)
(** * Statements of further properties *)
(* ===================================================================== *)

(** The value a path of fields and of indexes leads to from the value [v]:
    a field is read in an object that has the key, an index from 0 to len-1 or
    from -len to -1 (counted from the end) in an array of len elements. *)
Fixpoint lookup_path (h : heap) (v : value) (path : list Node) : option value :=
  match path with
  | [] => Some v
  | FieldNode field :: more =>
      match v with
      | VMap m =>
          match Store.map_of h m with
          | Some mp =>
              match mp !! field with
              | Some child => lookup_path h child more
              | None => None
              end
          | None => None
          end
      | _ => None
      end
  | ArrayElementNode node :: more =>
      match v with
      | VSlice d len =>
          match Store.slice_elems h d len with
          | Some elems =>
              let i := if (0 <=? Value node)%Z then Value node
                       else (Value node + Z.of_nat len)%Z in
              if (0 <=? i)%Z then
                match elems !! Z.to_nat i with
                | Some child => lookup_path h child more
                | None => None
                end
              else None
          | None => None
          end
      | _ => None
      end
  | _ => None
  end.

(** A footprint that selects one value: its expansion is the footprint of
    that value. *)
Definition selects_one (h : heap) (fp : Footprint) (v : value) : Prop :=
  exists info, expandFootprints h [fp] false = Ok [NewFootprint v (Some info)].

(** Every byte of [s] passes [f]. *)
Fixpoint str_forall (f : ascii -> bool) (s : string) : bool :=
  match s with
  | EmptyString => true
  | String c t => f c && str_forall f t
  end.

(** A byte that parseField takes into the name of a field as it is: an
    ASCII byte that is no terminator and no backslash. *)
Definition plain_field_byte (c : ascii) : bool :=
  (byte_val c <? 128)%Z && negb (Parse.isTerminator (byte_val c))
  && negb (byte_val c =? Parse.r_of Parse.backslash)%Z.

(** A computation that neither reads nor drops the warnings: what it
    returns and the store it leaves do not depend on the warnings it starts
    with, and it leaves them followed by those it adds. *)
Definition ignores_warnings {A} (c : M A) : Prop :=
  forall h w,
    c (mkState h w)
    = (fst (c (mkState h [])),
       mkState (st_heap (snd (c (mkState h [])))) (w ++ warnings (snd (c (mkState h []))))).

(* ===================================================================== *)
(** * Integers of 64 bits *)
(* ===================================================================== *)

Lemma in_int64_bounds z : in_int64 z = true <-> (- 9223372036854775808 <= z <= 9223372036854775807)%Z.
Proof.
  unfold in_int64, MinInt64, MaxInt64.
  change (- 2 ^ 63)%Z with (- 9223372036854775808)%Z.
  change (2 ^ 63 - 1)%Z with 9223372036854775807%Z.
  rewrite andb_true_iff, !Z.leb_le. tauto.
Qed.

Lemma wrap64_small z :
  (- 9223372036854775808 <= z <= 9223372036854775807)%Z -> wrap64 z = z.
Proof.
  intros Hz. unfold wrap64.
  change (2 ^ 63)%Z with 9223372036854775808%Z.
  change (2 ^ 64)%Z with 18446744073709551616%Z.
  rewrite Z.mod_small; lia.
Qed.

Lemma wrap64_overflow z :
  (9223372036854775807 < z < 18446744073709551616)%Z -> (wrap64 z < 0)%Z.
Proof.
  intros Hz. unfold wrap64.
  change (2 ^ 63)%Z with 9223372036854775808%Z.
  change (2 ^ 64)%Z with 18446744073709551616%Z.
  replace (z + 9223372036854775808)%Z
    with ((z - 9223372036854775808) + 1 * 18446744073709551616)%Z by lia.
  rewrite Z.mod_add by lia. rewrite Z.mod_small; lia.
Qed.

(* ===================================================================== *)
(** * Slice resolution (C1) *)
(* ===================================================================== *)

Section SliceLoops.

Variables (writeMode : bool) (realSize : Z).
Variables (L limit step : Z).
Hypothesis HL : (0 <= L <= 9223372036854775807)%Z.

Lemma slice_loop_exit fuel invert i :
  SliceSpec.cond invert L limit i = false ->
  slice_loop fuel invert L limit step writeMode realSize i = Some [].
Proof.
  intros Hc. unfold SliceSpec.cond in Hc.
  destruct fuel; simpl; rewrite Hc; reflexivity.
Qed.

(** The forward loop: the step is positive; the index may leave the 64
    bits, and the loop stops there as it does over the integers. *)
Lemma slice_loop_forward :
  (1 <= step <= 9223372036854775807)%Z ->
  forall fuel i,
    (0 <= i < L -> L - i <= Z.of_nat fuel)%Z ->
    exists l,
      slice_loop fuel false L limit step writeMode realSize i = Some l /\
      SliceSpec.loop_emits (SliceSpec.cond false L limit) step i (map Index l).
Proof.
  intros Hstep fuel.
  induction fuel as [|fuel IH]; intros i Hm.
  - assert (Hc : SliceSpec.cond false L limit i = false).
    { unfold SliceSpec.cond. destruct (i <? L)%Z eqn:E1; [|reflexivity].
      destruct (-1 <? i)%Z eqn:E2; [|reflexivity].
      apply Z.ltb_lt in E1, E2. lia. }
    exists []. split; [apply slice_loop_exit; exact Hc | constructor; exact Hc].
  - destruct (SliceSpec.cond false L limit i) eqn:Hc.
    + assert (Hi : (0 <= i < L)%Z).
      { unfold SliceSpec.cond in Hc.
        apply andb_true_iff in Hc as [Hc _]. apply andb_true_iff in Hc as [H1 H2].
        apply Z.ltb_lt in H1, H2. lia. }
      destruct (Z_le_gt_dec (i + step) 9223372036854775807) as [Hsm|Hov].
      * destruct (IH (i + step)%Z) as (l & Hl & Hs); [lia|].
        exists (mkSelectionIndex i (mkVirtualInfo (writeMode && (realSize <=? i)%Z) (-1)) :: l).
        split.
        -- simpl. unfold SliceSpec.cond in Hc. rewrite Hc.
           rewrite wrap64_small by lia. rewrite Hl. reflexivity.
        -- simpl. apply SliceSpec.loop_iter; assumption.
      * exists [mkSelectionIndex i (mkVirtualInfo (writeMode && (realSize <=? i)%Z) (-1))].
        split.
        -- simpl. unfold SliceSpec.cond in Hc. rewrite Hc.
           rewrite slice_loop_exit; [reflexivity|].
           unfold SliceSpec.cond.
           assert (wrap64 (i + step) < 0)%Z by (apply wrap64_overflow; lia).
           destruct (wrap64 (i + step) <? L)%Z; [|reflexivity].
           replace (-1 <? wrap64 (i + step))%Z with false; [reflexivity|].
           symmetry. apply Z.ltb_ge. lia.
        -- simpl. apply SliceSpec.loop_iter; [exact Hc|].
           constructor. unfold SliceSpec.cond.
           replace (i + step <? L)%Z with false; [reflexivity|].
           symmetry. apply Z.ltb_ge. lia.
    + exists []. split; [apply slice_loop_exit; exact Hc | constructor; exact Hc].
Qed.

(** The backward loop: the step is negative, the index stays within the
    64 bits. *)
Lemma slice_loop_backward :
  (- 9223372036854775808 <= step <= -1)%Z ->
  forall fuel i,
    (0 <= i < L -> i + 1 <= Z.of_nat fuel)%Z ->
    exists l,
      slice_loop fuel true L limit step writeMode realSize i = Some l /\
      SliceSpec.loop_emits (SliceSpec.cond true L limit) step i (map Index l).
Proof.
  intros Hstep fuel.
  induction fuel as [|fuel IH]; intros i Hm.
  - assert (Hc : SliceSpec.cond true L limit i = false).
    { unfold SliceSpec.cond. destruct (i <? L)%Z eqn:E1; [|reflexivity].
      destruct (-1 <? i)%Z eqn:E2; [|reflexivity].
      apply Z.ltb_lt in E1, E2. lia. }
    exists []. split; [apply slice_loop_exit; exact Hc | constructor; exact Hc].
  - destruct (SliceSpec.cond true L limit i) eqn:Hc.
    + assert (Hi : (0 <= i < L)%Z).
      { unfold SliceSpec.cond in Hc.
        apply andb_true_iff in Hc as [Hc _]. apply andb_true_iff in Hc as [H1 H2].
        apply Z.ltb_lt in H1, H2. lia. }
      destruct (IH (i + step)%Z) as (l & Hl & Hs); [lia|].
      exists (mkSelectionIndex i (mkVirtualInfo (writeMode && (realSize <=? i)%Z) (-1)) :: l).
      split.
      * simpl. unfold SliceSpec.cond in Hc. rewrite Hc.
        rewrite wrap64_small by lia. rewrite Hl. reflexivity.
      * simpl. apply SliceSpec.loop_iter; assumption.
    + exists []. split; [apply slice_loop_exit; exact Hc | constructor; exact Hc].
Qed.

End SliceLoops.

(** The loop of the specification visits one list of indexes only. *)
Lemma loop_emits_deterministic cond step i l1 l2 :
  SliceSpec.loop_emits cond step i l1 ->
  SliceSpec.loop_emits cond step i l2 -> l1 = l2.
Proof.
  intros H1. revert l2.
  induction H1 as [i Hc | i l Hc H1 IH]; intros l2 H2; inversion H2; subst;
    try congruence.
  f_equal. apply IH. assumption.
Qed.

(** inferArrayNode computes the step, the direction, the base and the limit
    of the specification. *)
Lemma inferArrayNode_spec (len : nat) (x y z : ParamsEntry) :
  in_int64 (Value x) = true -> in_int64 (Value y) = true ->
  (Z.of_nat len <= 9223372036854775807)%Z ->
  let L := Z.of_nat len in
  let step := SliceSpec.step_of z in
  inferArrayNode L [x; y; z]
  = Ok (SliceSpec.base_of L x step, SliceSpec.limit_of L y step, step, SliceSpec.invert_of z).
Proof.
  intros Hx Hy HL L step. subst step.
  apply in_int64_bounds in Hx. apply in_int64_bounds in Hy.
  unfold inferArrayNode, SliceSpec.base_of, SliceSpec.limit_of, SliceSpec.invert_of,
    SliceSpec.step_of. simpl length. simpl Nat.eqb. cbv iota.
  assert (HL0 : (0 <= L)%Z) by (subst L; lia).
  destruct (Known z), (Known x), (Known y); simpl negb; cbv iota;
    repeat match goal with
      | |- context [(?a =? ?b)%Z] => destruct (Z.eqb_spec a b)
      | |- context [(?a <? ?b)%Z] => destruct (Z.ltb_spec a b)
      | |- context [(?a <=? ?b)%Z] => destruct (Z.leb_spec a b)
      end; simpl; try lia;
    repeat rewrite wrap64_small by lia; try reflexivity; try lia.
Qed.

(** For every array of length L and slice parameters (x, y, z), the
    indexes that evalArray selects in one expanded footprint over the array, in
    read and in write mode, are those of the specification. *)
Lemma evalArray_one_selects_spec_indexes
  (writeMode leave : bool) (a len : nat) (sis : list SelectionIndex) (info : VirtualInfo)
  (x y z : ParamsEntry) (st : state) :
  in_int64 (Value x) = true ->
  in_int64 (Value y) = true ->
  in_int64 (Value z) = true ->
  (Z.of_nat len <= MaxInt64)%Z ->
  exists indexes,
    evalArray_one writeMode [x; y; z] (ArrayFootprint leave (VSlice a len) sis info) st
    = (Ok [ArrayFootprint false (VSlice a len) indexes zero_info], st)
    /\ evalArray_indexes writeMode (RealSize info) len [x; y; z] = Ok indexes
    /\ SliceSpec.selects (Z.of_nat len) x y z (map Index indexes).
Proof.
  intros Hx Hy Hz HL.
  change MaxInt64 with 9223372036854775807%Z in HL.
  pose proof (inferArrayNode_spec len x y z Hx Hy HL) as Hinfer. cbv zeta in Hinfer.
  assert (HL' : (0 <= Z.of_nat len <= 9223372036854775807)%Z) by lia.
  apply in_int64_bounds in Hx. apply in_int64_bounds in Hy. apply in_int64_bounds in Hz.
  set (L := Z.of_nat len) in *.
  set (step := SliceSpec.step_of z) in *.
  assert (Hstep : (- 9223372036854775808 <= step <= 9223372036854775807)%Z /\ step <> 0%Z).
  { subst step. unfold SliceSpec.step_of.
    destruct (Known z); simpl; [destruct (Z.eqb_spec (Value z) 0)|]; lia. }
  assert (Hloop : exists l,
    slice_loop (S len) (SliceSpec.invert_of z) L (SliceSpec.limit_of L y step) step
      writeMode (RealSize info) (SliceSpec.base_of L x step) = Some l /\
    SliceSpec.loop_emits (SliceSpec.cond (SliceSpec.invert_of z) L (SliceSpec.limit_of L y step))
      step (SliceSpec.base_of L x step) (map Index l)).
  { unfold SliceSpec.invert_of. fold step.
    destruct (Z.ltb_spec step 0) as [Hneg|Hpos].
    - apply slice_loop_backward; [exact HL' | lia |].
      intros Hb. subst L. lia.
    - apply slice_loop_forward; [exact HL' | lia |].
      intros Hb. subst L. lia. }
  destruct Hloop as (l & Hl & Hs).
  exists l.
  assert (Hidx : evalArray_indexes writeMode (RealSize info) len [x; y; z] = Ok l).
  { unfold evalArray_indexes. fold L. rewrite Hinfer. rewrite Hl. reflexivity. }
  split; [|split; [exact Hidx | exact Hs]].
  unfold evalArray_one, bind, lift, ret. cbn [HolderPtr RealSize_of].
  rewrite Hidx. reflexivity.
Qed.

(** The slice with a step of -2 over five elements selects 4, 2 and 0, in that
    order. *)
Example slice_backward_by_two :
  evalArray_indexes false 0 5
    [mkParamsEntry 0 false false; mkParamsEntry 0 false false; mkParamsEntry (-2) true false]
  = Ok [mkSelectionIndex 4 no_info; mkSelectionIndex 2 no_info; mkSelectionIndex 0 no_info].
Proof. reflexivity. Qed.

(** A start beyond the 64 bits of a forward step: the index wraps around and
    the loop stops after one element, as it does over the integers. *)
Example slice_forward_wraps :
  evalArray_indexes false 0 3
    [mkParamsEntry 1 true false; mkParamsEntry 3 true false;
     mkParamsEntry 9223372036854775807 true false]
  = Ok [mkSelectionIndex 1 no_info].
Proof. vm_compute. reflexivity. Qed.

(* ===================================================================== *)
(** * Expansion of footprints (C2) *)
(* ===================================================================== *)

(** A map footprint marked leave-as-it-is expands to itself, unmarked. *)
Lemma Expand_map_left_as_is h ref sks virt :
  Expand h (MapFootprint true ref sks virt) = Ok [MapFootprint false ref sks virt].
Proof. reflexivity. Qed.

(** An array footprint marked leave-as-it-is expands to itself, unmarked. *)
Lemma Expand_array_left_as_is h ref sis info :
  Expand h (ArrayFootprint true ref sis info) = Ok [ArrayFootprint false ref sis info].
Proof. reflexivity. Qed.

(** An empty selection expands to nothing, without an error. *)
Lemma Expand_map_empty_selection h ref virt :
  Expand h (MapFootprint false ref [] virt) = Ok [].
Proof. reflexivity. Qed.

Lemma Expand_array_empty_selection h ref info :
  Expand h (ArrayFootprint false ref [] info) = Ok [].
Proof. reflexivity. Qed.

(** C2. The specification asks that a footprint of any variant marked
    leave-as-it-is expands to itself with the mark cleared. NonRefFootprint.Expand clears
    the mark before it tests it: the test never holds, and Expand returns the
    error whatever the mark was. *)
Theorem C2_nonref_expand_fails_even_left_as_is (h : heap) (leave : bool) (v : value) :
  Expand h (NonRefFootprint leave v) = Err "non-reference foot print cannot be expand"
  /\ Expand h (LeaveItAsItIs (NonRefFootprint leave v))
     = Err "non-reference foot print cannot be expand".
Proof. split; reflexivity. Qed.

(** expandFootprints drops such a footprint, unless it is told to keep what
    does not expand. *)
Example expandFootprints_drops_left_as_is_scalar :
  expandFootprints empty_heap [LeaveItAsItIs (NonRefFootprint false (VInt 42))] false = Ok []
  /\ expandFootprints empty_heap [LeaveItAsItIs (NonRefFootprint false (VInt 42))] true
     = Ok [NonRefFootprint true (VInt 42)].
Proof. split; reflexivity. Qed.

(** Through the facade: in a filter over scalars the literal on the right
    side is evaluated on the element marked leave-as-it-is, whose expansion
    fails; the right side yields nothing and no element is selected. *)
Example get_filter_over_scalars_selects_nothing :
  Examples.get "$[?(@>1)]" (JArray [JNumber 0; JNumber 1; JNumber 2]) = Ok ([], []).
Proof. vm_compute. reflexivity. Qed.

(* ===================================================================== *)
(** * Computations that do not write the store *)
(* ===================================================================== *)

Lemma bind_Ok {A B} (c : M A) (f : A -> M B) s a s' :
  c s = (Ok a, s') -> bind c f s = f a s'.
Proof. intros H. unfold bind. rewrite H. reflexivity. Qed.

Lemma bind_Err {A B} (c : M A) (f : A -> M B) s e s' :
  c s = (Err e, s') -> bind c f s = (Err e, s').
Proof. intros H. unfold bind. rewrite H. reflexivity. Qed.

Lemma bind_eta {A} (c : M A) s : bind c ret s = c s.
Proof. unfold bind, ret. destruct (c s) as [[a|e| |] s']; reflexivity. Qed.

Section KeepsHeap.

Context {A B : Type}.

Lemma keeps_heap_ret (a : A) : keeps_heap (ret a).
Proof. intros s. reflexivity. Qed.

Lemma keeps_heap_throw e : keeps_heap (@throw A e).
Proof. intros s. reflexivity. Qed.

Lemma keeps_heap_panic : keeps_heap (@panic A).
Proof. intros s. reflexivity. Qed.

Lemma keeps_heap_out_of_fuel : keeps_heap (@out_of_fuel A).
Proof. intros s. reflexivity. Qed.

Lemma keeps_heap_lift (o : outcome A) : keeps_heap (lift o).
Proof. intros s. reflexivity. Qed.

Lemma keeps_heap_must (o : option A) : keeps_heap (must o).
Proof. intros s. destruct o; reflexivity. Qed.

Lemma keeps_heap_bind (c : M A) (f : A -> M B) :
  keeps_heap c -> (forall a, keeps_heap (f a)) -> keeps_heap (bind c f).
Proof.
  intros Hc Hf s. unfold bind. specialize (Hc s).
  destruct (c s) as [[a|e| |] s']; simpl in *; try assumption.
  rewrite (Hf a s'). assumption.
Qed.

Lemma keeps_heap_try (c : M A) : keeps_heap c -> keeps_heap (try c).
Proof.
  intros Hc s. unfold try. specialize (Hc s).
  destruct (c s) as [[a|e| |] s']; simpl in *; assumption.
Qed.

End KeepsHeap.

Lemma keeps_heap_forM {A B} (f : A -> M B) (l : list A) :
  (forall x, keeps_heap (f x)) -> keeps_heap (forM f l).
Proof.
  intros Hf. induction l as [|x l IH]; simpl.
  - apply keeps_heap_ret.
  - apply keeps_heap_bind; [apply Hf|]. intros y.
    apply keeps_heap_bind; [apply IH|]. intros ys. apply keeps_heap_ret.
Qed.

Lemma keeps_heap_concat_map_M {A B} (f : A -> M (list B)) (l : list A) :
  (forall x, keeps_heap (f x)) -> keeps_heap (concat_map_M f l).
Proof.
  intros Hf. induction l as [|x l IH]; simpl.
  - apply keeps_heap_ret.
  - apply keeps_heap_bind; [apply Hf|]. intros y.
    apply keeps_heap_bind; [apply IH|]. intros ys. apply keeps_heap_ret.
Qed.

Lemma keeps_heap_get_heap : keeps_heap get_heap.
Proof. intros s. reflexivity. Qed.

Lemma keeps_heap_AddWarning w : keeps_heap (AddWarning w).
Proof. intros s. reflexivity. Qed.

Lemma keeps_heap_expandM fps remain : keeps_heap (expandM fps remain).
Proof.
  unfold expandM. apply keeps_heap_bind; [apply keeps_heap_get_heap|].
  intros h. apply keeps_heap_lift.
Qed.

Create HintDb keeps.
#[export] Hint Resolve keeps_heap_ret keeps_heap_throw keeps_heap_panic keeps_heap_out_of_fuel
  keeps_heap_lift keeps_heap_must keeps_heap_get_heap keeps_heap_AddWarning
  keeps_heap_expandM keeps_heap_try : keeps.

(** One step of a proof that a computation keeps the store: a bind, a
    loop, a case analysis or a leaf. *)
Ltac keeps_step :=
  match goal with
  | |- keeps_heap (bind _ _) => apply keeps_heap_bind; [|intros ?]
  | |- keeps_heap (forM _ _) => apply keeps_heap_forM; intros ?
  | |- keeps_heap (concat_map_M _ _) => apply keeps_heap_concat_map_M; intros ?
  | |- keeps_heap (match ?x with _ => _ end) => destruct x
  | |- keeps_heap (let '(_, _) := ?x in _) => destruct x
  | |- keeps_heap _ => solve [auto with keeps]
  end.

Ltac keeps := repeat keeps_step.

(** Induction on a node, with the nodes of its lists. *)
Lemma Node_nested_ind (P : Node -> Prop) :
  (forall ns, Forall P ns -> P (ListNode ns)) ->
  (forall s, P (TextNode s)) ->
  (forall s, P (FieldNode s)) ->
  (forall s, P (IdentifierNode s)) ->
  (forall ps, P (ArrayNode ps)) ->
  (forall e, P (ArrayElementNode e)) ->
  (forall l r op, Forall P l -> Forall P r -> P (FilterNode l r op)) ->
  (forall i, P (IntNode i)) ->
  (forall f, P (FloatNode f)) ->
  (forall b, P (BoolNode b)) ->
  P WildcardNode ->
  P RecursiveNode ->
  (forall ls, Forall (Forall P) ls -> P (UnionNode ls)) ->
  forall n, P n.
Proof.
  intros HList HText HField HIdent HArray HElem HFilter HInt HFloat HBool HWild HRec HUnion.
  fix IH 1. intros n.
  assert (IHs : forall ns, Forall P ns).
  { fix IHs 1. intros [|m ms]; constructor; [apply IH | apply IHs]. }
  destruct n.
  - apply HList, IHs.
  - apply HText.
  - apply HField.
  - apply HIdent.
  - apply HArray.
  - apply HElem.
  - apply HFilter; apply IHs.
  - apply HInt.
  - apply HFloat.
  - apply HBool.
  - apply HWild.
  - apply HRec.
  - apply HUnion.
    revert Nodes. fix IHss 1. intros [|ms mss]; constructor; [apply IHs | apply IHss].
Qed.

(* ===================================================================== *)
(** * A Get does not write the document (C9) *)
(* ===================================================================== *)

Section ReadMode.

Variable growslice : nat -> nat -> nat.
Variables tLess tGreater tEqual tNotEqual tLessEqual tGreaterEqual
  : value -> value -> bool * option string.

Local Abbreviation walk_node' :=
  (walk_node growslice tLess tGreater tEqual tNotEqual tLessEqual tGreaterEqual false).
Local Abbreviation filter_element' :=
  (filter_element tLess tGreater tEqual tNotEqual tLessEqual tGreaterEqual).
Local Abbreviation filter_elements' :=
  (filter_elements tLess tGreater tEqual tNotEqual tLessEqual tGreaterEqual).
Local Abbreviation evalFilter_with' :=
  (evalFilter_with tLess tGreater tEqual tNotEqual tLessEqual tGreaterEqual).

Lemma evalField_one_read_keeps name fp : keeps_heap (evalField_one false name fp).
Proof. unfold evalField_one. keeps. Qed.

Lemma evalField_read_keeps fps name : keeps_heap (evalField false fps name).
Proof. unfold evalField. keeps. apply evalField_one_read_keeps. Qed.

Lemma evalArray_one_keeps wm params fp : keeps_heap (evalArray_one wm params fp).
Proof. unfold evalArray_one. keeps. Qed.

Lemma evalArray_read_keeps fps params : keeps_heap (evalArray growslice false fps params).
Proof. unfold evalArray. keeps. apply evalArray_one_keeps. Qed.

Lemma evalArrayElement_one_keeps wm node fp : keeps_heap (evalArrayElement_one wm node fp).
Proof. unfold evalArrayElement_one. keeps. Qed.

Lemma evalArrayElement_read_keeps fps node :
  keeps_heap (evalArrayElement growslice false fps node).
Proof. unfold evalArrayElement. keeps. apply evalArrayElement_one_keeps. Qed.

Lemma evalWildcard_keeps fps : keeps_heap (evalWildcard fps).
Proof. unfold evalWildcard. keeps. Qed.

Lemma evalRecursive_keeps fuel fps : keeps_heap (evalRecursive fuel fps).
Proof. unfold evalRecursive. keeps. Qed.

Lemma evalLiteral_keeps fps v : keeps_heap (evalLiteral fps v).
Proof. unfold evalLiteral. keeps. Qed.

Lemma evalList_with_keeps (w : list Footprint -> Node -> M (list Footprint)) nodes :
  Forall (fun n => forall fps, keeps_heap (w fps n)) nodes ->
  forall fps, keeps_heap (evalList_with w fps nodes).
Proof.
  induction 1 as [|n nodes Hn _ IH]; intros fps; simpl.
  - apply keeps_heap_ret.
  - apply keeps_heap_bind; [apply Hn | intros fps'; apply IH].
Qed.

Lemma evalUnion_with_keeps (ev : list Footprint -> list Node -> M (list Footprint)) fps nodes :
  Forall (fun l => forall fps, keeps_heap (ev fps l)) nodes ->
  keeps_heap (evalUnion_with ev fps nodes).
Proof.
  induction 1 as [|l nodes Hl _ IH]; simpl.
  - apply keeps_heap_ret.
  - apply keeps_heap_bind; [apply Hl | intros r].
    apply keeps_heap_bind; [apply IH | intros r']. apply keeps_heap_ret.
Qed.

Section Filter.

Variables evalLeft evalRight : list Footprint -> M (list Footprint).
Hypothesis HLeft : forall fps, keeps_heap (evalLeft fps).
Hypothesis HRight : forall fps, keeps_heap (evalRight fps).

Lemma filter_element_keeps operator element :
  keeps_heap (filter_element' evalLeft evalRight operator element).
Proof.
  unfold filter_element.
  apply keeps_heap_bind; [apply keeps_heap_try, HLeft|]. intros lefts.
  destruct (String.eqb operator "exists").
  - keeps.
  - destruct lefts as [lefts|err]; [|apply keeps_heap_throw].
    apply keeps_heap_bind; [apply keeps_heap_expandM|]. intros ls.
    destruct ls as [|l [|l2 ls]]; [apply keeps_heap_ret| |apply keeps_heap_throw].
    apply keeps_heap_bind; [apply HRight|]. intros rights.
    apply keeps_heap_bind; [apply keeps_heap_expandM|]. intros rs.
    destruct rs as [|r [|r2 rs]]; [apply keeps_heap_ret| |apply keeps_heap_throw].
    destruct (genericCompare _ _ _ _ _ _ _ _ _) as [pass err]. keeps.
Qed.

Lemma filter_elements_keeps operator elements :
  keeps_heap (filter_elements' evalLeft evalRight operator elements).
Proof.
  induction elements as [|e elements IH]; simpl.
  - apply keeps_heap_ret.
  - apply keeps_heap_bind; [apply filter_element_keeps | intros v].
    apply keeps_heap_bind; [apply IH | intros rest]. apply keeps_heap_ret.
Qed.

Lemma evalFilter_with_keeps operator fps :
  keeps_heap (evalFilter_with' evalLeft evalRight operator fps).
Proof.
  unfold evalFilter_with.
  apply keeps_heap_bind; [apply keeps_heap_expandM | intros fps'].
  apply keeps_heap_concat_map_M. intros fp.
  apply keeps_heap_bind; [apply keeps_heap_get_heap | intros h].
  destruct (SelectAll h fp); auto with keeps.
  apply keeps_heap_bind; [destruct (Expand h a); auto with keeps | intros elements].
  apply filter_elements_keeps.
Qed.

End Filter.

(** In read mode, the evaluation of a node leaves the store as it is. *)
Lemma walk_read_keeps fuel node : forall fps, keeps_heap (walk_node' fuel node fps).
Proof.
  induction node using Node_nested_ind; intros fps; cbn [walk_node].
  - apply evalList_with_keeps. assumption.
  - apply keeps_heap_throw.
  - apply evalField_read_keeps.
  - apply keeps_heap_throw.
  - apply evalArray_read_keeps.
  - apply evalArrayElement_read_keeps.
  - apply evalFilter_with_keeps; intros fps'; apply evalList_with_keeps; assumption.
  - apply evalLiteral_keeps.
  - apply evalLiteral_keeps.
  - apply evalLiteral_keeps.
  - apply evalWildcard_keeps.
  - apply evalRecursive_keeps.
  - apply evalUnion_with_keeps.
    match goal with H : Forall _ _ |- _ => induction H; constructor; auto end.
    intros fps'. apply evalList_with_keeps. assumption.
Qed.

Lemma FindResult_read_keeps fuel j :
  keeps_heap (FindResult growslice tLess tGreater tEqual tNotEqual tLessEqual
                tGreaterEqual false fuel j).
Proof.
  unfold FindResult. destruct (parser j) as [root|]; [|apply keeps_heap_throw].
  apply keeps_heap_bind; [apply keeps_heap_get_heap | intros h].
  apply keeps_heap_bind; [apply keeps_heap_lift | intros selected].
  destruct root as [|[nodes| | | | | | | | | | | |] root]; try apply keeps_heap_panic.
  destruct nodes as [|n nodes]; [apply keeps_heap_throw|].
  unfold evalList. apply evalList_with_keeps.
  apply Forall_forall. intros m _ fps. apply walk_read_keeps.
Qed.

(** C9. For every compiled expression and every document, a Get (the
    evaluation in read mode, then the collection of the values) leaves the
    store of the document as it found it: no object or array is created, no
    field is inserted, no array grows; every value reads as the same tree
    after the call as before. This holds whatever the call returns (values,
    an error), and for every bound on the depth of the recursive descent. *)
Theorem C9_get_leaves_document_unchanged (fuel : nat) (j : Jsonpath) (st : state) :
  let st' := snd (Get growslice tLess tGreater tEqual tNotEqual tLessEqual
                    tGreaterEqual fuel j st) in
  st_heap st' = st_heap st
  /\ forall n v, read_json n (st_heap st') v = read_json n (st_heap st) v.
Proof.
  cbv zeta.
  assert (H : keeps_heap (Get growslice tLess tGreater tEqual tNotEqual tLessEqual
                            tGreaterEqual fuel j)).
  { unfold Get. apply keeps_heap_bind; [apply FindResult_read_keeps | intros fps].
    apply keeps_heap_bind; [apply keeps_heap_expandM | intros fps'].
    apply keeps_heap_ret. }
  split; [apply H | intros n v; rewrite (H st); reflexivity].
Qed.

End ReadMode.

(* ===================================================================== *)
(** * Indexes in write mode (C4), fields on what is not an object (C6),
      literals (C8) *)
(* ===================================================================== *)

Section Steps.

Variable growslice : nat -> nat -> nat.
Variables tLess tGreater tEqual tNotEqual tLessEqual tGreaterEqual
  : value -> value -> bool * option string.

Local Abbreviation walk' :=
  (walk growslice tLess tGreater tEqual tNotEqual tLessEqual tGreaterEqual).
Local Abbreviation evalList' :=
  (evalList growslice tLess tGreater tEqual tNotEqual tLessEqual tGreaterEqual).

(** C4. In write mode, the evaluation of an ArrayElement node whose index
    is negative, or whose index is not known, returns an error and leaves
    the state as it found it: no footprint has been enforced or expanded,
    the store and the warnings are untouched; the error ends the
    evaluation of the list the node belongs to. *)
Theorem C4_write_mode_rejects_negative_or_unknown_index
  (fuel : nat) (footprints : list Footprint) (node : ParamsEntry)
  (rest : list Node) (st : state) :
  (Value node < 0)%Z \/ Known node = false ->
  exists msg,
    evalArrayElement growslice true footprints node st = (Err msg, st)
    /\ walk' true fuel footprints (ArrayElementNode node) st = (Err msg, st)
    /\ evalList' true fuel footprints (ArrayElementNode node :: rest) st = (Err msg, st).
Proof.
  intros H.
  assert (He : exists msg,
             evalArrayElement growslice true footprints node st = (Err msg, st)).
  { unfold evalArrayElement, bind, throw.
    destruct (Z.ltb_spec (Value node) 0) as [Hneg|Hpos].
    - eexists. reflexivity.
    - destruct H as [H|H]; [lia|]. rewrite H. eexists. reflexivity. }
  destruct He as (msg & He). exists msg.
  split; [exact He|]. split.
  - unfold walk. cbn [walk_node]. exact He.
  - unfold evalList. cbn [evalList_with]. apply bind_Err.
    unfold walk. cbn [walk_node]. exact He.
Qed.

(** A footprint that yields nothing and leaves the state alone can be
    taken out of the loop. *)
Lemma concat_map_M_drop {A B} (f : A -> M (list B)) (l1 : list A) (x : A) (l2 : list A) :
  (forall s, f x s = (Ok [], s)) ->
  forall s, concat_map_M f (l1 ++ x :: l2) s = concat_map_M f (l1 ++ l2) s.
Proof.
  intros Hx. induction l1 as [|a l1 IH]; intros s.
  - simpl. unfold bind at 1. rewrite Hx. apply bind_eta.
  - simpl. unfold bind at 1 3. destruct (f a s) as [[ys|e| |] s']; try reflexivity.
    unfold bind. rewrite IH. reflexivity.
Qed.

(** C6. What evalField does with a footprint whose holder is not an
    object: the footprint is dropped, it yields no footprint and no error, in
    read and in write mode, for every field name, as the specification says;
    but the state is left as it was: no warning is appended, where the
    specification asks for one. In read mode the whole step returns what it
    returns without that footprint. The else branch of the type test in
    evalField, the place of the diagnostic, is commented out; evalArray and
    evalArrayElement append a warning in the same branch. (The warning that
    the field cannot be found is for a holder that is an object without the
    key.) *)
Theorem C6_field_on_non_object_is_dropped_silently
  (writeMode : bool) (name : string) (fp : Footprint) (st : state) :
  is_map (HolderPtr fp) = false ->
  evalField_one writeMode name fp st = (Ok [], st)
  /\ forall footprints l1 l2,
       expandFootprints (st_heap st) footprints false = Ok (l1 ++ fp :: l2) ->
       evalField false footprints name st
       = concat_map_M (evalField_one false name) (l1 ++ l2) st.
Proof.
  intros Hfp.
  assert (Hone : forall wm s, evalField_one wm name fp s = (Ok [], s)).
  { intros wm s. unfold evalField_one. destruct (HolderPtr fp); try reflexivity.
    discriminate. }
  split; [apply Hone|].
  intros footprints l1 l2 Hexp.
  unfold evalField, expandM, bind, ret, get_heap, lift. rewrite Hexp.
  apply concat_map_M_drop. apply Hone.
Qed.

(** Footprints marked leave-as-it-is that are containers expand to as
    many footprints. *)
Lemma expand_each_left_as_is h remain fps :
  forallb left_as_is_container fps = true ->
  exists fps', expand_each h remain fps = Ok fps' /\ length fps' = length fps.
Proof.
  induction fps as [|fp fps IH]; intros H.
  - exists []. split; reflexivity.
  - simpl in H. apply andb_true_iff in H as [Hfp Hfps].
    destruct (IH Hfps) as (fps' & He & Hl).
    destruct fp as [[|] r s v|[|] r s i|l v]; try discriminate Hfp.
    + exists (MapFootprint false r s v :: fps'). simpl. rewrite He.
      split; [reflexivity | simpl; congruence].
    + exists (ArrayFootprint false r s i :: fps'). simpl. rewrite He.
      split; [reflexivity | simpl; congruence].
Qed.

Lemma expandFootprints_left_as_is h remain fps :
  forallb left_as_is_container fps = true ->
  exists fps', expandFootprints h fps remain = Ok fps' /\ length fps' = length fps.
Proof.
  intros H. unfold expandFootprints.
  destruct (length fps =? 0)%nat; [exists fps; split; reflexivity|].
  apply expand_each_left_as_is. exact H.
Qed.

Lemma map_const_replicate {A B} (l : list A) (b : B) :
  map (fun _ => b) l = replicate (length l) b.
Proof. induction l; simpl; congruence. Qed.

Lemma evalLiteral_expanded fps fps' v st :
  expandFootprints (st_heap st) fps false = Ok fps' ->
  is_map v = false -> is_slice v = false ->
  evalLiteral fps v st = (Ok (replicate (length fps') (NonRefFootprint false v)), st).
Proof.
  intros He Hm Hs. unfold evalLiteral, expandM, bind, get_heap, lift, ret.
  rewrite He. rewrite map_const_replicate.
  destruct v; try discriminate; reflexivity.
Qed.

(** C8 (amended). For every incoming sequence of footprints and every
    literal node (Int, Float or Bool), the evaluation of the node expands
    the incoming footprints first and returns one NonRefFootprint that holds
    the literal for each footprint of the expansion, the state untouched: the
    length of the result is the length of the expanded sequence. It is the
    length of the incoming sequence when every incoming footprint is a map
    or an array footprint marked leave-as-it-is, which expands to itself (the
    element evalFilter hands to the right side of a comparison, when the
    element is a container). *)
Theorem C8_literal_one_footprint_per_expanded_footprint
  (writeMode : bool) (fuel : nat) (node : Node) (v : value)
  (footprints : list Footprint) (st : state) :
  literal_value node = Some v ->
  (forall expanded,
      expandFootprints (st_heap st) footprints false = Ok expanded ->
      walk' writeMode fuel footprints node st
      = (Ok (replicate (length expanded) (NonRefFootprint false v)), st))
  /\ (forallb left_as_is_container footprints = true ->
      walk' writeMode fuel footprints node st
      = (Ok (replicate (length footprints) (NonRefFootprint false v)), st)).
Proof.
  intros Hlit.
  assert (Hw : walk' writeMode fuel footprints node st = evalLiteral footprints v st
               /\ is_map v = false /\ is_slice v = false).
  { destruct node; try discriminate Hlit; injection Hlit as <-;
      unfold walk; cbn [walk_node]; repeat split; reflexivity. }
  destruct Hw as (Hw & Hm & Hs). rewrite Hw.
  split.
  - intros expanded He. apply evalLiteral_expanded; assumption.
  - intros Hall.
    destruct (expandFootprints_left_as_is (st_heap st) false footprints Hall)
      as (fps' & He & Hl).
    rewrite <- Hl. apply evalLiteral_expanded; assumption.
Qed.

End Steps.

Lemma C4_write_mode_rejects_negative_or_unknown_index_witness :
  exists msg,
    evalArrayElement Examples.exact_cap true [NonRefFootprint false VNil]
      (mkParamsEntry (-1) true false) empty_state = (Err msg, empty_state)
    /\ Examples.walk true 0 [NonRefFootprint false VNil]
         (ArrayElementNode (mkParamsEntry (-1) true false)) empty_state
       = (Err msg, empty_state)
    /\ Examples.evalList true 0 [NonRefFootprint false VNil]
         (ArrayElementNode (mkParamsEntry (-1) true false) :: [FieldNode "a"]) empty_state
       = (Err msg, empty_state).
Proof.
  apply (C4_write_mode_rejects_negative_or_unknown_index Examples.exact_cap (Examples.compare_with Z.ltb) (Examples.compare_with Z.gtb)
         (Examples.compare_with Z.eqb) (Examples.compare_with (fun a b => negb (Z.eqb a b)))
         (Examples.compare_with Z.leb) (Examples.compare_with Z.geb)
         0 [NonRefFootprint false VNil]
           (mkParamsEntry (-1) true false) [FieldNode "a"] empty_state).
  left. simpl. lia.
Defined.

Lemma C6_field_on_non_object_is_dropped_silently_witness :
  evalField_one false "key" (ArrayFootprint false (VSlice 0 0) [] zero_info) empty_state
  = (Ok [], empty_state)
  /\ forall footprints l1 l2,
       expandFootprints (st_heap empty_state) footprints false
       = Ok (l1 ++ ArrayFootprint false (VSlice 0 0) [] zero_info :: l2) ->
       evalField false footprints "key" empty_state
       = concat_map_M (evalField_one false "key") (l1 ++ l2) empty_state.
Proof.
  apply (C6_field_on_non_object_is_dropped_silently false "key"
           (ArrayFootprint false (VSlice 0 0) [] zero_info) empty_state).
  reflexivity.
Defined.

Lemma C8_literal_one_footprint_per_expanded_footprint_witness :
  (forall expanded,
      expandFootprints (st_heap empty_state)
        [MapFootprint true (VMap 0) [] false] false = Ok expanded ->
      Examples.walk false 0 [MapFootprint true (VMap 0) [] false] (IntNode 42) empty_state
      = (Ok (replicate (length expanded) (NonRefFootprint false (VInt 42))), empty_state))
  /\ (forallb left_as_is_container [MapFootprint true (VMap 0) [] false] = true ->
      Examples.walk false 0 [MapFootprint true (VMap 0) [] false] (IntNode 42) empty_state
      = (Ok (replicate (length [MapFootprint true (VMap 0) [] false])
               (NonRefFootprint false (VInt 42))), empty_state)).
Proof.
  apply (C8_literal_one_footprint_per_expanded_footprint Examples.exact_cap (Examples.compare_with Z.ltb) (Examples.compare_with Z.gtb)
         (Examples.compare_with Z.eqb) (Examples.compare_with (fun a b => negb (Z.eqb a b)))
         (Examples.compare_with Z.leb) (Examples.compare_with Z.geb)
         false 0 (IntNode 42) (VInt 42)
           [MapFootprint true (VMap 0) [] false] empty_state).
  reflexivity.
Defined.

(** The failing input of C6: the holder of the footprint is an array, the
    field step drops the footprint, and the warnings are as empty after the
    step as before. *)
Lemma C6_counterexample_no_warning_for_non_object :
  let st := mkState (mkHeap [[]] []) [] in
  let fp := ArrayFootprint true (VSlice 0 0) [] zero_info in
  is_map (HolderPtr fp) = false
  /\ evalField false [fp] "key" st = (Ok [], st)
  /\ warnings (snd (evalField false [fp] "key" st)) = [].
Proof. repeat split; reflexivity. Qed.

(** The same through the facade: a field of a document that is an array
    yields no value, no error and no warning. *)
Example get_field_of_array_is_silent :
  Examples.get "$.key" (JArray [JNumber 0; JNumber 1]) = Ok ([], []).
Proof. vm_compute. reflexivity. Qed.

(** A field that an object does not have: no value, and the warning. *)
Example get_missing_field_warns :
  Examples.get "$.key" (JObject [("other", JNumber 1)])
  = Ok ([], ["cannot find the field: key"]).
Proof. vm_compute. reflexivity. Qed.

(** C8 as the specification states it fails here: one incoming footprint that selects two
    elements of an array yields two literal footprints. *)
Lemma C8_counterexample_length_follows_expansion :
  let st := mkState (mkHeap [[VNil; VNil]] []) [] in
  let fps := [ArrayFootprint false (VSlice 0 2)
                [mkSelectionIndex 0 no_info; mkSelectionIndex 1 no_info] zero_info] in
  evalInt fps 7 st = (Ok [NonRefFootprint false (VInt 7); NonRefFootprint false (VInt 7)], st)
  /\ length [NonRefFootprint false (VInt 7); NonRefFootprint false (VInt 7)] <> length fps.
Proof. split; [reflexivity | simpl; lia]. Qed.

(** The same through the facade: the literal after a wildcard comes once for
    every element the wildcard selects. *)
Example get_literal_after_wildcard :
  Examples.get "$.* 5" (JObject [("a", JNumber 1); ("b", JNumber 2)])
  = Ok ([Some (JInt 5); Some (JInt 5)], []).
Proof. vm_compute. reflexivity. Qed.

(** An index that is negative or unknown ends a Set with an error; the
    document is as it was. *)
Example set_negative_index_fails :
  Examples.set "$[-1]" (JArray [JNumber 0]) (VBool false)
  = Err "cannot use a negative index in set mode"
  /\ Examples.set "$[]" (JArray [JNumber 0]) (VBool false) = Err "index unknown in set mode".
Proof. split; vm_compute; reflexivity. Qed.

(* ===================================================================== *)
(** * The sides of a comparison in a filter (C3) *)
(* ===================================================================== *)

Section FilterSides.

Variables tLess tGreater tEqual tNotEqual tLessEqual tGreaterEqual
  : value -> value -> bool * option string.

Local Abbreviation filter_element' :=
  (filter_element tLess tGreater tEqual tNotEqual tLessEqual tGreaterEqual).
Local Abbreviation filter_elements' :=
  (filter_elements tLess tGreater tEqual tNotEqual tLessEqual tGreaterEqual).
Local Abbreviation evalFilter_with' :=
  (evalFilter_with tLess tGreater tEqual tNotEqual tLessEqual tGreaterEqual).

Variables evalLeft evalRight : list Footprint -> M (list Footprint).

(** An element that the body of the loop skips: the loop goes on with
    the next element, from the state the body left. *)
Lemma filter_elements_skip operator element more st s' :
  filter_element' evalLeft evalRight operator (LeaveItAsItIs element) st = (Ok Skip, s') ->
  filter_elements' evalLeft evalRight operator (element :: more) st
  = filter_elements' evalLeft evalRight operator more s'.
Proof.
  intros H. cbn [filter_elements]. rewrite (bind_Ok _ _ _ _ _ H). apply bind_eta.
Qed.

(** An element on which the body of the loop fails: the loop returns the
    error at once. *)
Lemma filter_elements_fail operator element more st msg s' :
  filter_element' evalLeft evalRight operator (LeaveItAsItIs element) st = (Err msg, s') ->
  filter_elements' evalLeft evalRight operator (element :: more) st = (Err msg, s').
Proof. intros H. cbn [filter_elements]. apply bind_Err. exact H. Qed.

Lemma expandM_run fps remain st r :
  expandFootprints (st_heap st) fps remain = Ok r -> expandM fps remain st = (Ok r, st).
Proof. intros H. unfold expandM, bind, get_heap, lift. rewrite H. reflexivity. Qed.

(** The inner loop of evalFilter with a comparison operator, for any two
    evaluators of the sides: the left side is evaluated and expanded first;
    none, the loop goes on; more than one, the loop returns an error. When it
    yields one, the right side is evaluated and expanded, with the same two
    rules. *)
Lemma filter_elements_side_must_yield_one
  (operator : string) (element : Footprint) (more : list Footprint)
  (st s1 : state) (lefts : list Footprint) :
  String.eqb operator "exists" = false ->
  evalLeft [LeaveItAsItIs element] st = (Ok lefts, s1) ->
  (expandFootprints (st_heap s1) lefts true = Ok [] ->
   filter_elements' evalLeft evalRight operator (element :: more) st
   = filter_elements' evalLeft evalRight operator more s1)
  /\ (forall l1 l2 ls,
         expandFootprints (st_heap s1) lefts true = Ok (l1 :: l2 :: ls) ->
         filter_elements' evalLeft evalRight operator (element :: more) st
         = (Err "can only compare one element at a time", s1))
  /\ (forall l rights s2,
         expandFootprints (st_heap s1) lefts true = Ok [l] ->
         evalRight [LeaveItAsItIs element] s1 = (Ok rights, s2) ->
         (expandFootprints (st_heap s2) rights true = Ok [] ->
          filter_elements' evalLeft evalRight operator (element :: more) st
          = filter_elements' evalLeft evalRight operator more s2)
         /\ (forall r1 r2 rs,
                expandFootprints (st_heap s2) rights true = Ok (r1 :: r2 :: rs) ->
                filter_elements' evalLeft evalRight operator (element :: more) st
                = (Err "can only compare one element at a time", s2))).
Proof.
  intros Hop Hleft.
  assert (Hbody :
    filter_element' evalLeft evalRight operator (LeaveItAsItIs element) st
    = bind (expandM lefts true)
        (fun lefts =>
           match lefts with
           | [] => ret Skip
           | [l] =>
               bind (evalRight [LeaveItAsItIs element])
                 (fun rights =>
                    bind (expandM rights true)
                      (fun rights =>
                         match rights with
                         | [] => ret Skip
                         | [r] =>
                             let '(pass, err) :=
                               genericCompare tLess tGreater tEqual tNotEqual tLessEqual
                                 tGreaterEqual operator (HolderPtr l) (HolderPtr r) in
                             bind (match err with
                                   | Some e => AddWarning e
                                   | None => ret tt
                                   end)
                               (fun _ => ret (if pass then Select else Skip))
                         | _ :: _ :: _ => throw "can only compare one element at a time"
                         end))
           | _ :: _ :: _ => throw "can only compare one element at a time"
           end) s1).
  { unfold filter_element. unfold bind at 1. unfold try. rewrite Hleft. rewrite Hop.
    reflexivity. }
  split; [|split].
  - intros He. apply filter_elements_skip. rewrite Hbody.
    rewrite (bind_Ok _ _ _ _ _ (expandM_run _ _ _ _ He)). reflexivity.
  - intros l1 l2 ls He. apply filter_elements_fail. rewrite Hbody.
    rewrite (bind_Ok _ _ _ _ _ (expandM_run _ _ _ _ He)). reflexivity.
  - intros l rights s2 He Hright. split.
    + intros Her. apply filter_elements_skip. rewrite Hbody.
      rewrite (bind_Ok _ _ _ _ _ (expandM_run _ _ _ _ He)).
      rewrite (bind_Ok _ _ _ _ _ Hright).
      rewrite (bind_Ok _ _ _ _ _ (expandM_run _ _ _ _ Her)). reflexivity.
    + intros r1 r2 rs Her. apply filter_elements_fail. rewrite Hbody.
      rewrite (bind_Ok _ _ _ _ _ (expandM_run _ _ _ _ He)).
      rewrite (bind_Ok _ _ _ _ _ Hright).
      rewrite (bind_Ok _ _ _ _ _ (expandM_run _ _ _ _ Her)). reflexivity.
Qed.

(** The error of the loop over the elements is the error of evalFilter:
    here for the first footprint of the expansion. *)
Lemma evalFilter_with_fails_with_elements operator fps fp rest allSelected elements st msg s' :
  expandFootprints (st_heap st) fps false = Ok (fp :: rest) ->
  SelectAll (st_heap st) fp = Ok allSelected ->
  Expand (st_heap st) allSelected = Ok elements ->
  filter_elements' evalLeft evalRight operator elements st = (Err msg, s') ->
  evalFilter_with' evalLeft evalRight operator fps st = (Err msg, s').
Proof.
  intros He Hs Hx Hf. unfold evalFilter_with.
  rewrite (bind_Ok _ _ _ _ _ (expandM_run _ _ _ _ He)).
  cbn [concat_map_M]. apply bind_Err.
  unfold bind at 1. unfold get_heap. rewrite Hs.
  unfold bind at 1. rewrite Hx. unfold ret at 1. exact Hf.
Qed.

End FilterSides.

(** The left side [@.missing] of a comparison yields nothing on an object
    without that field: the element is skipped, and the loop goes on (here
    to its end) from the state the left side left, a warning added. *)
(** Two sides that each yield one footprint: the filter selects the element
    whose field equals the literal. *)
Example get_filter_by_field :
  Examples.get "$[?(@.id==42)].name"
    (JArray [JObject [("id", JNumber 42); ("name", JString "forty-two")];
             JObject [("id", JNumber 1); ("name", JString "one")]])
  = Ok ([Some (JString "forty-two")], []).
Proof. vm_compute. reflexivity. Qed.

(** A left side that yields two footprints: the Get fails. *)
Example get_filter_with_two_on_the_left_fails :
  Examples.get "$[?(@.*==42)]" (JArray [JObject [("a", JNumber 1); ("b", JNumber 2)]])
  = Err "can only compare one element at a time".
Proof. vm_compute. reflexivity. Qed.

(** A left side that yields nothing: the right side is not looked at, even
    when it would yield two footprints. *)
Example get_filter_with_none_on_the_left_skips :
  Examples.get "$[?(@.missing==@.*)]" (JArray [JObject [("a", JNumber 1); ("b", JNumber 2)]])
  = Ok ([], ["cannot find the field: missing"]).
Proof. vm_compute. reflexivity. Qed.

(* ===================================================================== *)
(** * The size asked of EnforceArraySelection (C5) *)
(* ===================================================================== *)

Section EnforceSize.

Variable growslice : nat -> nat -> nat.

(** The size evalArray computes is [slice_enforce_size]. *)
Lemma array_tail_is_slice_enforce_size (x y z : ParamsEntry) :
  in_int64 (Value x) = true -> (Value x < MaxInt64)%Z ->
  exists x',
    normalise_start [x; y; z] = Ok [x'; y; z]
    /\ Known x' = Known x
    /\ (Known x = true -> x' = x)
    /\ array_tail [x'; y; z] = Ok (slice_enforce_size x y z).
Proof.
  intros Hx Hmax. apply in_int64_bounds in Hx.
  change MaxInt64 with 9223372036854775807%Z in Hmax.
  unfold normalise_start, array_tail, slice_enforce_size.
  destruct (Known x) eqn:Hk.
  - exists x. repeat split; try assumption.
    destruct (Value x =? 0)%Z, (Value y =? 0)%Z, (Value z =? 0)%Z, (Known y);
      cbn [andb negb]; try reflexivity; rewrite wrap64_small by lia; reflexivity.
  - exists (mkParamsEntry 0 false (Derived x)). repeat split; try discriminate.
    cbn [Value].
    destruct (Value y =? 0)%Z, (Value z =? 0)%Z, (Known y); reflexivity.
Qed.

(** Growth: appending nils to a slice of [n] elements gives a slice whose
    first [n] elements are the old ones and whose others are nil, in place
    or over a fresh backing array. *)
Lemma append_nils_elems (h : heap) (a n k : nat) (backing : list value) :
  arrays h !! a = Some backing -> (n <= length backing)%nat ->
  exists a' h',
    Store.append_nils growslice h a n k = Some (h', VSlice a' (n + k))
    /\ maps h' = maps h
    /\ Store.slice_elems h' a' (n + k) = Some (take n backing ++ replicate k VNil).
Proof.
  intros Ha Hn. unfold Store.append_nils. rewrite Ha.
  destruct (Nat.ltb_spec (length backing) n) as [Hlt|_]; [lia|].
  destruct (Nat.leb_spec (n + k) (length backing)) as [Hfit|Hmove].
  - exists a. eexists. split; [reflexivity|]. split; [reflexivity|].
    unfold Store.slice_elems. cbn [arrays].
    rewrite list_lookup_insert_eq by (apply lookup_lt_Some in Ha; exact Ha).
    assert (Hlen : length (take n backing ++ replicate k VNil ++ drop (n + k) backing)
                   = length backing).
    { rewrite !length_app, length_take, length_replicate, length_drop. lia. }
    rewrite Hlen. destruct (Nat.leb_spec (n + k) (length backing)) as [_|Hbad]; [|lia].
    f_equal. rewrite app_assoc. rewrite take_app_length'; [reflexivity|].
    rewrite length_app, length_take, length_replicate. lia.
  - exists (length (arrays h)). eexists. split; [reflexivity|]. split; [reflexivity|].
    unfold Store.slice_elems. cbn [arrays].
    rewrite lookup_app_r by lia. rewrite Nat.sub_diag. cbn [lookup list_lookup].
    set (newcap := Nat.max (n + k) (growslice (length backing) (n + k))).
    assert (Hcap : (n + k <= newcap)%nat) by (subst newcap; lia).
    rewrite length_app, length_take, length_replicate.
    destruct (Nat.leb_spec (n + k) (n `min` length backing + (newcap - n))) as [_|Hbad]; [|lia].
    f_equal. rewrite take_app_ge by (rewrite length_take; lia).
    rewrite length_take. rewrite take_replicate.
    f_equal. f_equal. lia.
Qed.

(** What EnforceArraySelection does to a selected child that is an array
    shorter than the size asked. *)
Lemma enforce_array_child_grows (size : Z) (info : VirtualInfo) (a n : nat)
  (backing : list value) (h : heap) (w : list string) :
  arrays h !! a = Some backing -> (n <= length backing)%nat ->
  (Z.of_nat n < size)%Z ->
  exists a' h',
    enforce_array_child growslice size info (VSlice a n) (mkState h w)
    = (Ok (Some (VSlice a' (Z.to_nat size)), mkVirtualInfo (Virtual info) (Z.of_nat n)),
       mkState h' w)
    /\ maps h' = maps h
    /\ Store.slice_elems h' a' (Z.to_nat size)
       = Some (take n backing ++ replicate (Z.to_nat size - n) VNil).
Proof.
  intros Ha Hn Hsize.
  destruct (append_nils_elems h a n (Z.to_nat (size - Z.of_nat n)) backing Ha Hn)
    as (a' & h' & Happ & Hmaps & Helems).
  replace (n + Z.to_nat (size - Z.of_nat n))%nat with (Z.to_nat size) in * by lia.
  replace (Z.to_nat (size - Z.of_nat n)) with (Z.to_nat size - n)%nat in * by lia.
  exists a', h'. split; [|split; assumption].
  unfold enforce_array_child.
  destruct (Z.eqb_spec size (-1)) as [Hm|_]; [lia|].
  destruct (Z.ltb_spec (Z.of_nat n) size) as [_|Hbad]; [|lia].
  cbn [negb andb]. unfold bind, get_heap, must, put_heap, ret. cbn [st_heap warnings].
  replace (Z.to_nat (size - Z.of_nat n)) with (Z.to_nat size - n)%nat by lia.
  rewrite Happ. reflexivity.
Qed.

(** A child that is an array long enough, or any array when the size is -1,
    is left alone. *)
Lemma enforce_array_child_long_enough (size : Z) (info : VirtualInfo) (a n : nat) (st : state) :
  (size = -1 \/ size <= Z.of_nat n)%Z ->
  enforce_array_child growslice size info (VSlice a n) st
  = (Ok (None, mkVirtualInfo (Virtual info) (Z.of_nat n)), st).
Proof.
  intros H. unfold enforce_array_child.
  destruct (Z.eqb_spec size (-1)) as [Hm|Hm]; [reflexivity|].
  destruct (Z.ltb_spec (Z.of_nat n) size) as [Hlt|_]; [lia|]. reflexivity.
Qed.

(** Growth leaves the other arrays alone. *)
Lemma append_nils_frame (h : heap) (a n k : nat) (backing : list value) :
  arrays h !! a = Some backing -> (n <= length backing)%nat ->
  exists a' h' b',
    Store.append_nils growslice h a n k = Some (h', VSlice a' (n + k))
    /\ maps h' = maps h
    /\ arrays h' !! a' = Some b'
    /\ (n + k <= length b')%nat
    /\ take (n + k) b' = take n backing ++ replicate k VNil
    /\ (a' = a \/ a' = length (arrays h))
    /\ (forall a0, a0 <> a' -> (a0 < length (arrays h))%nat ->
                   arrays h' !! a0 = arrays h !! a0).
Proof.
  intros Ha Hn.
  destruct (append_nils_elems h a n k backing Ha Hn)
    as (a' & h' & Happ & Hmaps & Helems).
  unfold Store.slice_elems in Helems.
  destruct (arrays h' !! a') as [b'|] eqn:Hb'; [|discriminate Helems].
  destruct (Nat.leb_spec (n + k) (length b')) as [Hlen|]; [|discriminate Helems].
  injection Helems as Helems.
  exists a', h', b'. repeat split; try assumption.
  - unfold Store.append_nils in Happ. rewrite Ha in Happ.
    destruct (length backing <? n)%nat; [discriminate Happ|].
    destruct (n + k <=? length backing)%nat; injection Happ as _ <-; auto.
  - intros a0 Hne Hlt. unfold Store.append_nils in Happ. rewrite Ha in Happ.
    destruct (length backing <? n)%nat; [discriminate Happ|].
    destruct (n + k <=? length backing)%nat; injection Happ as <- <-; cbn [arrays].
    + apply list_lookup_insert_ne. congruence.
    + apply lookup_app_l. exact Hlt.
Qed.

(** The loop of MapFootprint.EnforceArraySelection, gone through without
    error up to one of the keys. *)
Lemma enforce_array_keys_from (size : Z) (m : nat) (before : list SelectionKey)
      (sk : SelectionKey) (after : list SelectionKey) (st s0 : state)
      (before' : list SelectionKey) :
  enforce_array_keys growslice size m before st = (Ok before', s0) ->
  enforce_array_keys growslice size m (before ++ sk :: after) st
  = bind (enforce_array_keys growslice size m (sk :: after))
      (fun rest => ret (before' ++ rest)) s0.
Proof.
  revert st before'. set (c := enforce_array_keys growslice size m (sk :: after)).
  induction before as [|b before IH]; intros st before' H.
  - cbn [enforce_array_keys] in H. unfold ret in H. injection H as <- <-.
    symmetry. apply bind_eta.
  - cbn [app]. cbn [enforce_array_keys] in H. cbn [enforce_array_keys].
    unfold bind at 1 in H. unfold bind at 1. unfold get_heap at 1 in H. unfold get_heap at 1.
    unfold bind at 1 in H. unfold bind at 1.
    destruct (must (Store.map_of (st_heap st) m) st) as [[mp| | |] sa]; try discriminate H.
    destruct (mp !! Key b) as [child|]; [|discriminate H].
    unfold bind at 1 in H. unfold bind at 1.
    destruct (enforce_array_child growslice size (sk_info b) child sa) as [[r| | |] sb];
      try discriminate H.
    unfold bind at 1 in H. unfold bind at 1.
    destruct (match fst r with
              | Some c => map_store m (Key b) c
              | None => ret tt
              end sb) as [[[]| | |] sc]; try discriminate H.
    unfold bind at 1 in H. unfold bind at 1.
    destruct (enforce_array_keys growslice size m before sc) as [[r1| | |] sd] eqn:Hrest;
      try discriminate H.
    unfold ret at 1 in H. injection H as <- <-.
    rewrite (IH sc r1 Hrest).
    clearbody c. unfold bind, ret. destruct (c sd) as [[rest| | |] se]; reflexivity.
Qed.

(** The loop of ArrayFootprint.EnforceArraySelection, gone through without
    error up to one of the indexes. *)
Lemma enforce_array_indexes_from (size : Z) (a len : nat) (before : list SelectionIndex)
      (si : SelectionIndex) (after : list SelectionIndex) (st s0 : state)
      (before' : list SelectionIndex) :
  enforce_array_indexes growslice size a len before st = (Ok before', s0) ->
  enforce_array_indexes growslice size a len (before ++ si :: after) st
  = bind (enforce_array_indexes growslice size a len (si :: after))
      (fun rest => ret (before' ++ rest)) s0.
Proof.
  revert st before'. set (c := enforce_array_indexes growslice size a len (si :: after)).
  induction before as [|b before IH]; intros st before' H.
  - cbn [enforce_array_indexes] in H. unfold ret in H. injection H as <- <-.
    symmetry. apply bind_eta.
  - cbn [app]. cbn [enforce_array_indexes] in H. cbn [enforce_array_indexes].
    destruct ((Index b <? 0) || (Z.of_nat len <? Index b))%Z; [discriminate H|].
    unfold bind at 1 in H. unfold bind at 1. unfold get_heap at 1 in H. unfold get_heap at 1.
    unfold bind at 1 in H. unfold bind at 1.
    destruct (must (Store.slice_get (st_heap st) a len (Index b)) st) as [[child| | |] sa];
      try discriminate H.
    unfold bind at 1 in H. unfold bind at 1.
    destruct (enforce_array_child growslice size (si_info b) child sa) as [[r| | |] sb];
      try discriminate H.
    unfold bind at 1 in H. unfold bind at 1.
    destruct (match fst r with
              | Some c => slice_store a len (Index b) c
              | None => ret tt
              end sb) as [[[]| | |] sc]; try discriminate H.
    unfold bind at 1 in H. unfold bind at 1.
    destruct (enforce_array_indexes growslice size a len before sc) as [[r1| | |] sd] eqn:Hrest;
      try discriminate H.
    unfold ret at 1 in H. injection H as <- <-.
    rewrite (IH sc r1 Hrest).
    clearbody c. unfold bind, ret. destruct (c sd) as [[rest| | |] se]; reflexivity.
Qed.

(** What EnforceArraySelection returns, read as what its loop returns. *)
Lemma EnforceArraySelection_map_run size leave m sks virt st sks' s' :
  EnforceArraySelection growslice size (MapFootprint leave (VMap m) sks virt) st
  = (Ok (MapFootprint leave (VMap m) sks' virt), s')
  <-> enforce_array_keys growslice size m sks st = (Ok sks', s').
Proof.
  cbn [EnforceArraySelection]. unfold bind, ret.
  destruct (enforce_array_keys growslice size m sks st) as [[r| | |] s1];
    split; intros H; try discriminate H.
  - injection H as <- <-. reflexivity.
  - injection H as <- <-. reflexivity.
Qed.

Lemma EnforceArraySelection_array_run size leave a len sis info st sis' s' :
  EnforceArraySelection growslice size (ArrayFootprint leave (VSlice a len) sis info) st
  = (Ok (ArrayFootprint leave (VSlice a len) sis' info), s')
  <-> enforce_array_indexes growslice size a len sis st = (Ok sis', s').
Proof.
  cbn [EnforceArraySelection]. unfold bind, ret.
  destruct (enforce_array_indexes growslice size a len sis st) as [[r| | |] s1];
    split; intros H; try discriminate H.
  - injection H as <- <-. reflexivity.
  - injection H as <- <-. reflexivity.
Qed.

(** One selected key whose child the body of the loop has dealt with:
    [stored] is what it stores back, [info] what it records. *)
Lemma enforce_array_keys_step size m (mp : gmap string value) sk after child stored info
      h h1 w rest s' :
  maps h !! m = Some mp -> mp !! Key sk = Some child ->
  enforce_array_child growslice size (sk_info sk) child (mkState h w)
  = (Ok (stored, info), mkState h1 w) ->
  maps h1 = maps h ->
  enforce_array_keys growslice size m after
    (mkState (match stored with
              | Some c => mkHeap (arrays h1) (<[m := <[Key sk := c]> mp]> (maps h1))
              | None => h1
              end) w)
  = (Ok rest, s') ->
  enforce_array_keys growslice size m (sk :: after) (mkState h w)
  = (Ok (mkSelectionKey (Key sk) info :: rest), s').
Proof.
  intros Hm Hkey Hchild Hmaps Hrest.
  cbn [enforce_array_keys].
  unfold bind at 1. unfold get_heap at 1. cbn [st_heap].
  unfold bind at 1. unfold Store.map_of. rewrite Hm. unfold must at 1. unfold ret at 1.
  rewrite Hkey. unfold bind at 1. rewrite Hchild. cbn [fst snd].
  unfold bind at 1.
  destruct stored as [c|].
  - unfold map_store. unfold bind at 1. unfold get_heap at 1. cbn [st_heap].
    unfold bind at 1. unfold Store.map_store. rewrite Hmaps, Hm.
    unfold must at 1. unfold ret at 1. unfold put_heap at 1. cbn [warnings].
    unfold bind at 1. rewrite Hmaps in Hrest. rewrite Hrest. reflexivity.
  - unfold ret at 1. unfold bind at 1. rewrite Hrest. reflexivity.
Qed.

(** The same for one selected index. *)
Lemma enforce_array_indexes_step size pa plen (pb : list value) si after child stored info
      h h1 w rest s' :
  (0 <= Index si < Z.of_nat plen)%Z ->
  arrays h !! pa = Some pb -> pb !! Z.to_nat (Index si) = Some child ->
  enforce_array_child growslice size (si_info si) child (mkState h w)
  = (Ok (stored, info), mkState h1 w) ->
  arrays h1 !! pa = Some pb ->
  enforce_array_indexes growslice size pa plen after
    (mkState (match stored with
              | Some c =>
                  mkHeap (<[pa := <[Z.to_nat (Index si) := c]> pb]> (arrays h1)) (maps h1)
              | None => h1
              end) w)
  = (Ok rest, s') ->
  enforce_array_indexes growslice size pa plen (si :: after) (mkState h w)
  = (Ok (mkSelectionIndex (Index si) info :: rest), s').
Proof.
  intros Hi Hpa Hchild Hrun Hpa1 Hrest.
  assert (Hin : ((0 <=? Index si) && (Index si <? Z.of_nat plen))%Z = true).
  { apply andb_true_intro. split; [apply Z.leb_le | apply Z.ltb_lt]; lia. }
  cbn [enforce_array_indexes].
  destruct (Z.ltb_spec (Index si) 0) as [Hneg|_]; [lia|].
  destruct (Z.ltb_spec (Z.of_nat plen) (Index si)) as [Hbig|_]; [lia|].
  cbn [orb].
  unfold bind at 1. unfold get_heap at 1. cbn [st_heap].
  unfold bind at 1. unfold Store.slice_get. rewrite Hin, Hpa, Hchild.
  unfold must at 1. unfold ret at 1.
  unfold bind at 1. rewrite Hrun. cbn [fst snd].
  unfold bind at 1.
  destruct stored as [c|].
  - unfold slice_store. unfold bind at 1. unfold get_heap at 1. cbn [st_heap].
    unfold bind at 1. unfold Store.slice_store. rewrite Hin, Hpa1.
    destruct (Nat.ltb_spec (Z.to_nat (Index si)) (length pb)) as [_|Hbad];
      [|apply lookup_lt_Some in Hchild; lia].
    unfold must at 1. unfold ret at 1. unfold put_heap at 1. cbn [warnings].
    unfold bind at 1. rewrite Hrest. reflexivity.
  - unfold ret at 1. unfold bind at 1. rewrite Hrest. reflexivity.
Qed.

(** MapFootprint.EnforceArraySelection at a selected key, at any place in
    the selection, whose child is an array shorter than the size asked. *)
Lemma EnforceArraySelection_map_grows (leave : bool) (m : nat) (virt : bool) (size : Z)
      (before : list SelectionKey) (sk : SelectionKey) (after before' : list SelectionKey)
      (st s0 : state) (mp : gmap string value) (a n : nat) (backing : list value) :
  EnforceArraySelection growslice size (MapFootprint leave (VMap m) before virt) st
  = (Ok (MapFootprint leave (VMap m) before' virt), s0) ->
  maps (st_heap s0) !! m = Some mp -> mp !! Key sk = Some (VSlice a n) ->
  arrays (st_heap s0) !! a = Some backing -> (n <= length backing)%nat ->
  (Z.of_nat n < size)%Z ->
  exists a' h',
    maps h' !! m = Some (<[Key sk := VSlice a' (Z.to_nat size)]> mp)
    /\ Store.slice_elems h' a' (Z.to_nat size)
       = Some (take n backing ++ replicate (Z.to_nat size - n) VNil)
    /\ forall after' s',
        EnforceArraySelection growslice size (MapFootprint leave (VMap m) after virt)
          (mkState h' (warnings s0))
        = (Ok (MapFootprint leave (VMap m) after' virt), s') ->
        EnforceArraySelection growslice size
          (MapFootprint leave (VMap m) (before ++ sk :: after) virt) st
        = (Ok (MapFootprint leave (VMap m)
                 (before' ++ mkSelectionKey (Key sk)
                               (mkVirtualInfo (Virtual (sk_info sk)) (Z.of_nat n))
                          :: after') virt), s').
Proof.
  intros Hbefore Hm Hkey Ha Hn Hsize.
  apply EnforceArraySelection_map_run in Hbefore.
  destruct s0 as [h w]. cbn [st_heap warnings] in *.
  destruct (enforce_array_child_grows size (sk_info sk) a n backing h w Ha Hn Hsize)
    as (a' & h1 & Hchild & Hmaps & Helems).
  exists a', (mkHeap (arrays h1)
                (<[m := <[Key sk := VSlice a' (Z.to_nat size)]> mp]> (maps h1))).
  split; [|split].
  - cbn [maps]. apply list_lookup_insert_eq. rewrite Hmaps.
    eapply lookup_lt_Some. exact Hm.
  - exact Helems.
  - intros after' s' Hafter. apply EnforceArraySelection_map_run in Hafter.
    apply EnforceArraySelection_map_run.
    rewrite (enforce_array_keys_from _ _ _ _ _ _ _ _ Hbefore).
    rewrite (bind_Ok _ _ _ _ _
               (enforce_array_keys_step size m mp sk after (VSlice a n)
                  (Some (VSlice a' (Z.to_nat size))) _ h h1 w after' s'
                  Hm Hkey Hchild Hmaps Hafter)).
    reflexivity.
Qed.

(** The same at a selected key whose child is an array that is long enough,
    or any array when the size is -1: nothing is stored. *)
Lemma EnforceArraySelection_map_keeps (leave : bool) (m : nat) (virt : bool) (size : Z)
      (before : list SelectionKey) (sk : SelectionKey) (after before' : list SelectionKey)
      (st s0 : state) (mp : gmap string value) (a n : nat) :
  EnforceArraySelection growslice size (MapFootprint leave (VMap m) before virt) st
  = (Ok (MapFootprint leave (VMap m) before' virt), s0) ->
  maps (st_heap s0) !! m = Some mp -> mp !! Key sk = Some (VSlice a n) ->
  (size = -1 \/ size <= Z.of_nat n)%Z ->
  forall after' s',
    EnforceArraySelection growslice size (MapFootprint leave (VMap m) after virt) s0
    = (Ok (MapFootprint leave (VMap m) after' virt), s') ->
    EnforceArraySelection growslice size
      (MapFootprint leave (VMap m) (before ++ sk :: after) virt) st
    = (Ok (MapFootprint leave (VMap m)
             (before' ++ mkSelectionKey (Key sk)
                           (mkVirtualInfo (Virtual (sk_info sk)) (Z.of_nat n))
                      :: after') virt), s').
Proof.
  intros Hbefore Hm Hkey Hsize after' s' Hafter.
  apply EnforceArraySelection_map_run in Hbefore.
  apply EnforceArraySelection_map_run in Hafter.
  apply EnforceArraySelection_map_run.
  destruct s0 as [h w]. cbn [st_heap warnings] in *.
  rewrite (enforce_array_keys_from _ _ _ _ _ _ _ _ Hbefore).
  rewrite (bind_Ok _ _ _ _ _
             (enforce_array_keys_step size m mp sk after (VSlice a n) None _ h h w after' s'
                Hm Hkey
                (enforce_array_child_long_enough size (sk_info sk) a n (mkState h w) Hsize)
                eq_refl Hafter)).
  reflexivity.
Qed.

(** ArrayFootprint.EnforceArraySelection at a selected index, at any place
    in the selection, whose child is an array shorter than the size asked
    (an array that is not stored in its own parent). *)
Lemma EnforceArraySelection_array_grows (leave : bool) (pa plen : nat) (info : VirtualInfo)
      (size : Z) (before : list SelectionIndex) (si : SelectionIndex)
      (after before' : list SelectionIndex) (st s0 : state) (pb : list value)
      (a n : nat) (backing : list value) :
  EnforceArraySelection growslice size (ArrayFootprint leave (VSlice pa plen) before info) st
  = (Ok (ArrayFootprint leave (VSlice pa plen) before' info), s0) ->
  (0 <= Index si < Z.of_nat plen)%Z ->
  arrays (st_heap s0) !! pa = Some pb ->
  pb !! Z.to_nat (Index si) = Some (VSlice a n) ->
  a <> pa ->
  arrays (st_heap s0) !! a = Some backing -> (n <= length backing)%nat ->
  (Z.of_nat n < size)%Z ->
  exists a' h',
    arrays h' !! pa = Some (<[Z.to_nat (Index si) := VSlice a' (Z.to_nat size)]> pb)
    /\ Store.slice_elems h' a' (Z.to_nat size)
       = Some (take n backing ++ replicate (Z.to_nat size - n) VNil)
    /\ forall after' s',
        EnforceArraySelection growslice size
          (ArrayFootprint leave (VSlice pa plen) after info) (mkState h' (warnings s0))
        = (Ok (ArrayFootprint leave (VSlice pa plen) after' info), s') ->
        EnforceArraySelection growslice size
          (ArrayFootprint leave (VSlice pa plen) (before ++ si :: after) info) st
        = (Ok (ArrayFootprint leave (VSlice pa plen)
                 (before' ++ mkSelectionIndex (Index si)
                               (mkVirtualInfo (Virtual (si_info si)) (Z.of_nat n))
                          :: after') info), s').
Proof.
  intros Hbefore Hi Hpa Hchild Hne Ha Hn Hsize.
  apply EnforceArraySelection_array_run in Hbefore.
  destruct s0 as [h w]. cbn [st_heap warnings] in *.
  destruct (append_nils_frame h a n (Z.to_nat (size - Z.of_nat n)) backing Ha Hn)
    as (a' & h1 & b' & Happ & Hmaps & Hb' & Hlen' & Htake & Hwhere & Hframe).
  replace (n + Z.to_nat (size - Z.of_nat n))%nat with (Z.to_nat size) in * by lia.
  replace (Z.to_nat (size - Z.of_nat n)) with (Z.to_nat size - n)%nat in * by lia.
  assert (Hpalt : (pa < length (arrays h))%nat) by (eapply lookup_lt_Some; exact Hpa).
  assert (Hne' : pa <> a').
  { destruct Hwhere as [->| ->]; [congruence | lia]. }
  assert (Hpa1 : arrays h1 !! pa = Some pb).
  { rewrite (Hframe pa Hne' Hpalt). exact Hpa. }
  assert (Hrun : enforce_array_child growslice size (si_info si) (VSlice a n) (mkState h w)
                 = (Ok (Some (VSlice a' (Z.to_nat size)),
                        mkVirtualInfo (Virtual (si_info si)) (Z.of_nat n)), mkState h1 w)).
  { unfold enforce_array_child.
    destruct (Z.eqb_spec size (-1)) as [Hm|_]; [lia|].
    destruct (Z.ltb_spec (Z.of_nat n) size) as [_|Hbad]; [|lia].
    cbn [negb andb]. unfold bind, get_heap, must, put_heap, ret. cbn [st_heap warnings].
    replace (Z.to_nat (size - Z.of_nat n)) with (Z.to_nat size - n)%nat by lia.
    rewrite Happ. reflexivity. }
  exists a', (mkHeap (<[pa := <[Z.to_nat (Index si) := VSlice a' (Z.to_nat size)]> pb]>
                        (arrays h1)) (maps h1)).
  split; [|split].
  - cbn [arrays]. apply list_lookup_insert_eq. eapply lookup_lt_Some. exact Hpa1.
  - unfold Store.slice_elems. cbn [arrays].
    rewrite list_lookup_insert_ne by exact Hne'. rewrite Hb'.
    destruct (Nat.leb_spec (Z.to_nat size) (length b')) as [_|Hbad]; [|lia].
    rewrite Htake. reflexivity.
  - intros after' s' Hafter. apply EnforceArraySelection_array_run in Hafter.
    apply EnforceArraySelection_array_run.
    rewrite (enforce_array_indexes_from _ _ _ _ _ _ _ _ _ Hbefore).
    rewrite (bind_Ok _ _ _ _ _
               (enforce_array_indexes_step size pa plen pb si after (VSlice a n)
                  (Some (VSlice a' (Z.to_nat size))) _ h h1 w after' s'
                  Hi Hpa Hchild Hrun Hpa1 Hafter)).
    reflexivity.
Qed.

(** The same at a selected index whose child is an array that is long
    enough, or any array when the size is -1: nothing is stored. *)
Lemma EnforceArraySelection_array_keeps (leave : bool) (pa plen : nat) (info : VirtualInfo)
      (size : Z) (before : list SelectionIndex) (si : SelectionIndex)
      (after before' : list SelectionIndex) (st s0 : state) (pb : list value) (a n : nat) :
  EnforceArraySelection growslice size (ArrayFootprint leave (VSlice pa plen) before info) st
  = (Ok (ArrayFootprint leave (VSlice pa plen) before' info), s0) ->
  (0 <= Index si < Z.of_nat plen)%Z ->
  arrays (st_heap s0) !! pa = Some pb ->
  pb !! Z.to_nat (Index si) = Some (VSlice a n) ->
  (size = -1 \/ size <= Z.of_nat n)%Z ->
  forall after' s',
    EnforceArraySelection growslice size
      (ArrayFootprint leave (VSlice pa plen) after info) s0
    = (Ok (ArrayFootprint leave (VSlice pa plen) after' info), s') ->
    EnforceArraySelection growslice size
      (ArrayFootprint leave (VSlice pa plen) (before ++ si :: after) info) st
    = (Ok (ArrayFootprint leave (VSlice pa plen)
             (before' ++ mkSelectionIndex (Index si)
                           (mkVirtualInfo (Virtual (si_info si)) (Z.of_nat n))
                      :: after') info), s').
Proof.
  intros Hbefore Hi Hpa Hchild Hsize after' s' Hafter.
  apply EnforceArraySelection_array_run in Hbefore.
  apply EnforceArraySelection_array_run in Hafter.
  apply EnforceArraySelection_array_run.
  destruct s0 as [h w]. cbn [st_heap warnings] in *.
  rewrite (enforce_array_indexes_from _ _ _ _ _ _ _ _ _ Hbefore).
  rewrite (bind_Ok _ _ _ _ _
             (enforce_array_indexes_step size pa plen pb si after (VSlice a n) None _
                h h w after' s' Hi Hpa Hchild
                (enforce_array_child_long_enough size (si_info si) a n (mkState h w) Hsize)
                Hpa Hafter)).
  reflexivity.
Qed.

(** C5 (amended). In write mode, for every incoming footprint: the
    evaluation of a slice node calls EnforceArraySelection with the end of
    the slice when the end is known, with the start plus one otherwise (a
    start that is not known counts as 0), and with -1 (no growth) when the
    values of start, end and step are all 0; the evaluation of an
    ArrayElement node with the index i calls it with i+1.
    EnforceArraySelection, of a map footprint and of an array footprint, goes
    through the selection in order. A selected child, at any place in the
    selection, that is an array shorter than the size asked when the loop
    reaches it grows to that size: its elements stay and the new ones are nil,
    the grown array is stored back in the holder, and the length before the
    growth is recorded in the selection. A selected child that is an array at
    least that long, and any array when the size is -1, is left as it is and
    its length is recorded. In both cases the loop goes on with the rest of
    the selection. *)
Theorem C5_write_mode_enforces_array_size :
  (forall fp fps x y z st,
      in_int64 (Value x) = true -> (Value x < MaxInt64)%Z ->
      exists x',
        Known x' = Known x /\ (Known x = true -> x' = x)
        /\ evalArray growslice true (fp :: fps) [x; y; z] st
           = bind (forM (EnforceArraySelection growslice (slice_enforce_size x y z))
                     (fp :: fps))
               (fun enforced =>
                  bind (expandM enforced false)
                    (concat_map_M (evalArray_one true [x'; y; z]))) st)
  /\ (forall fps node st,
         Known node = true -> (0 <= Value node < MaxInt64)%Z ->
         evalArrayElement growslice true fps node st
         = bind (forM (EnforceArraySelection growslice (Value node + 1)) fps)
             (fun enforced =>
                bind (expandM enforced false)
                  (concat_map_M (evalArrayElement_one true node))) st)
  /\ (forall leave m virt size before sk after before' st s0
             (mp : gmap string value) a n backing,
         EnforceArraySelection growslice size (MapFootprint leave (VMap m) before virt) st
         = (Ok (MapFootprint leave (VMap m) before' virt), s0) ->
         maps (st_heap s0) !! m = Some mp -> mp !! Key sk = Some (VSlice a n) ->
         arrays (st_heap s0) !! a = Some backing -> (n <= length backing)%nat ->
         (Z.of_nat n < size)%Z ->
         exists a' h',
           maps h' !! m = Some (<[Key sk := VSlice a' (Z.to_nat size)]> mp)
           /\ Store.slice_elems h' a' (Z.to_nat size)
              = Some (take n backing ++ replicate (Z.to_nat size - n) VNil)
           /\ forall after' s',
               EnforceArraySelection growslice size (MapFootprint leave (VMap m) after virt)
                 (mkState h' (warnings s0))
               = (Ok (MapFootprint leave (VMap m) after' virt), s') ->
               EnforceArraySelection growslice size
                 (MapFootprint leave (VMap m) (before ++ sk :: after) virt) st
               = (Ok (MapFootprint leave (VMap m)
                        (before' ++ mkSelectionKey (Key sk)
                                      (mkVirtualInfo (Virtual (sk_info sk)) (Z.of_nat n))
                                 :: after') virt), s'))
  /\ (forall leave pa plen info size before si after before' st s0
             (pb : list value) a n backing,
         EnforceArraySelection growslice size
           (ArrayFootprint leave (VSlice pa plen) before info) st
         = (Ok (ArrayFootprint leave (VSlice pa plen) before' info), s0) ->
         (0 <= Index si < Z.of_nat plen)%Z ->
         arrays (st_heap s0) !! pa = Some pb ->
         pb !! Z.to_nat (Index si) = Some (VSlice a n) ->
         a <> pa ->
         arrays (st_heap s0) !! a = Some backing -> (n <= length backing)%nat ->
         (Z.of_nat n < size)%Z ->
         exists a' h',
           arrays h' !! pa
           = Some (<[Z.to_nat (Index si) := VSlice a' (Z.to_nat size)]> pb)
           /\ Store.slice_elems h' a' (Z.to_nat size)
              = Some (take n backing ++ replicate (Z.to_nat size - n) VNil)
           /\ forall after' s',
               EnforceArraySelection growslice size
                 (ArrayFootprint leave (VSlice pa plen) after info)
                 (mkState h' (warnings s0))
               = (Ok (ArrayFootprint leave (VSlice pa plen) after' info), s') ->
               EnforceArraySelection growslice size
                 (ArrayFootprint leave (VSlice pa plen) (before ++ si :: after) info) st
               = (Ok (ArrayFootprint leave (VSlice pa plen)
                        (before' ++ mkSelectionIndex (Index si)
                                      (mkVirtualInfo (Virtual (si_info si)) (Z.of_nat n))
                                 :: after') info), s'))
  /\ (forall leave m virt size before sk after before' st s0
             (mp : gmap string value) a n,
         EnforceArraySelection growslice size (MapFootprint leave (VMap m) before virt) st
         = (Ok (MapFootprint leave (VMap m) before' virt), s0) ->
         maps (st_heap s0) !! m = Some mp -> mp !! Key sk = Some (VSlice a n) ->
         (size = -1 \/ size <= Z.of_nat n)%Z ->
         forall after' s',
           EnforceArraySelection growslice size (MapFootprint leave (VMap m) after virt) s0
           = (Ok (MapFootprint leave (VMap m) after' virt), s') ->
           EnforceArraySelection growslice size
             (MapFootprint leave (VMap m) (before ++ sk :: after) virt) st
           = (Ok (MapFootprint leave (VMap m)
                    (before' ++ mkSelectionKey (Key sk)
                                  (mkVirtualInfo (Virtual (sk_info sk)) (Z.of_nat n))
                             :: after') virt), s'))
  /\ (forall leave pa plen info size before si after before' st s0
             (pb : list value) a n,
         EnforceArraySelection growslice size
           (ArrayFootprint leave (VSlice pa plen) before info) st
         = (Ok (ArrayFootprint leave (VSlice pa plen) before' info), s0) ->
         (0 <= Index si < Z.of_nat plen)%Z ->
         arrays (st_heap s0) !! pa = Some pb ->
         pb !! Z.to_nat (Index si) = Some (VSlice a n) ->
         (size = -1 \/ size <= Z.of_nat n)%Z ->
         forall after' s',
           EnforceArraySelection growslice size
             (ArrayFootprint leave (VSlice pa plen) after info) s0
           = (Ok (ArrayFootprint leave (VSlice pa plen) after' info), s') ->
           EnforceArraySelection growslice size
             (ArrayFootprint leave (VSlice pa plen) (before ++ si :: after) info) st
           = (Ok (ArrayFootprint leave (VSlice pa plen)
                    (before' ++ mkSelectionIndex (Index si)
                                  (mkVirtualInfo (Virtual (si_info si)) (Z.of_nat n))
                             :: after') info), s')).
Proof.
  split; [|split; [|split; [|split; [|split]]]].
  - intros fp fps x y z st Hx Hmax.
    destruct (array_tail_is_slice_enforce_size x y z Hx Hmax) as (x' & Hn & Hk & Hsame & Ht).
    exists x'. split; [exact Hk|]. split; [exact Hsame|].
    unfold evalArray. unfold bind at 1. unfold bind at 1. unfold lift at 1. rewrite Hn.
    unfold bind at 1. unfold lift at 1. rewrite Ht.
    unfold bind. destruct (forM _ _ st) as [[r|e| |] s']; reflexivity.
  - intros fps node st Hk Hv.
    change MaxInt64 with 9223372036854775807%Z in Hv.
    unfold evalArrayElement.
    destruct (Z.ltb_spec (Value node) 0) as [Hneg|_]; [lia|].
    rewrite Hk. cbn [negb]. rewrite wrap64_small by lia. reflexivity.
  - intros. eapply EnforceArraySelection_map_grows; eassumption.
  - intros. eapply EnforceArraySelection_array_grows; eassumption.
  - intros. eapply EnforceArraySelection_map_keeps; eassumption.
  - intros. eapply EnforceArraySelection_array_keeps; eassumption.
Qed.

End EnforceSize.

Lemma C5_write_mode_enforces_array_size_witness :
  exists a' h',
    arrays h' !! 0%nat
    = Some (<[Z.to_nat 1 := VSlice a' (Z.to_nat 3)]> [VSlice 3 3; VSlice 2 1])
    /\ Store.slice_elems h' a' (Z.to_nat 3)
       = Some (take 1 [VInt 8] ++ replicate (Z.to_nat 3 - 1) VNil)
    /\ EnforceArraySelection Examples.exact_cap 3
         (ArrayFootprint false (VSlice 0 2)
            [mkSelectionIndex 0 no_info; mkSelectionIndex 1 no_info] zero_info)
         (mkState (mkHeap [[VSlice 1 1; VSlice 2 1]; [VInt 7]; [VInt 8]] []) [])
       = (Ok (ArrayFootprint false (VSlice 0 2)
                [mkSelectionIndex 0 (mkVirtualInfo false 1);
                 mkSelectionIndex 1 (mkVirtualInfo false 1)] zero_info),
          mkState h' []).
Proof.
  destruct (proj1 (proj2 (proj2 (proj2
              (C5_write_mode_enforces_array_size Examples.exact_cap))))
              false 0%nat 2%nat zero_info 3%Z
              [mkSelectionIndex 0 no_info] (mkSelectionIndex 1 no_info) []
              [mkSelectionIndex 0 (mkVirtualInfo false 1)]
              (mkState (mkHeap [[VSlice 1 1; VSlice 2 1]; [VInt 7]; [VInt 8]] []) [])
              (mkState (mkHeap [[VSlice 3 3; VSlice 2 1]; [VInt 7]; [VInt 8];
                                [VInt 7; VNil; VNil]] []) [])
              [VSlice 3 3; VSlice 2 1] 2%nat 1%nat [VInt 8]
              eq_refl ltac:(cbn; lia) eq_refl eq_refl ltac:(discriminate) eq_refl
              ltac:(cbn; lia) ltac:(lia))
    as (a' & h' & Hholder & Helems & Hrun).
  exists a', h'. split; [exact Hholder|]. split; [exact Helems|].
  apply (Hrun [] (mkState h' [])). reflexivity.
Defined.

(** C5 as the specification states it fails for slices: for the slice from 3 to 1 the
    size asked is 1, the end, and not 3, the larger of start and end; the Set
    leaves an empty array with one element, not three. For the slice from 1
    with no end the size is 2, the start plus one. *)
Lemma C5_counterexample_slice_size_is_not_max :
  array_tail [mkParamsEntry 3 true false; mkParamsEntry 1 true false;
              mkParamsEntry 0 false false] = Ok 1%Z
  /\ Z.max 3 1 = 3%Z
  /\ Examples.set "$[3:1]" (JArray []) (VBool false) = Ok (Some (JArray [JNull]))
  /\ Examples.set "$[1:]" (JArray []) (VBool false) = Ok (Some (JArray [JNull; JBool false])).
Proof. repeat split; vm_compute; reflexivity. Qed.

(** A single index grows the array to the index plus one. *)
Example set_index_grows_array :
  Examples.set "$.a[2]" (JObject []) (VBool false)
  = Ok (Some (JObject [("a", JArray [JNull; JNull; JBool false])]))
  /\ Examples.set "$[1:3]" (JArray []) (VBool false)
     = Ok (Some (JArray [JNull; JBool false; JBool false])).
Proof. split; vm_compute; reflexivity. Qed.

(* ===================================================================== *)
(** * The evaluation of a slice (C1) *)
(* ===================================================================== *)

(** The slice with a start that is not known reads no value of the
    start: the start that evalArray normalises in write mode selects the same
    indexes. *)
Lemma selects_normalised_start (L : Z) (x x' y z : ParamsEntry) (l : list Z) :
  Known x' = Known x -> (Known x = true -> x' = x) ->
  SliceSpec.selects L x' y z l -> SliceSpec.selects L x y z l.
Proof.
  intros Hk Hsame. unfold SliceSpec.selects.
  replace (SliceSpec.base_of L x' (SliceSpec.step_of z))
    with (SliceSpec.base_of L x (SliceSpec.step_of z)); [tauto|].
  unfold SliceSpec.base_of. rewrite Hk.
  destruct (Known x); [rewrite Hsame by reflexivity|]; reflexivity.
Qed.

(** An expanded footprint that holds no array: a warning, no footprint. *)
Lemma evalArray_one_non_array (writeMode : bool) (params : list ParamsEntry)
      (fp : Footprint) (st : state) :
  holds_array fp = false ->
  evalArray_one writeMode params fp st
  = (Ok [],
     mkState (st_heap st)
       (warnings st
        ++ ["cannot use a index number to find a element in a non-array object"])).
Proof.
  unfold holds_array, evalArray_one.
  destruct (HolderPtr fp); cbn [is_slice]; intros H; try discriminate; reflexivity.
Qed.

(** The loop of evalArray over the expanded footprints. *)
Lemma evalArray_loop_selects_spec_indexes (writeMode : bool) (x y z : ParamsEntry) :
  in_int64 (Value x) = true ->
  in_int64 (Value y) = true ->
  in_int64 (Value z) = true ->
  forall (expanded : list Footprint) (st : state),
    Forall array_footprint_ok expanded ->
    exists results,
      concat_map_M (evalArray_one writeMode [x; y; z]) expanded st
      = (Ok results, warned_for_non_arrays st expanded)
      /\ Forall2 (slice_of x y z) (List.filter holds_array expanded) results.
Proof.
  intros Hx Hy Hz. induction expanded as [|fp expanded IH]; intros st Hok.
  - exists []. split; [|constructor].
    unfold warned_for_non_arrays. cbn. rewrite app_nil_r. destruct st; reflexivity.
  - apply Forall_cons in Hok as [Hfp Hok].
    cbn [concat_map_M List.filter].
    destruct (holds_array fp) eqn:Hh; cbn [negb].
    + unfold holds_array in Hh.
      destruct (HolderPtr fp) as [| | | | |a len|] eqn:Hptr; try discriminate Hh.
      destruct (Hfp a len Hptr) as [(leave & sis & info & ->) Hlen].
      destruct (evalArray_one_selects_spec_indexes writeMode leave a len sis info x y z st
                  Hx Hy Hz Hlen) as (indexes & Hone & _ & Hsel).
      destruct (IH st Hok) as (results & Hrest & Hall).
      exists (ArrayFootprint false (VSlice a len) indexes zero_info :: results). split.
      * unfold bind at 1. rewrite Hone. unfold bind at 1. rewrite Hrest.
        unfold ret, warned_for_non_arrays. cbn [List.filter].
        unfold holds_array at 1. cbn [HolderPtr is_slice negb]. reflexivity.
      * constructor; [|exact Hall]. exists a, len, indexes. auto.
    + destruct (IH (mkState (st_heap st)
                      (warnings st
                       ++ ["cannot use a index number to find a element in a non-array object"]))
                  Hok) as (results & Hrest & Hall).
      exists results. split; [|exact Hall].
      unfold bind at 1. rewrite (evalArray_one_non_array _ _ _ _ Hh).
      unfold bind at 1. rewrite Hrest. unfold ret, warned_for_non_arrays.
      cbn [List.filter]. rewrite Hh.
      cbn [negb st_heap warnings app length replicate]. rewrite <- app_assoc. reflexivity.
Qed.

Section SliceEvaluation.

Variable growslice : nat -> nat -> nat.
Variables tLess tGreater tEqual tNotEqual tLessEqual tGreaterEqual
  : value -> value -> bool * option string.

Local Abbreviation walk' :=
  (walk growslice tLess tGreater tEqual tNotEqual tLessEqual tGreaterEqual).

(** C1. The evaluation of a slice node with the parameters (x, y, z), by
    evalArray and so by walk, for every list of incoming footprints. For every
    expanded footprint that holds an array of length L it returns one footprint
    over that array whose indexes are exactly those of the specification: the
    step is the value of z when known and 0 otherwise, with 0 coerced to 1 and
    the direction inverted when negative; the base and the limit are clamped as
    section 4.2.1 says; the loop runs from the base while the index is inside
    the array and before (forward) or after (backward) the limit, adding the
    step, and emits each index it visits in that order. The footprints come in
    the order of the expansion; one that holds no array yields a warning and
    no footprint. In read mode the footprints expanded are the incoming ones;
    in write mode they are the incoming ones after EnforceArraySelection. The
    values of the parameters and the lengths of the arrays are Go integers
    (64 bits). *)
Theorem C1_slice_selects_spec_indexes (x y z : ParamsEntry) :
  in_int64 (Value x) = true ->
  in_int64 (Value y) = true ->
  in_int64 (Value z) = true ->
  (forall fuel fps st expanded,
      expandFootprints (st_heap st) fps false = Ok expanded ->
      Forall array_footprint_ok expanded ->
      exists results,
        evalArray growslice false fps [x; y; z] st
        = (Ok results, warned_for_non_arrays st expanded)
        /\ walk' false fuel fps (ArrayNode [x; y; z]) st
           = (Ok results, warned_for_non_arrays st expanded)
        /\ Forall2 (slice_of x y z) (List.filter holds_array expanded) results)
  /\ (forall fuel fps st enforced st1 expanded,
         (Value x < MaxInt64)%Z ->
         forM (EnforceArraySelection growslice (slice_enforce_size x y z)) fps st
         = (Ok enforced, st1) ->
         expandFootprints (st_heap st1) enforced false = Ok expanded ->
         Forall array_footprint_ok expanded ->
         exists results,
           evalArray growslice true fps [x; y; z] st
           = (Ok results, warned_for_non_arrays st1 expanded)
           /\ walk' true fuel fps (ArrayNode [x; y; z]) st
              = (Ok results, warned_for_non_arrays st1 expanded)
           /\ Forall2 (slice_of x y z) (List.filter holds_array expanded) results).
Proof.
  intros Hx Hy Hz. split.
  - intros fuel fps st expanded Hexp Hok.
    destruct (evalArray_loop_selects_spec_indexes false x y z Hx Hy Hz expanded st Hok)
      as (results & Hrun & Hall).
    exists results.
    assert (Heval : evalArray growslice false fps [x; y; z] st
                    = (Ok results, warned_for_non_arrays st expanded)).
    { unfold evalArray. unfold bind at 1. unfold ret at 1. cbn [fst snd].
      rewrite (bind_Ok _ _ _ _ _ (expandM_run _ _ _ _ Hexp)). exact Hrun. }
    split; [exact Heval|]. split; [exact Heval | exact Hall].
  - intros fuel fps st enforced st1 expanded Hmax Henf Hexp Hok.
    destruct (array_tail_is_slice_enforce_size x y z Hx Hmax)
      as (x' & Hnorm & Hk & Hsame & Htail).
    assert (Hx' : in_int64 (Value x') = true).
    { unfold normalise_start in Hnorm. injection Hnorm as <-.
      destruct (Known x); [exact Hx | reflexivity]. }
    destruct (evalArray_loop_selects_spec_indexes true x' y z Hx' Hy Hz expanded st1 Hok)
      as (results & Hrun & Hall).
    exists results.
    assert (Hall' : Forall2 (slice_of x y z) (List.filter holds_array expanded) results).
    { eapply Forall2_impl; [exact Hall|]. intros fp r (a & len & indexes & H1 & H2 & H3).
      exists a, len, indexes. split; [exact H1|]. split; [exact H2|].
      eapply selects_normalised_start; eassumption. }
    assert (Heval : evalArray growslice true fps [x; y; z] st
                    = (Ok results, warned_for_non_arrays st1 expanded)).
    { unfold evalArray. destruct fps as [|fp fps].
      - cbn [forM] in Henf. unfold ret in Henf. injection Henf as <- <-.
        unfold bind at 1. unfold ret at 1. cbn [fst snd].
        rewrite (bind_Ok _ _ _ _ _ (expandM_run _ _ _ _ Hexp)).
        unfold expandFootprints in Hexp. cbn in Hexp. injection Hexp as <-.
        exact Hrun.
      - unfold bind at 1. unfold bind at 1. unfold lift at 1. rewrite Hnorm.
        unfold bind at 1. unfold lift at 1. rewrite Htail.
        unfold bind at 1. rewrite Henf. unfold ret at 1. cbn [fst snd].
        rewrite (bind_Ok _ _ _ _ _ (expandM_run _ _ _ _ Hexp)). exact Hrun. }
    split; [exact Heval|]. split; [exact Heval | exact Hall'].
Qed.

End SliceEvaluation.

Lemma C1_slice_selects_spec_indexes_witness :
  exists results,
    evalArray Examples.exact_cap false [ArrayFootprint true (VSlice 0 5) [] zero_info]
      [mkParamsEntry 0 false false; mkParamsEntry 0 false false; mkParamsEntry (-2) true false]
      empty_state
    = (Ok results,
       warned_for_non_arrays empty_state [ArrayFootprint false (VSlice 0 5) [] zero_info])
    /\ Examples.walk false 0 [ArrayFootprint true (VSlice 0 5) [] zero_info]
         (ArrayNode [mkParamsEntry 0 false false; mkParamsEntry 0 false false;
                     mkParamsEntry (-2) true false]) empty_state
       = (Ok results,
          warned_for_non_arrays empty_state [ArrayFootprint false (VSlice 0 5) [] zero_info])
    /\ Forall2 (slice_of (mkParamsEntry 0 false false) (mkParamsEntry 0 false false)
                  (mkParamsEntry (-2) true false))
         (List.filter holds_array [ArrayFootprint false (VSlice 0 5) [] zero_info]) results.
Proof.
  apply (proj1 (C1_slice_selects_spec_indexes Examples.exact_cap
                  (Examples.compare_with Z.ltb) (Examples.compare_with Z.gtb)
                  (Examples.compare_with Z.eqb)
                  (Examples.compare_with (fun a b => negb (Z.eqb a b)))
                  (Examples.compare_with Z.leb) (Examples.compare_with Z.geb)
                  (mkParamsEntry 0 false false) (mkParamsEntry 0 false false)
                  (mkParamsEntry (-2) true false) eq_refl eq_refl eq_refl)
           0%nat [ArrayFootprint true (VSlice 0 5) [] zero_info] empty_state
           [ArrayFootprint false (VSlice 0 5) [] zero_info]).
  - reflexivity.
  - constructor; [|constructor]. intros a len H. injection H as <- <-.
    split; [eauto | vm_compute; discriminate].
Defined.

(** Through the facade: the slice with a step of -2 over five elements
    reads the elements 4, 2 and 0, in that order. *)
Example get_slice_backward_by_two :
  Examples.get "$[::-2]" (JArray [JNumber 10; JNumber 11; JNumber 12; JNumber 13; JNumber 14])
  = Ok ([Some (JNumber 14); Some (JNumber 12); Some (JNumber 10)], []).
Proof. vm_compute. reflexivity. Qed.

(* ===================================================================== *)
(** * The two sides of a filter, in the whole evaluation (C3) *)
(* ===================================================================== *)

(** The loop over a list that was gone through, without error, up to one
    of its entries. *)
Lemma concat_map_M_from {A B} (f : A -> M (list B)) (l1 : list A) (x : A) (l2 : list A)
      (st s0 : state) (r0 : list B) :
  concat_map_M f l1 st = (Ok r0, s0) ->
  concat_map_M f (l1 ++ x :: l2) st
  = bind (f x)
      (fun ys => bind (concat_map_M f l2) (fun more => ret (r0 ++ ys ++ more))) s0.
Proof.
  revert st r0. induction l1 as [|a l1 IH]; intros st r0 H.
  - cbn [concat_map_M] in H. unfold ret in H. injection H as <- <-. reflexivity.
  - cbn [concat_map_M app] in *. unfold bind at 1 in H. unfold bind at 1.
    destruct (f a st) as [[ys| | |] sa]; try discriminate H.
    unfold bind at 1 in H.
    destruct (concat_map_M f l1 sa) as [[r1| | |] sb] eqn:Hrest; try discriminate H.
    unfold ret in H. injection H as <- <-.
    unfold bind at 1. rewrite (IH sa r1 Hrest).
    unfold bind, ret.
    destruct (f x sb) as [[zs| | |] sc]; try reflexivity.
    destruct (concat_map_M f l2 sc) as [[more| | |] sd]; try reflexivity.
    rewrite <- !app_assoc. reflexivity.
Qed.

Section FilterEvaluation.

Variable growslice : nat -> nat -> nat.
Variables tLess tGreater tEqual tNotEqual tLessEqual tGreaterEqual
  : value -> value -> bool * option string.

Local Abbreviation walk' :=
  (walk growslice tLess tGreater tEqual tNotEqual tLessEqual tGreaterEqual).
Local Abbreviation evalList' :=
  (evalList growslice tLess tGreater tEqual tNotEqual tLessEqual tGreaterEqual).
Local Abbreviation filter_element' :=
  (filter_element tLess tGreater tEqual tNotEqual tLessEqual tGreaterEqual).
Local Abbreviation filter_elements' :=
  (filter_elements tLess tGreater tEqual tNotEqual tLessEqual tGreaterEqual).
Local Abbreviation filter_footprint' :=
  (filter_footprint tLess tGreater tEqual tNotEqual tLessEqual tGreaterEqual).
Local Abbreviation filter_continues' :=
  (filter_continues tLess tGreater tEqual tNotEqual tLessEqual tGreaterEqual).
Local Abbreviation evalFilter_with' :=
  (evalFilter_with tLess tGreater tEqual tNotEqual tLessEqual tGreaterEqual).

(** evalFilter is the outer loop over the expanded footprints. *)
Lemma evalFilter_with_loops evalLeft evalRight operator fps :
  evalFilter_with' evalLeft evalRight operator fps
  = bind (expandM fps false)
      (concat_map_M (filter_footprint' evalLeft evalRight operator)).
Proof. reflexivity. Qed.

(** The inner loop, gone through without error up to one element. *)
Lemma filter_elements_from evalLeft evalRight operator before element after
      st s1 selected :
  filter_elements' evalLeft evalRight operator before st = (Ok selected, s1) ->
  filter_elements' evalLeft evalRight operator (before ++ element :: after) st
  = bind (filter_element' evalLeft evalRight operator (LeaveItAsItIs element))
      (fun v =>
         bind (filter_elements' evalLeft evalRight operator after)
           (fun rest =>
              ret (selected ++ match v with
                               | Select => LeaveItAsItIs element :: rest
                               | Skip => rest
                               end))) s1.
Proof.
  revert st selected. induction before as [|b before IH]; intros st selected H.
  - cbn [filter_elements] in H. unfold ret in H. injection H as <- <-. reflexivity.
  - cbn [filter_elements app] in *. unfold bind at 1 in H. unfold bind at 1.
    destruct (filter_element' evalLeft evalRight operator (LeaveItAsItIs b) st)
      as [[v| | |] sa]; try discriminate H.
    unfold bind at 1 in H.
    destruct (filter_elements' evalLeft evalRight operator before sa)
      as [[r1| | |] sb] eqn:Hrest; try discriminate H.
    unfold ret in H. injection H as <- <-.
    unfold bind at 1. rewrite (IH sa r1 Hrest).
    unfold bind, ret.
    destruct (filter_element' evalLeft evalRight operator (LeaveItAsItIs element) sb)
      as [[w| | |] sc]; try reflexivity.
    destruct (filter_elements' evalLeft evalRight operator after sc)
      as [[rest| | |] sd]; try reflexivity.
    destruct v; reflexivity.
Qed.

Section OneElement.

Variables (writeMode : bool) (fuel : nat) (Left Right : list Node) (operator : string).
Variables (fps fps_before fps_after : list Footprint) (fp allSelected : Footprint).
Variables (before after found selected : list Footprint) (element : Footprint).
Variables (st s0 s1 : state).

Hypothesis expanded :
  expandFootprints (st_heap st) fps false = Ok (fps_before ++ fp :: fps_after).
Hypothesis earlier_footprints :
  concat_map_M
    (filter_footprint' (fun fps => evalList' writeMode fuel fps Left)
       (fun fps => evalList' writeMode fuel fps Right) operator) fps_before st
  = (Ok found, s0).
Hypothesis all_selected : SelectAll (st_heap s0) fp = Ok allSelected.
Hypothesis elements :
  Expand (st_heap s0) allSelected = Ok (before ++ element :: after).
Hypothesis earlier_elements :
  filter_elements' (fun fps => evalList' writeMode fuel fps Left)
    (fun fps => evalList' writeMode fuel fps Right) operator before s0
  = (Ok selected, s1).

(** The evaluation of the filter, from the body of the inner loop at the
    element. *)
Lemma walk_filter_at_element :
  walk' writeMode fuel fps (FilterNode Left Right operator) st
  = bind (filter_element' (fun fps => evalList' writeMode fuel fps Left)
            (fun fps => evalList' writeMode fuel fps Right) operator
            (LeaveItAsItIs element))
      (fun v =>
         bind (filter_elements' (fun fps => evalList' writeMode fuel fps Left)
                 (fun fps => evalList' writeMode fuel fps Right) operator after)
           (fun rest =>
              bind (concat_map_M
                      (filter_footprint' (fun fps => evalList' writeMode fuel fps Left)
                         (fun fps => evalList' writeMode fuel fps Right) operator)
                      fps_after)
                (fun more =>
                   ret (found
                        ++ (selected ++ match v with
                                        | Select => LeaveItAsItIs element :: rest
                                        | Skip => rest
                                        end)
                        ++ more)))) s1.
Proof.
  change (walk' writeMode fuel fps (FilterNode Left Right operator))
    with (evalFilter_with' (fun fps => evalList' writeMode fuel fps Left)
            (fun fps => evalList' writeMode fuel fps Right) operator fps).
  rewrite evalFilter_with_loops.
  rewrite (bind_Ok _ _ _ _ _ (expandM_run _ _ _ _ expanded)).
  rewrite (concat_map_M_from _ _ _ _ _ _ _ earlier_footprints).
  unfold bind at 1. unfold filter_footprint at 1.
  unfold bind at 1. unfold get_heap at 1. rewrite all_selected.
  unfold bind at 1. rewrite elements. unfold ret at 1.
  rewrite (filter_elements_from _ _ _ _ _ _ _ _ _ earlier_elements).
  unfold bind, ret.
  destruct (filter_element' _ _ operator (LeaveItAsItIs element) s1)
    as [[v| | |] sa]; try reflexivity.
  destruct (filter_elements' _ _ operator after sa) as [[rest| | |] sb]; try reflexivity.
Qed.

(** An element that the body of the inner loop skips: the evaluation goes
    on after it. *)
Lemma walk_filter_skips s' :
  filter_element' (fun fps => evalList' writeMode fuel fps Left)
    (fun fps => evalList' writeMode fuel fps Right) operator (LeaveItAsItIs element) s1
  = (Ok Skip, s') ->
  walk' writeMode fuel fps (FilterNode Left Right operator) st
  = filter_continues' (fun fps => evalList' writeMode fuel fps Left)
      (fun fps => evalList' writeMode fuel fps Right) operator
      found selected after fps_after s'.
Proof.
  intros H. rewrite walk_filter_at_element. unfold bind at 1. rewrite H. reflexivity.
Qed.

(** An element on which the body of the inner loop fails: the evaluation
    fails. *)
Lemma walk_filter_fails msg s' :
  filter_element' (fun fps => evalList' writeMode fuel fps Left)
    (fun fps => evalList' writeMode fuel fps Right) operator (LeaveItAsItIs element) s1
  = (Err msg, s') ->
  walk' writeMode fuel fps (FilterNode Left Right operator) st = (Err msg, s').
Proof.
  intros H. rewrite walk_filter_at_element. unfold bind at 1. rewrite H. reflexivity.
Qed.

End OneElement.

(** C3 (amended). The evaluation, by walk, of a filter with a comparison operator
    (not the exists form), at any candidate element: an element, at any place
    among the children of any of the expanded footprints, that the loops reach
    without error. The left side is evaluated on the element and expanded
    first. When it yields no footprint the element is skipped and the
    evaluation continues with the elements and the footprints after it,
    whatever the right side would yield; when it yields more than one, the
    whole evaluation fails with the error "can only compare one element at
    a time". Only when it yields exactly one is the right side evaluated and
    expanded, with the same two rules: none, the element is skipped and the
    evaluation continues; more than one, the whole evaluation fails. *)
Theorem C3_filter_side_must_yield_one
  (writeMode : bool) (fuel : nat) (Left Right : list Node) (operator : string)
  (fps fps_before fps_after : list Footprint) (fp allSelected : Footprint)
  (before after found selected : list Footprint) (element : Footprint)
  (st s0 s1 s2 : state) (lefts : list Footprint) :
  String.eqb operator "exists" = false ->
  expandFootprints (st_heap st) fps false = Ok (fps_before ++ fp :: fps_after) ->
  concat_map_M
    (filter_footprint' (fun fps => evalList' writeMode fuel fps Left)
       (fun fps => evalList' writeMode fuel fps Right) operator) fps_before st
  = (Ok found, s0) ->
  SelectAll (st_heap s0) fp = Ok allSelected ->
  Expand (st_heap s0) allSelected = Ok (before ++ element :: after) ->
  filter_elements' (fun fps => evalList' writeMode fuel fps Left)
    (fun fps => evalList' writeMode fuel fps Right) operator before s0
  = (Ok selected, s1) ->
  evalList' writeMode fuel [LeaveItAsItIs element] Left s1 = (Ok lefts, s2) ->
  (expandFootprints (st_heap s2) lefts true = Ok [] ->
   walk' writeMode fuel fps (FilterNode Left Right operator) st
   = filter_continues' (fun fps => evalList' writeMode fuel fps Left)
       (fun fps => evalList' writeMode fuel fps Right) operator
       found selected after fps_after s2)
  /\ (forall l1 l2 ls,
         expandFootprints (st_heap s2) lefts true = Ok (l1 :: l2 :: ls) ->
         walk' writeMode fuel fps (FilterNode Left Right operator) st
         = (Err "can only compare one element at a time", s2))
  /\ (forall l rights s3,
         expandFootprints (st_heap s2) lefts true = Ok [l] ->
         evalList' writeMode fuel [LeaveItAsItIs element] Right s2 = (Ok rights, s3) ->
         (expandFootprints (st_heap s3) rights true = Ok [] ->
          walk' writeMode fuel fps (FilterNode Left Right operator) st
          = filter_continues' (fun fps => evalList' writeMode fuel fps Left)
              (fun fps => evalList' writeMode fuel fps Right) operator
              found selected after fps_after s3)
         /\ (forall r1 r2 rs,
                expandFootprints (st_heap s3) rights true = Ok (r1 :: r2 :: rs) ->
                walk' writeMode fuel fps (FilterNode Left Right operator) st
                = (Err "can only compare one element at a time", s3))).
Proof.
  intros Hop Hexp Hfound Hsel Helems Hbefore Hleft.
  pose proof (walk_filter_skips writeMode fuel Left Right operator fps fps_before
                fps_after fp allSelected before after found selected element st s0 s1
                Hexp Hfound Hsel Helems Hbefore) as Hskip.
  pose proof (walk_filter_fails writeMode fuel Left Right operator fps fps_before
                fps_after fp allSelected before after found selected element st s0 s1
                Hexp Hfound Hsel Helems Hbefore) as Hfail.
  assert (Hbody :
    filter_element' (fun fps => evalList' writeMode fuel fps Left)
      (fun fps => evalList' writeMode fuel fps Right) operator (LeaveItAsItIs element) s1
    = bind (expandM lefts true)
        (fun lefts =>
           match lefts with
           | [] => ret Skip
           | [l] =>
               bind (evalList' writeMode fuel [LeaveItAsItIs element] Right)
                 (fun rights =>
                    bind (expandM rights true)
                      (fun rights =>
                         match rights with
                         | [] => ret Skip
                         | [r] =>
                             let '(pass, err) :=
                               genericCompare tLess tGreater tEqual tNotEqual tLessEqual
                                 tGreaterEqual operator (HolderPtr l) (HolderPtr r) in
                             bind (match err with
                                   | Some e => AddWarning e
                                   | None => ret tt
                                   end)
                               (fun _ => ret (if pass then Select else Skip))
                         | _ :: _ :: _ => throw "can only compare one element at a time"
                         end))
           | _ :: _ :: _ => throw "can only compare one element at a time"
           end) s2).
  { unfold filter_element. unfold bind at 1. unfold try. rewrite Hleft. rewrite Hop.
    reflexivity. }
  split; [|split].
  - intros He. apply Hskip. rewrite Hbody.
    rewrite (bind_Ok _ _ _ _ _ (expandM_run _ _ _ _ He)). reflexivity.
  - intros l1 l2 ls He. apply Hfail. rewrite Hbody.
    rewrite (bind_Ok _ _ _ _ _ (expandM_run _ _ _ _ He)). reflexivity.
  - intros l rights s3 He Hright. split.
    + intros Her. apply Hskip. rewrite Hbody.
      rewrite (bind_Ok _ _ _ _ _ (expandM_run _ _ _ _ He)).
      rewrite (bind_Ok _ _ _ _ _ Hright).
      rewrite (bind_Ok _ _ _ _ _ (expandM_run _ _ _ _ Her)). reflexivity.
    + intros r1 r2 rs Her. apply Hfail. rewrite Hbody.
      rewrite (bind_Ok _ _ _ _ _ (expandM_run _ _ _ _ He)).
      rewrite (bind_Ok _ _ _ _ _ Hright).
      rewrite (bind_Ok _ _ _ _ _ (expandM_run _ _ _ _ Her)). reflexivity.
Qed.

End FilterEvaluation.

Lemma C3_filter_side_must_yield_one_witness :
  Examples.walk false 0 [ArrayFootprint true (VSlice 0 2) [] zero_info]
    (FilterNode [FieldNode "missing"] [WildcardNode] "==")
    (mkState Examples.objects_in_array [])
  = filter_continues (Examples.compare_with Z.ltb) (Examples.compare_with Z.gtb)
      (Examples.compare_with Z.eqb) (Examples.compare_with (fun a b => negb (Z.eqb a b)))
      (Examples.compare_with Z.leb) (Examples.compare_with Z.geb)
      (fun fps => Examples.evalList false 0 fps [FieldNode "missing"])
      (fun fps => Examples.evalList false 0 fps [WildcardNode]) "=="
      [] [] [MapFootprint false (VMap 1) [] false] []
      (mkState Examples.objects_in_array ["cannot find the field: missing"]).
Proof.
  refine (proj1 (C3_filter_side_must_yield_one Examples.exact_cap
                   (Examples.compare_with Z.ltb) (Examples.compare_with Z.gtb)
                   (Examples.compare_with Z.eqb)
                   (Examples.compare_with (fun a b => negb (Z.eqb a b)))
                   (Examples.compare_with Z.leb) (Examples.compare_with Z.geb)
                   false 0%nat [FieldNode "missing"] [WildcardNode] "=="
                   [ArrayFootprint true (VSlice 0 2) [] zero_info]
                   [] [] (ArrayFootprint false (VSlice 0 2) [] zero_info)
                   (ArrayFootprint false (VSlice 0 2)
                      [mkSelectionIndex 0 (mkVirtualInfo false (-1));
                       mkSelectionIndex 1 (mkVirtualInfo false (-1))] zero_info)
                   [] [MapFootprint false (VMap 1) [] false] [] []
                   (MapFootprint false (VMap 0) [] false)
                   (mkState Examples.objects_in_array [])
                   (mkState Examples.objects_in_array [])
                   (mkState Examples.objects_in_array [])
                   (mkState Examples.objects_in_array ["cannot find the field: missing"])
                   [] _ _ _ _ _ _ _) _);
    reflexivity.
Defined.

(** The two sides are not looked at alike. On the object with the fields a
    and b, the first element of the array, the side @.missing yields no
    footprint and the side @.* yields two. With @.missing on the left the
    element is skipped, although the right side yields more than one
    footprint: the evaluation does not fail and goes on to select the second
    element. With @.* on the left the whole evaluation fails, although the
    right side yields none. *)
Lemma C3_counterexample_sides_are_checked_in_order :
  (exists lefts s,
      Examples.evalList false 0 [MapFootprint true (VMap 0) [] false] [FieldNode "missing"]
        (mkState Examples.objects_in_array []) = (Ok lefts, s)
      /\ expandFootprints (st_heap s) lefts true = Ok [])
  /\ (exists rights s r1 r2,
         Examples.evalList false 0 [MapFootprint true (VMap 0) [] false] [WildcardNode]
           (mkState Examples.objects_in_array []) = (Ok rights, s)
         /\ expandFootprints (st_heap s) rights true = Ok [r1; r2])
  /\ fst (Examples.walk false 0 [ArrayFootprint true (VSlice 0 2) [] zero_info]
            (FilterNode [FieldNode "missing"] [WildcardNode] "==")
            (mkState Examples.objects_in_array []))
     = Ok [MapFootprint true (VMap 1) [] false]
  /\ fst (Examples.walk false 0 [ArrayFootprint true (VSlice 0 2) [] zero_info]
            (FilterNode [WildcardNode] [FieldNode "missing"] "==")
            (mkState Examples.objects_in_array []))
     = Err "can only compare one element at a time"
  /\ Examples.get "$[?(@.missing==@.*)]"
       (JArray [JObject [("a", JNumber 1); ("b", JNumber 2)];
                JObject [("missing", JNumber 5)]])
     = Ok ([Some (JObject [("missing", JNumber 5)])], ["cannot find the field: missing"])
  /\ Examples.get "$[?(@.*==@.missing)]"
       (JArray [JObject [("a", JNumber 1); ("b", JNumber 2)];
                JObject [("missing", JNumber 5)]])
     = Err "can only compare one element at a time".
Proof.
  split; [eexists _, _; split; reflexivity|].
  split; [eexists _, _, _, _; split; reflexivity|].
  repeat split; vm_compute; reflexivity.
Qed.

(* ===================================================================== *)
(** * Expressions that are rejected (C7) *)
(* ===================================================================== *)

Section Rejected.

Variables IsLetter_tables IsDigit_tables : rune -> bool.
Variables TrimFunc_IsSpace TrimRightFunc_IsSpace : string -> string.
Variable ParseFloat : string -> option float64.
Variable unquote_escapes : string -> ascii -> option string.
Variable growslice : nat -> nat -> nat.
Variables tLess tGreater tEqual tNotEqual tLessEqual tGreaterEqual
  : value -> value -> bool * option string.

Local Abbreviation Parse' :=
  (Parse.Parse IsLetter_tables IsDigit_tables TrimFunc_IsSpace TrimRightFunc_IsSpace
     ParseFloat unquote_escapes).
Local Abbreviation New' :=
  (New IsLetter_tables IsDigit_tables TrimFunc_IsSpace TrimRightFunc_IsSpace
     ParseFloat unquote_escapes).
Local Abbreviation Get' :=
  (Get growslice tLess tGreater tEqual tNotEqual tLessEqual tGreaterEqual).
Local Abbreviation walk' :=
  (walk growslice tLess tGreater tEqual tNotEqual tLessEqual tGreaterEqual).
Local Abbreviation evalList' :=
  (evalList growslice tLess tGreater tEqual tNotEqual tLessEqual tGreaterEqual).

(** No list of nodes that holds an identifier evaluates to a result. *)
Lemma evalList_with_identifier_fails wm fuel (before : list Node) name_ after :
  forall fps st,
    is_Ok (fst (evalList' wm fuel fps (before ++ IdentifierNode name_ :: after) st)) = false.
Proof.
  induction before as [|n before IH]; intros fps st.
  - reflexivity.
  - unfold evalList in *. cbn [app evalList_with]. unfold bind at 1.
    destruct (walk' wm fuel fps n st) as [[r|e| |] s']; try reflexivity.
    apply IH.
Qed.

(** A Get over a root whose first list holds an identifier, or is empty,
    returns no result. *)
Lemma Get_with_identifier_fails fuel name_ (before : list Node) ident after more dh st :
  is_Ok (fst (Get' fuel
                (mkJsonpath name_
                   (Some (ListNode (before ++ IdentifierNode ident :: after) :: more)) dh)
                st)) = false.
Proof.
  unfold Get, FindResult. cbn [parser].
  unfold bind at 1. unfold bind at 1. unfold get_heap at 1.
  unfold bind at 1. unfold lift at 1.
  destruct (SelectAll _ _) as [sel|e| |]; try reflexivity.
  pose proof (evalList_with_identifier_fails false fuel before ident after [sel] st) as H.
  destruct (before ++ IdentifierNode ident :: after) as [|n ns] eqn:E.
  - destruct before; discriminate E.
  - destruct (evalList' false fuel [sel] (n :: ns) st) as [[r|e| |] s']; try reflexivity.
    discriminate H.
Qed.

Lemma Get_empty_expression_fails fuel name_ more dh st :
  Get' fuel (mkJsonpath name_ (Some (ListNode [] :: more)) dh) st
  = (Err "cannot handle empty expression", st).
Proof. destruct dh as [[a len]|]; reflexivity. Qed.

(** C7 (amended). Of the eight inputs, four are rejected when the
    expression is compiled: [$[key]], [$.[key]], [[two.some]] and
    [$['single'quote']] make the parser fail, and New returns its error.
    The other four compile: [$a] and [key] to an identifier node, [$. a] to
    the field with the empty name and an identifier node, the empty input
    to an empty list of nodes. They are rejected when they are evaluated:
    for every document, a Get returns no result (an identifier is a node
    the evaluator does not accept; the empty expression is refused). *)
Theorem C7_rejected_at_parse_or_at_evaluation (name_ : string) :
  (Parse' name_ "{$[key]}" = Parse.PErr "invalid array index key"
   /\ Parse' name_ "{$.[key]}" = Parse.PErr "invalid array index key"
   /\ Parse' name_ "{[two.some]}" = Parse.PErr "invalid array index two.some"
   /\ Parse' name_ "{$['single'quote']}" = Parse.PErr "cannot find the next '")
  /\ (New' name_ "$[key]" = Err "cannot parse jsonpath string"
      /\ New' name_ "$.[key]" = Err "cannot parse jsonpath string"
      /\ New' name_ "[two.some]" = Err "cannot parse jsonpath string"
      /\ New' name_ "$['single'quote']" = Err "cannot parse jsonpath string")
  /\ (New' name_ "$a" = Ok (mkJsonpath name_ (Some [ListNode [IdentifierNode "a"]]) None)
      /\ New' name_ "key" = Ok (mkJsonpath name_ (Some [ListNode [IdentifierNode "key"]]) None)
      /\ New' name_ "$. a"
         = Ok (mkJsonpath name_ (Some [ListNode [FieldNode EmptyString; IdentifierNode "a"]])
                 None)
      /\ New' name_ EmptyString = Ok (mkJsonpath name_ (Some [ListNode []]) None))
  /\ (forall fuel dh st,
         is_Ok (fst (Get' fuel (mkJsonpath name_ (Some [ListNode [IdentifierNode "a"]]) dh)
                       st)) = false
         /\ is_Ok (fst (Get' fuel
                          (mkJsonpath name_ (Some [ListNode [IdentifierNode "key"]]) dh)
                          st)) = false
         /\ is_Ok (fst (Get' fuel
                          (mkJsonpath name_
                             (Some [ListNode [FieldNode EmptyString; IdentifierNode "a"]]) dh)
                          st)) = false)
  /\ (forall fuel dh st,
         Get' fuel (mkJsonpath name_ (Some [ListNode []]) dh) st
         = (Err "cannot handle empty expression", st)).
Proof.
  split; [|split; [|split; [|split]]].
  - repeat split; vm_compute; reflexivity.
  - repeat split; vm_compute; reflexivity.
  - repeat split; vm_compute; reflexivity.
  - intros fuel dh st. split; [|split].
    + apply (Get_with_identifier_fails fuel name_ [] "a" [] [] dh st).
    + apply (Get_with_identifier_fails fuel name_ [] "key" [] [] dh st).
    + apply (Get_with_identifier_fails fuel name_ [FieldNode EmptyString] "a" [] [] dh st).
  - intros. apply Get_empty_expression_fails.
Qed.

End Rejected.

(** C7 as the specification states it fails for four of the eight inputs: the compiler
    returns a compiled path for [$a], for [key], for [$. a] and for the empty
    input. *)
Lemma C7_counterexample_four_inputs_compile :
  is_Ok (Examples.New "$a") = true
  /\ is_Ok (Examples.New "key") = true
  /\ is_Ok (Examples.New "$. a") = true
  /\ is_Ok (Examples.New EmptyString) = true
  /\ Examples.Parse "{$a}"
     = Parse.POk (Parse.mkParser "example" [ListNode [IdentifierNode "a"]] "{$a}" 4 4 0).
Proof. repeat split; vm_compute; reflexivity. Qed.

(** The four inputs are rejected by Get. *)
Example get_rejects_what_compiles :
  Examples.get "$a" (JObject [("a", JNumber 1)]) = Err "unexpected Node"
  /\ Examples.get "key" (JObject [("key", JString "value")]) = Err "unexpected Node"
  /\ Examples.get "$. a" (JObject [(" a", JNumber 1); ("a", JNumber 2)]) = Err "unexpected Node"
  /\ Examples.get EmptyString (JObject [("a", JNumber 42)]) = Err "cannot handle empty expression".
Proof. repeat split; vm_compute; reflexivity. Qed.

(* ===================================================================== *)
(** * A dot before a terminator (C10) *)
(* ===================================================================== *)

Lemma str_drop_cons n : forall s c t,
  str_drop n s = String c t ->
  str_drop (S n) s = t /\ (n < String.length s)%nat.
Proof.
  induction n as [|n IH]; intros s c t H.
  - simpl in H. subst s. split; [reflexivity | simpl; lia].
  - destruct s as [|d s]; [discriminate H|].
    simpl in H. destruct (IH s c t H) as [H1 H2].
    split; [exact H1 | simpl; lia].
Qed.

Lemma str_drop_empty n : forall s,
  (String.length s <= n)%nat -> str_drop n s = EmptyString.
Proof.
  induction n as [|n IH]; intros [|c s] H; simpl in *; try reflexivity; try lia.
  apply IH. lia.
Qed.

Lemma str_drop_nonempty n : forall s,
  (n < String.length s)%nat -> exists c t, str_drop n s = String c t.
Proof.
  induction n as [|n IH]; intros [|c s] H; simpl in *; try lia.
  - eauto.
  - apply IH. lia.
Qed.

Section DotTerminator.

Variables IsLetter_tables IsDigit_tables : rune -> bool.
Variables TrimFunc_IsSpace TrimRightFunc_IsSpace : string -> string.
Variable ParseFloat : string -> option float64.
Variable unquote_escapes : string -> ascii -> option string.

Local Abbreviation parseInsideAction' :=
  (Parse.parseInsideAction IsLetter_tables IsDigit_tables TrimFunc_IsSpace
     TrimRightFunc_IsSpace ParseFloat unquote_escapes).

(** parseField on a parser whose next rune is a terminator: the field
    with the empty name, and the parser stays before the terminator. *)
Lemma parseField_before_terminator (k : Parse.K) (cur : list Node) (p : Parse.Parser) :
  Parse.isTerminator (fst (Parse.next p)) = true ->
  exists w,
    Parse.parseField k cur p
    = k (cur ++ [FieldNode EmptyString])
        (Parse.mkParser (Parse.Name p) (Parse.Root p) (Parse.input p)
           (Parse.pos p) (Parse.pos p) w).
Proof.
  intros Hterm. unfold Parse.parseField. cbn [Parse.consumeText].
  set (p1 := Parse.set_start p (Parse.pos p)).
  assert (Hnext : Parse.next p1
                  = (fst (Parse.next p),
                     Parse.set_start (snd (Parse.next p)) (Parse.pos p))).
  { unfold Parse.next, p1, Parse.rest. cbn.
    destruct (String.length (Parse.input p) <=? Parse.pos p)%nat; [reflexivity|].
    destruct (DecodeRuneInString _) as [r w]. reflexivity. }
  assert (Hadv : exists w,
             Parse.advance p1
             = (false, Parse.mkParser (Parse.Name p) (Parse.Root p) (Parse.input p)
                         (Parse.pos p) (Parse.pos p) w)).
  { unfold Parse.advance. rewrite Hnext.
    destruct (fst (Parse.next p) =? Parse.r_of Parse.backslash)%Z eqn:Hb.
    - apply Z.eqb_eq in Hb. rewrite Hb in Hterm. discriminate Hterm.
    - rewrite Hterm. unfold Parse.next, Parse.rest.
      destruct (String.length (Parse.input p) <=? Parse.pos p)%nat.
      + exists 0%nat. unfold Parse.backup. cbn. rewrite Nat.sub_0_r. reflexivity.
      + destruct (DecodeRuneInString _) as [r w]. exists w.
        unfold Parse.backup. cbn.
        replace (Parse.pos p + w - w)%nat with (Parse.pos p) by lia.
        reflexivity. }
  destruct Hadv as (w & Hadv). exists w.
  assert (Hloop : forall n, Parse.advance_loop n p1
                            = Some (Parse.mkParser (Parse.Name p) (Parse.Root p)
                                      (Parse.input p) (Parse.pos p) (Parse.pos p) w)).
  { intros n. destruct n; simpl; rewrite Hadv; reflexivity. }
  rewrite Hloop. cbn. rewrite Nat.sub_diag. cbn. reflexivity.
Qed.

Lemma str_drop_is_empty n s : str_drop n s = EmptyString -> (String.length s <= n)%nat.
Proof.
  intros H. destruct (Nat.le_gt_cases (String.length s) n) as [Hle|Hgt]; [exact Hle|].
  destruct (str_drop_nonempty n s Hgt) as (c & t & Hc). congruence.
Qed.

(** The rune next reads is the first rune of the rest of the input. *)
Lemma next_reads_first_rune (p : Parse.Parser) :
  fst (Parse.next p) = first_rune (Parse.rest p).
Proof.
  unfold Parse.next, first_rune.
  destruct (Nat.leb_spec (String.length (Parse.input p)) (Parse.pos p)) as [Hle|Hgt].
  - unfold Parse.rest. rewrite str_drop_empty by exact Hle. reflexivity.
  - destruct (str_drop_nonempty _ _ Hgt) as (c & t & Hc).
    unfold Parse.rest in *. rewrite Hc.
    destruct (DecodeRuneInString (String c t)) as [r w]. reflexivity.
Qed.

(** parseInsideAction on a dot that a terminator other than a dot
    follows. *)
Lemma parseInsideAction_dot_before_terminator
  (fuel : nat) (cur : list Node) (p : Parse.Parser) (t : string) :
  Parse.rest p = String "."%char t ->
  HasPrefix t "." = false ->
  Parse.isTerminator (first_rune t) = true ->
  exists w,
    parseInsideAction' (S fuel) cur p
    = parseInsideAction' fuel (cur ++ [FieldNode EmptyString])
        (Parse.mkParser (Parse.Name p) (Parse.Root p) (Parse.input p)
           (S (Parse.pos p)) (S (Parse.pos p)) w).
Proof.
  intros Hrest Hnodot Hterm.
  destruct (str_drop_cons _ _ _ _ Hrest) as [Hdrop Hlt].
  set (p1 := Parse.set_pos (Parse.set_width p 1) (Parse.pos p + 1)).
  assert (Hrest1 : Parse.rest p1 = t).
  { unfold Parse.rest, p1. cbn. rewrite Nat.add_1_r. exact Hdrop. }
  assert (Hterm1 : Parse.isTerminator (fst (Parse.next p1)) = true).
  { rewrite next_reads_first_rune, Hrest1. exact Hterm. }
  destruct (parseField_before_terminator (parseInsideAction' fuel) cur p1 Hterm1)
    as (w & Hfield).
  exists w.
  cbn [Parse.parseInsideAction]. rewrite Hrest.
  unfold HasPrefix in *. cbn [String.prefix Parse.rightDelim].
  change (Ascii.eqb "}" ".") with false. cbn iota.
  change (Ascii.eqb "[" ".") with false. cbn iota.
  change (Ascii.eqb "." ".") with true. cbn iota.
  rewrite Hnodot.
  unfold Parse.next. destruct (Nat.leb_spec (String.length (Parse.input p)) (Parse.pos p))
    as [Hle|_]; [lia|].
  rewrite Hrest.
  change (DecodeRuneInString (String "." t)) with (46%Z, 1%nat).
  cbv beta iota zeta.
  unfold Parse.isEndOfLine, Parse.r_of, Parse.dquote, Parse.squote, eof.
  change (rune_of_ascii " ") with 32%Z. change (rune_of_ascii "@") with 64%Z.
  change (rune_of_ascii "$") with 36%Z. change (rune_of_ascii "[") with 91%Z.
  change (rune_of_ascii "034") with 34%Z. change (rune_of_ascii "'") with 39%Z.
  change (rune_of_ascii ".") with 46%Z.
  cbn [Z.eqb Pos.eqb orb].
  fold p1. rewrite Hfield. unfold p1. cbn. rewrite Nat.add_1_r. reflexivity.
Qed.

End DotTerminator.

Lemma HolderPtr_NewFootprint v info : HolderPtr (NewFootprint v info) = v.
Proof. destruct v; reflexivity. Qed.

Section GetEmptyField.

Variables IsLetter_tables IsDigit_tables : rune -> bool.
Variables TrimFunc_IsSpace TrimRightFunc_IsSpace : string -> string.
Variable ParseFloat : string -> option float64.
Variable unquote_escapes : string -> ascii -> option string.
Variable growslice : nat -> nat -> nat.
Variables tLess tGreater tEqual tNotEqual tLessEqual tGreaterEqual
  : value -> value -> bool * option string.

Local Abbreviation parseInsideAction' :=
  (Parse.parseInsideAction IsLetter_tables IsDigit_tables TrimFunc_IsSpace
     TrimRightFunc_IsSpace ParseFloat unquote_escapes).
Local Abbreviation New' :=
  (New IsLetter_tables IsDigit_tables TrimFunc_IsSpace TrimRightFunc_IsSpace
     ParseFloat unquote_escapes).
Local Abbreviation Get' :=
  (Get growslice tLess tGreater tEqual tNotEqual tLessEqual tGreaterEqual).

(** Get with the field of the empty name, on a document that is an
    object. *)
Lemma Get_empty_field_of_object (fuel : nat) (name_ : string) (a m : nat)
  (backing : list value) (mp : gmap string value) (h : heap) (w : list string) :
  arrays h !! a = Some backing ->
  backing !! 0%nat = Some (VMap m) ->
  maps h !! m = Some mp ->
  Get' fuel (mkJsonpath name_ (Some [ListNode [FieldNode EmptyString]]) (Some (a, 1%nat)))
    (mkState h w)
  = match mp !! EmptyString with
    | Some v => (Ok [v], mkState h w)
    | None => (Ok [], mkState h (w ++ ["cannot find the field: "]))
    end.
Proof.
  intros Ha Hb Hm.
  unfold Get, FindResult, evalList, walk.
  cbn [parser dataHolder dataHolder_value NewFootprint SelectAll seq map
       evalList_with walk_node].
  unfold evalField, expandM, bind, get_heap, lift, ret. cbn [st_heap].
  unfold expandFootprints. cbn [length Nat.eqb expand_each Expand expand_indexes Index].
  unfold Store.slice_get. rewrite Ha.
  change ((0 <=? Z.of_nat 0)%Z && (Z.of_nat 0 <? Z.of_nat 1)%Z) with true.
  change (Z.to_nat (Z.of_nat 0)) with 0%nat. cbv iota.
  rewrite Hb. cbn [NewFootprint si_info Virtual RealSize no_info app concat_map_M].
  unfold bind, ret. unfold evalField_one at 1. cbn [HolderPtr].
  unfold bind, get_heap, must, Store.map_of, ret. cbn [st_heap]. rewrite Hm.
  destruct (mp !! EmptyString) as [v|] eqn:Hkey.
  - cbn [app length Nat.eqb expand_each Expand]. unfold Store.map_of.
    cbn [st_heap]. rewrite Hm.
    unfold expand_keys. cbn [map Key sk_info app]. rewrite Hkey. cbn [default].
    rewrite HolderPtr_NewFootprint. reflexivity.
  - reflexivity.
Qed.

(** C10 (amended). A dot that a field terminator other than a second dot
    follows (the end of the input, a space, a tab, an end of line, a comma,
    a bracket, a dollar, an at sign, a brace) is parsed as the field with
    the empty name, and the parser goes on from the terminator: the dot is
    not rejected. (Two dots are the recursive descent.) The expression [$.]
    compiles to that one field; on a document that is an object, a Get with
    it returns the value under the empty key when the object has that key,
    and no value (with the warning that the field cannot be found)
    otherwise. *)
Theorem C10_dot_before_terminator_is_the_empty_field :
  (forall fuel cur p t,
      Parse.rest p = String "."%char t ->
      HasPrefix t "." = false ->
      Parse.isTerminator (first_rune t) = true ->
      exists w,
        parseInsideAction' (S fuel) cur p
        = parseInsideAction' fuel (cur ++ [FieldNode EmptyString])
            (Parse.mkParser (Parse.Name p) (Parse.Root p) (Parse.input p)
               (S (Parse.pos p)) (S (Parse.pos p)) w))
  /\ (forall name_,
         New' name_ "$." = Ok (mkJsonpath name_ (Some [ListNode [FieldNode EmptyString]]) None))
  /\ (forall fuel name_ a m backing (mp : gmap string value) h w,
         arrays h !! a = Some backing ->
         backing !! 0%nat = Some (VMap m) ->
         maps h !! m = Some mp ->
         Get' fuel (mkJsonpath name_ (Some [ListNode [FieldNode EmptyString]])
                      (Some (a, 1%nat))) (mkState h w)
         = match mp !! EmptyString with
           | Some v => (Ok [v], mkState h w)
           | None => (Ok [], mkState h (w ++ ["cannot find the field: "]))
           end).
Proof.
  split; [|split].
  - intros. eapply parseInsideAction_dot_before_terminator; eassumption.
  - intros. vm_compute. reflexivity.
  - intros. eapply Get_empty_field_of_object; eassumption.
Qed.

End GetEmptyField.

Lemma C10_dot_before_terminator_is_the_empty_field_witness :
  Get Examples.exact_cap (Examples.compare_with Z.ltb) (Examples.compare_with Z.gtb)
    (Examples.compare_with Z.eqb) (Examples.compare_with Z.eqb)
    (Examples.compare_with Z.leb) (Examples.compare_with Z.geb) 0
    (mkJsonpath "example" (Some [ListNode [FieldNode EmptyString]]) (Some (0%nat, 1%nat)))
    (mkState (mkHeap [[VMap 0]] [{[EmptyString := VInt 9001]}]) [])
  = match ({[EmptyString := VInt 9001]} : gmap string value) !! EmptyString with
    | Some v => (Ok [v], mkState (mkHeap [[VMap 0]] [{[EmptyString := VInt 9001]}]) [])
    | None => (Ok [], mkState (mkHeap [[VMap 0]] [{[EmptyString := VInt 9001]}])
                        ([] ++ ["cannot find the field: "]))
    end.
Proof.
  apply (proj2 (proj2 (C10_dot_before_terminator_is_the_empty_field
                         Examples.no_rune Examples.no_rune Examples.same Examples.same
                         Examples.no_float Examples.no_escape Examples.exact_cap
                         (Examples.compare_with Z.ltb) (Examples.compare_with Z.gtb)
                         (Examples.compare_with Z.eqb) (Examples.compare_with Z.eqb)
                         (Examples.compare_with Z.leb) (Examples.compare_with Z.geb)))
           0%nat "example" 0%nat 0%nat [VMap 0] {[EmptyString := VInt 9001]}
           (mkHeap [[VMap 0]] [{[EmptyString := VInt 9001]}]) []);
    reflexivity.
Defined.

(** C10 as the specification states it fails for the terminator that is a dot: a dot
    that a dot follows is the recursive descent, and no field with the empty
    name comes out of it. *)
Lemma C10_counterexample_two_dots_are_recursive_descent :
  Parse.isTerminator (Parse.r_of ".") = true
  /\ Examples.Parse "{$..}"
     = Parse.POk (Parse.mkParser "example" [ListNode [RecursiveNode]] "{$..}" 5 5 0)
  /\ ~ In (FieldNode EmptyString) [RecursiveNode].
Proof.
  split; [reflexivity|]. split; [vm_compute; reflexivity|].
  intros [H|[]]. discriminate H.
Qed.

(** The expression with a dot only, on the document of the tests. *)
Example get_dot_reads_the_empty_key :
  Examples.get "$." (JObject [("key", JNumber 42); (EmptyString, JNumber 9001)])
  = Ok ([Some (JNumber 9001)], [])
  /\ Examples.get "$." (JObject [("key", JNumber 42)])
     = Ok ([], ["cannot find the field: "])
  /\ Examples.Parse "{$. }"
     = Parse.POk (Parse.mkParser "example" [ListNode [FieldNode EmptyString]] "{$. }" 5 5 0)
  /\ Examples.Parse "{$.[0]}"
     = Parse.POk (Parse.mkParser "example"
                    [ListNode [FieldNode EmptyString;
                               ArrayElementNode (mkParamsEntry 0 true false)]] "{$.[0]}" 7 7 0).
Proof. repeat split; vm_compute; reflexivity. Qed.

(* ===================================================================== *)
(** * Further properties of the evaluator *)
(* ===================================================================== *)

(** ** Paths compose *)

Lemma evalList_with_app (w : list Footprint -> Node -> M (list Footprint)) (l1 l2 : list Node) :
  forall fps st,
    evalList_with w fps (l1 ++ l2) st
    = bind (evalList_with w fps l1) (fun fps' => evalList_with w fps' l2) st.
Proof.
  induction l1 as [|n l1 IH]; intros fps st.
  - reflexivity.
  - change (evalList_with w fps ((n :: l1) ++ l2) st)
      with (bind (w fps n) (fun fps' => evalList_with w fps' (l1 ++ l2)) st).
    change (evalList_with w fps (n :: l1))
      with (bind (w fps n) (fun fps' => evalList_with w fps' l1)).
    unfold bind.
    destruct (w fps n st) as [[r|e| |] s']; try reflexivity.
    rewrite IH. reflexivity.
Qed.

Lemma evalUnion_with_app (ev : list Footprint -> list Node -> M (list Footprint))
  (fps : list Footprint) (ls1 ls2 : list (list Node)) :
  forall st,
    evalUnion_with ev fps (ls1 ++ ls2) st
    = bind (evalUnion_with ev fps ls1)
        (fun r1 => bind (evalUnion_with ev fps ls2) (fun r2 => ret (r1 ++ r2))) st.
Proof.
  induction ls1 as [|l ls1 IH]; intros st.
  - cbn [app]. unfold bind.
    change (evalUnion_with ev fps [] st) with (ret (@nil Footprint) st).
    unfold ret. cbn [app].
    destruct (evalUnion_with ev fps ls2 st) as [[r|e| |] s']; reflexivity.
  - change (evalUnion_with ev fps ((l :: ls1) ++ ls2) st)
      with (bind (ev fps l) (fun r => bind (evalUnion_with ev fps (ls1 ++ ls2))
                                        (fun rest => ret (r ++ rest))) st).
    change (evalUnion_with ev fps (l :: ls1))
      with (bind (ev fps l) (fun r => bind (evalUnion_with ev fps ls1)
                                        (fun rest => ret (r ++ rest)))).
    unfold bind, ret.
    destruct (ev fps l st) as [[r|e| |] s']; try reflexivity.
    rewrite IH. unfold bind, ret.
    destruct (evalUnion_with ev fps ls1 s') as [[r1|e| |] s1]; try reflexivity.
    destruct (evalUnion_with ev fps ls2 s1) as [[r2|e| |] s2]; try reflexivity.
    rewrite app_assoc. reflexivity.
Qed.

Section Composition.

Variable growslice : nat -> nat -> nat.
Variables tLess tGreater tEqual tNotEqual tLessEqual tGreaterEqual
  : value -> value -> bool * option string.

Local Abbreviation evalList' :=
  (evalList growslice tLess tGreater tEqual tNotEqual tLessEqual tGreaterEqual).
Local Abbreviation evalUnion' :=
  (evalUnion growslice tLess tGreater tEqual tNotEqual tLessEqual tGreaterEqual).
Local Abbreviation walk' :=
  (walk growslice tLess tGreater tEqual tNotEqual tLessEqual tGreaterEqual).

(** X1. The evaluation of a list of segments is the evaluation of a first
    part of the list, followed by the evaluation of the rest on the
    footprints and in the state the first part left; an error of the first
    part is the error of the whole, and the rest is not evaluated. *)
Theorem evalList_composes (writeMode : bool) (fuel : nat) (l1 l2 : list Node)
  (fps : list Footprint) (st : state) :
  evalList' writeMode fuel fps (l1 ++ l2) st
  = bind (evalList' writeMode fuel fps l1)
      (fun fps' => evalList' writeMode fuel fps' l2) st
  /\ (forall msg s', evalList' writeMode fuel fps l1 st = (Err msg, s') ->
                     evalList' writeMode fuel fps (l1 ++ l2) st = (Err msg, s')).
Proof.
  assert (H : evalList' writeMode fuel fps (l1 ++ l2) st
              = bind (evalList' writeMode fuel fps l1)
                  (fun fps' => evalList' writeMode fuel fps' l2) st).
  { unfold evalList. apply evalList_with_app. }
  split; [exact H|]. intros msg s' He. rewrite H. apply bind_Err. exact He.
Qed.

(** X2. A union evaluates each of its lists against the same incoming
    footprints, in order, each in the state the one before left, and returns
    the results one after the other: the union of two groups of lists is the
    result of the first group followed by the result of the second. A union
    of one list returns what the list returns. *)
Theorem evalUnion_concatenates (writeMode : bool) (fuel : nat)
  (ls1 ls2 : list (list Node)) (l : list Node) (fps : list Footprint) (st : state) :
  evalUnion' writeMode fuel fps (ls1 ++ ls2) st
  = bind (evalUnion' writeMode fuel fps ls1)
      (fun r1 => bind (evalUnion' writeMode fuel fps ls2) (fun r2 => ret (r1 ++ r2))) st
  /\ walk' writeMode fuel fps (UnionNode (ls1 ++ ls2)) st
     = evalUnion' writeMode fuel fps (ls1 ++ ls2) st
  /\ evalUnion' writeMode fuel fps [l] st = evalList' writeMode fuel fps l st.
Proof.
  split; [|split].
  - unfold evalUnion. apply evalUnion_with_app.
  - reflexivity.
  - unfold evalUnion.
    change (evalUnion_with (evalList' writeMode fuel) fps [l] st)
      with (bind (evalList' writeMode fuel fps l)
              (fun r => bind (ret []) (fun rest => ret (r ++ rest))) st).
    unfold bind, ret.
    destruct (evalList' writeMode fuel fps l st) as [[r|e| |] s']; try reflexivity.
    rewrite app_nil_r. reflexivity.
Qed.

End Composition.

(** ** Slices stay inside the array *)


(** Indexes of the array are read without a panic. *)
Lemma expand_indexes_in_range (h : heap) (a len : nat) (backing : list value)
  (sis : list SelectionIndex) :
  arrays h !! a = Some backing ->
  (len <= length backing)%nat ->
  Forall (fun s => (0 <= Index s < Z.of_nat len)%Z) sis ->
  expand_indexes h a len sis
  = Ok (map (fun s => NewFootprint (default VNil (backing !! Z.to_nat (Index s)))
                        (Some (si_info s))) sis).
Proof.
  intros Ha Hlen. induction 1 as [|s sis Hs _ IH]; [reflexivity|].
  cbn [expand_indexes map]. unfold Store.slice_get. rewrite Ha.
  replace ((0 <=? Index s)%Z && (Index s <? Z.of_nat len)%Z) with true
    by (symmetry; apply andb_true_iff; split; [apply Z.leb_le | apply Z.ltb_lt]; lia).
  destruct (lookup_lt_is_Some_2 backing (Z.to_nat (Index s))) as [v Hv]; [lia|].
  rewrite Hv, IH. reflexivity.
Qed.










(** ** Reading through the facade *)

(** The index of evalArrayElement, over the integers. *)
Lemma element_index_cases (len : nat) (node : ParamsEntry) :
  (- 9223372036854775808 <= Value node <= 9223372036854775807)%Z ->
  (Z.of_nat len <= 9223372036854775807)%Z ->
  let L := Z.of_nat len in
  let i := element_index len node in
  if ((0 <=? Value node) && (Value node <? L))%Z
  then i = Value node
  else if ((- L <=? Value node) && (Value node <? 0))%Z
       then i = (Value node + L)%Z
       else ((0 <=? i) && (i <? L))%Z = false.
Proof.
  intros Hv HL L i. subst i. unfold element_index. fold L.
  assert (HL0 : (0 <= L)%Z) by (subst L; lia).
  destruct (Z.leb_spec 0 (Value node)), (Z.ltb_spec (Value node) L),
    (Z.leb_spec (Value node) (L - 1)), (Z.leb_spec (- L) (Value node)),
    (Z.ltb_spec (Value node) 0); cbn [andb]; try lia; try reflexivity;
    try (rewrite wrap64_small by lia; try reflexivity;
         apply andb_false_iff; right; apply Z.ltb_ge; lia);
    try (apply andb_false_iff; left; apply Z.leb_gt; lia).
  destruct (Z_le_gt_dec (Value node + L) 9223372036854775807).
  - rewrite wrap64_small by lia. apply andb_false_iff; right; apply Z.ltb_ge; lia.
  - assert (wrap64 (Value node + L) < 0)%Z by (apply wrap64_overflow; lia).
    apply andb_false_iff; left; apply Z.leb_gt; lia.
Qed.

Section GetOne.

Variable growslice : nat -> nat -> nat.
Variables tLess tGreater tEqual tNotEqual tLessEqual tGreaterEqual
  : value -> value -> bool * option string.

Local Abbreviation Get' :=
  (Get growslice tLess tGreater tEqual tNotEqual tLessEqual tGreaterEqual).

(** Get with one index, on a document that is an array. *)
Lemma Get_array_element_run (fuel : nat) (name_ : string) (node : ParamsEntry)
  (a d len : nat) (backing elems : list value) (h : heap) (w : list string) :
  arrays h !! a = Some backing ->
  backing !! 0%nat = Some (VSlice d len) ->
  arrays h !! d = Some elems ->
  (len <= length elems)%nat ->
  in_int64 (Value node) = true ->
  (Z.of_nat len <= MaxInt64)%Z ->
  Get' fuel (mkJsonpath name_ (Some [ListNode [ArrayElementNode node]]) (Some (a, 1%nat)))
    (mkState h w)
  = (Ok (if ((0 <=? Value node) && (Value node <? Z.of_nat len))%Z
         then [default VNil (elems !! Z.to_nat (Value node))]
         else if ((- Z.of_nat len <=? Value node) && (Value node <? 0))%Z
              then [default VNil (elems !! Z.to_nat (Value node + Z.of_nat len))]
              else []),
     mkState h w).
Proof.
  intros Ha Hb Hd Hlen Hv HL.
  change MaxInt64 with 9223372036854775807%Z in HL.
  apply in_int64_bounds in Hv.
  unfold Get, FindResult, evalList, walk.
  cbn [parser dataHolder dataHolder_value NewFootprint SelectAll seq map
       evalList_with walk_node].
  unfold evalArrayElement, expandM, bind, get_heap, lift, ret. cbn [st_heap].
  unfold expandFootprints. cbn [length Nat.eqb expand_each Expand expand_indexes Index].
  unfold Store.slice_get at 1. rewrite Ha.
  change ((0 <=? Z.of_nat 0)%Z && (Z.of_nat 0 <? Z.of_nat 1)%Z) with true.
  change (Z.to_nat (Z.of_nat 0)) with 0%nat. cbv iota.
  rewrite Hb. cbn [NewFootprint si_info Virtual RealSize no_info app concat_map_M].
  unfold bind, ret. unfold evalArrayElement_one at 1. cbn [HolderPtr RealSize_of].
  unfold bind, lift, ret. cbn [andb].
  pose proof (element_index_cases len node Hv HL) as Hi. cbv zeta in Hi.
  assert (Hread : forall i, (0 <= i < Z.of_nat len)%Z ->
            Store.slice_get h d len i = Some (default VNil (elems !! Z.to_nat i))).
  { intros i Hr. unfold Store.slice_get. rewrite Hd.
    replace ((0 <=? i)%Z && (i <? Z.of_nat len)%Z) with true
      by (symmetry; apply andb_true_iff; split; [apply Z.leb_le | apply Z.ltb_lt]; lia).
    destruct (lookup_lt_is_Some_2 elems (Z.to_nat i)) as [v Hv']; [lia|].
    rewrite Hv'. reflexivity. }
  destruct ((0 <=? Value node)%Z && (Value node <? Z.of_nat len)%Z) eqn:E1.
  - rewrite Hi, E1. apply andb_true_iff in E1 as [E1 E2].
    apply Z.leb_le in E1. apply Z.ltb_lt in E2.
    cbn [app length Nat.eqb expand_each Expand expand_indexes Index si_info].
    rewrite Hread by lia. cbn [app map]. rewrite HolderPtr_NewFootprint. reflexivity.
  - destruct ((- Z.of_nat len <=? Value node)%Z && (Value node <? 0)%Z) eqn:E2.
    + rewrite Hi. apply andb_true_iff in E2 as [E2 E3].
      apply Z.leb_le in E2. apply Z.ltb_lt in E3.
      replace ((0 <=? Value node + Z.of_nat len)%Z
               && (Value node + Z.of_nat len <? Z.of_nat len)%Z) with true
        by (symmetry; apply andb_true_iff; split; [apply Z.leb_le | apply Z.ltb_lt]; lia).
      cbn [app length Nat.eqb expand_each Expand expand_indexes Index si_info].
      rewrite Hread by lia. cbn [app map]. rewrite HolderPtr_NewFootprint. reflexivity.
    + rewrite Hi. reflexivity.
Qed.

(** X5. Get with one index, on a document that is an array of [len]
    elements: an index from 0 to len-1 reads that element, an index from -len
    to -1 counts from the end, and any other index reads nothing; there is no
    error and no warning, and the store is not touched. *)
Theorem Get_array_element (fuel : nat) (name_ : string) (node : ParamsEntry)
  (a d len : nat) (backing elems : list value) (h : heap) (w : list string) :
  arrays h !! a = Some backing ->
  backing !! 0%nat = Some (VSlice d len) ->
  arrays h !! d = Some elems ->
  (len <= length elems)%nat ->
  in_int64 (Value node) = true ->
  (Z.of_nat len <= MaxInt64)%Z ->
  Get' fuel (mkJsonpath name_ (Some [ListNode [ArrayElementNode node]]) (Some (a, 1%nat)))
    (mkState h w)
  = (Ok (if ((0 <=? Value node) && (Value node <? Z.of_nat len))%Z
         then [default VNil (elems !! Z.to_nat (Value node))]
         else if ((- Z.of_nat len <=? Value node) && (Value node <? 0))%Z
              then [default VNil (elems !! Z.to_nat (Value node + Z.of_nat len))]
              else []),
     mkState h w).
Proof.
  intros Ha Hb Hd Hlen Hv HL.
  apply (Get_array_element_run fuel name_ node a d len backing elems h w); assumption.
Qed.

(** Get with one field, on a document that is an object. *)
Lemma Get_field_of_object_run (fuel : nat) (name_ field : string) (a m : nat)
  (backing : list value) (mp : gmap string value) (h : heap) (w : list string) :
  arrays h !! a = Some backing ->
  backing !! 0%nat = Some (VMap m) ->
  maps h !! m = Some mp ->
  Get' fuel (mkJsonpath name_ (Some [ListNode [FieldNode field]]) (Some (a, 1%nat)))
    (mkState h w)
  = match mp !! field with
    | Some v => (Ok [v], mkState h w)
    | None => (Ok [], mkState h (w ++ [("cannot find the field: " ++ field)%string]))
    end.
Proof.
  intros Ha Hb Hm.
  unfold Get, FindResult, evalList, walk.
  cbn [parser dataHolder dataHolder_value NewFootprint SelectAll seq map
       evalList_with walk_node].
  unfold evalField, expandM, bind, get_heap, lift, ret. cbn [st_heap].
  unfold expandFootprints. cbn [length Nat.eqb expand_each Expand expand_indexes Index].
  unfold Store.slice_get. rewrite Ha.
  change ((0 <=? Z.of_nat 0)%Z && (Z.of_nat 0 <? Z.of_nat 1)%Z) with true.
  change (Z.to_nat (Z.of_nat 0)) with 0%nat. cbv iota.
  rewrite Hb. cbn [NewFootprint si_info Virtual RealSize no_info app concat_map_M].
  unfold bind, ret. unfold evalField_one at 1. cbn [HolderPtr].
  unfold bind, get_heap, must, Store.map_of, ret. cbn [st_heap]. rewrite Hm.
  destruct (mp !! field) as [v|] eqn:Hkey.
  - cbn [app length Nat.eqb expand_each Expand]. unfold Store.map_of.
    cbn [st_heap]. rewrite Hm.
    unfold expand_keys. cbn [map Key sk_info app]. rewrite Hkey. cbn [default].
    rewrite HolderPtr_NewFootprint. reflexivity.
  - reflexivity.
Qed.

(** X6. Get with one field, on a document that is an object: the value
    under the name when the object has the key, and otherwise no value, no
    error, and the warning that the field cannot be found; the store is not
    touched. *)
Theorem Get_field_of_object (fuel : nat) (name_ field : string) (a m : nat)
  (backing : list value) (mp : gmap string value) (h : heap) (w : list string) :
  arrays h !! a = Some backing ->
  backing !! 0%nat = Some (VMap m) ->
  maps h !! m = Some mp ->
  Get' fuel (mkJsonpath name_ (Some [ListNode [FieldNode field]]) (Some (a, 1%nat)))
    (mkState h w)
  = match mp !! field with
    | Some v => (Ok [v], mkState h w)
    | None => (Ok [], mkState h (w ++ [("cannot find the field: " ++ field)%string]))
    end.
Proof.
  intros Ha Hb Hm.
  apply (Get_field_of_object_run fuel name_ field a m backing mp h w); assumption.
Qed.

Local Abbreviation Set' :=
  (Set_ growslice tLess tGreater tEqual tNotEqual tLessEqual tGreaterEqual).

Lemma Set_field_of_object (fuel : nat) (name_ field : string) (change : value) (a m : nat)
  (backing : list value) (mp : gmap string value) (h : heap) (w : list string) :
  arrays h !! a = Some backing ->
  backing !! 0%nat = Some (VMap m) ->
  maps h !! m = Some mp ->
  Set' fuel (mkJsonpath name_ (Some [ListNode [FieldNode field]]) (Some (a, 1%nat))) change
    (mkState h w)
  = (Ok tt,
     mkState (mkHeap (arrays h)
                (<[m := <[field := change]> mp]>
                   (match mp !! field with
                    | Some _ => maps h
                    | None => maps h ++ [∅]
                    end))) w).
Proof.
  intros Ha Hb Hm.
  unfold Set_, FindResult, evalList, walk.
  cbn [parser dataHolder dataHolder_value NewFootprint SelectAll seq map
       evalList_with walk_node].
  unfold evalField. cbn [forM_].
  unfold bind, get_heap, lift, ret. cbn [st_heap].
  cbn [EnforceObjectSelection enforce_object_indexes Index].
  change ((Z.of_nat 0 <? 0)%Z || (Z.of_nat 1 <? Z.of_nat 0)%Z) with false. cbv iota.
  unfold bind, get_heap, must, ret. cbn [st_heap].
  unfold Store.slice_get at 1. rewrite Ha.
  change ((0 <=? Z.of_nat 0)%Z && (Z.of_nat 0 <? Z.of_nat 1)%Z) with true.
  change (Z.to_nat (Z.of_nat 0)) with 0%nat. cbv iota.
  rewrite Hb. unfold ret. cbn [enforce_object_child is_map si_info].
  unfold ret.
  unfold expandM, bind, get_heap, lift, ret. cbn [st_heap].
  unfold expandFootprints. cbn [length Nat.eqb expand_each Expand expand_indexes Index].
  unfold Store.slice_get. rewrite Ha.
  change ((0 <=? Z.of_nat 0)%Z && (Z.of_nat 0 <? Z.of_nat 1)%Z) with true.
  change (Z.to_nat (Z.of_nat 0)) with 0%nat. cbv iota.
  rewrite Hb. cbn [NewFootprint si_info Virtual RealSize no_info app concat_map_M].
  unfold bind, ret. unfold evalField_one at 1. cbn [HolderPtr].
  unfold bind, get_heap, must, Store.map_of, ret. cbn [st_heap]. rewrite Hm.
  destruct (mp !! field) as [v|] eqn:Hkey.
  - cbn [app forM_ UpdateAll]. unfold bind, get_heap, must, Store.map_of, ret. cbn [st_heap].
    rewrite Hm. cbn [forM_ Key]. unfold map_store, bind, get_heap, must, ret. cbn [st_heap].
    unfold Store.map_store. cbn [maps arrays]. rewrite Hm.
    unfold put_heap. cbn [warnings]. reflexivity.
  - unfold put_heap. cbn [st_heap warnings fst snd Store.map_alloc].
    unfold map_store, bind, get_heap, must, ret. cbn [st_heap].
    unfold Store.map_store. cbn [maps arrays].
    rewrite (lookup_app_l_Some _ _ _ _ Hm). unfold put_heap. cbn [warnings st_heap].
    cbn [app forM_ UpdateAll]. unfold bind, get_heap, must, Store.map_of, ret. cbn [st_heap maps].
    assert (Hlt : (m < length (maps h ++ [∅]))%nat).
    { apply lookup_lt_Some in Hm. rewrite length_app. lia. }
    rewrite list_lookup_insert_eq by exact Hlt.
    cbn [forM_ Key]. unfold map_store, bind, get_heap, must, ret. cbn [st_heap].
    unfold Store.map_store. cbn [maps arrays].
    rewrite list_lookup_insert_eq by exact Hlt.
    unfold put_heap. cbn [warnings st_heap arrays maps].
    rewrite list_insert_insert_eq, insert_insert_eq. reflexivity.
Qed.


(** X7. Set with one field, on a document that is an object, then Get with
    the same expression: the Set succeeds whether the object had the key or
    not, the Get returns the value that was set and that value only, without a
    warning; in between, the object holds the value under the name and its other
    keys as before, and no other object and no array of the store has
    changed. *)
Theorem Set_then_Get_field (fuel fuel' : nat) (name_ field : string) (change : value)
  (a m : nat) (backing : list value) (mp : gmap string value) (h : heap) (w : list string) :
  arrays h !! a = Some backing ->
  backing !! 0%nat = Some (VMap m) ->
  maps h !! m = Some mp ->
  let j := mkJsonpath name_ (Some [ListNode [FieldNode field]]) (Some (a, 1%nat)) in
  exists st',
    Set' fuel j change (mkState h w) = (Ok tt, st')
    /\ Get' fuel' j st' = (Ok [change], st')
    /\ warnings st' = w
    /\ arrays (st_heap st') = arrays h
    /\ maps (st_heap st') !! m = Some (<[field := change]> mp)
    /\ (forall m', m' <> m -> (m' < length (maps h))%nat ->
                   maps (st_heap st') !! m' = maps h !! m').
Proof.
  intros Ha Hb Hm j. subst j.
  eexists. split; [apply (Set_field_of_object fuel name_ field change a m backing mp h w Ha Hb Hm)|].
  set (ms := match mp !! field with Some _ => maps h | None => maps h ++ [∅] end).
  assert (Hlt : (m < length ms)%nat).
  { apply lookup_lt_Some in Hm. subst ms.
    destruct (mp !! field); [|rewrite length_app]; lia. }
  assert (Hm' : <[m := <[field := change]> mp]> ms !! m = Some (<[field := change]> mp))
    by (apply list_lookup_insert_eq; exact Hlt).
  cbn [st_heap warnings arrays maps].
  split; [|split; [reflexivity|split; [reflexivity|split; [exact Hm'|]]]].
  - rewrite (Get_field_of_object_run fuel' name_ field a m backing (<[field := change]> mp));
      [|exact Ha|exact Hb|exact Hm'].
    rewrite lookup_insert_eq. reflexivity.
  - intros m' Hne Hlt'. rewrite list_lookup_insert_ne by congruence.
    subst ms. destruct (mp !! field); [reflexivity|].
    apply lookup_app_l. exact Hlt'.
Qed.

End GetOne.

Lemma Get_array_element_witness :
  Examples.Get 0
    (mkJsonpath "example" (Some [ListNode [ArrayElementNode (mkParamsEntry (-1) true false)]])
       (Some (0%nat, 1%nat)))
    (mkState (mkHeap [[VSlice 1 3]; [VInt 10; VInt 20; VInt 30]] []) [])
  = (Ok (if ((0 <=? -1) && (-1 <? Z.of_nat 3))%Z
         then [default VNil ([VInt 10; VInt 20; VInt 30] !! Z.to_nat (-1))]
         else if ((- Z.of_nat 3 <=? -1) && (-1 <? 0))%Z
              then [default VNil ([VInt 10; VInt 20; VInt 30] !! Z.to_nat (-1 + Z.of_nat 3))]
              else []),
     mkState (mkHeap [[VSlice 1 3]; [VInt 10; VInt 20; VInt 30]] []) []).
Proof.
  apply (Get_array_element Examples.exact_cap
           (Examples.compare_with Z.ltb) (Examples.compare_with Z.gtb)
           (Examples.compare_with Z.eqb) (Examples.compare_with (fun a b => negb (Z.eqb a b)))
           (Examples.compare_with Z.leb) (Examples.compare_with Z.geb)
           0%nat "example" (mkParamsEntry (-1) true false) 0%nat 1%nat 3%nat
           [VSlice 1 3] [VInt 10; VInt 20; VInt 30]
           (mkHeap [[VSlice 1 3]; [VInt 10; VInt 20; VInt 30]] []) []);
    [reflexivity | reflexivity | reflexivity | simpl; lia | reflexivity
    | vm_compute; discriminate].
Defined.

Lemma Get_field_of_object_witness :
  Examples.Get 0
    (mkJsonpath "example" (Some [ListNode [FieldNode "key"]]) (Some (0%nat, 1%nat)))
    (mkState (mkHeap [[VMap 0]] [{["other" := VInt 1]}]) [])
  = match ({["other" := VInt 1]} : gmap string value) !! "key" with
    | Some v => (Ok [v], mkState (mkHeap [[VMap 0]] [{["other" := VInt 1]}]) [])
    | None => (Ok [], mkState (mkHeap [[VMap 0]] [{["other" := VInt 1]}])
                        ([] ++ [("cannot find the field: " ++ "key")%string]))
    end.
Proof.
  apply (Get_field_of_object Examples.exact_cap
           (Examples.compare_with Z.ltb) (Examples.compare_with Z.gtb)
           (Examples.compare_with Z.eqb) (Examples.compare_with (fun a b => negb (Z.eqb a b)))
           (Examples.compare_with Z.leb) (Examples.compare_with Z.geb)
           0%nat "example" "key" 0%nat 0%nat [VMap 0] {["other" := VInt 1]}
           (mkHeap [[VMap 0]] [{["other" := VInt 1]}]) []);
    reflexivity.
Defined.

Lemma Set_then_Get_field_witness :
  let j := mkJsonpath "example" (Some [ListNode [FieldNode "key"]]) (Some (0%nat, 1%nat)) in
  exists st',
    Examples.Set_ 0 j (VInt 7) (mkState (mkHeap [[VMap 0]] [{["other" := VInt 1]}]) [])
    = (Ok tt, st')
    /\ Examples.Get 0 j st' = (Ok [VInt 7], st')
    /\ warnings st' = []
    /\ arrays (st_heap st') = [[VMap 0]]
    /\ maps (st_heap st') !! 0%nat = Some (<["key" := VInt 7]> {["other" := VInt 1]})
    /\ (forall m', m' <> 0%nat -> (m' < 1)%nat ->
                   maps (st_heap st') !! m' = [({["other" := VInt 1]} : gmap string value)] !! m').
Proof.
  apply (Set_then_Get_field Examples.exact_cap
           (Examples.compare_with Z.ltb) (Examples.compare_with Z.gtb)
           (Examples.compare_with Z.eqb) (Examples.compare_with (fun a b => negb (Z.eqb a b)))
           (Examples.compare_with Z.leb) (Examples.compare_with Z.geb)
           0%nat 0%nat "example" "key" (VInt 7) 0%nat 0%nat [VMap 0] {["other" := VInt 1]}
           (mkHeap [[VMap 0]] [{["other" := VInt 1]}]) []);
    reflexivity.
Defined.

(** ** The wildcard reads every element *)

Lemma lookups_of_seq_are_take (elems : list value) (len : nat) :
  (len <= length elems)%nat ->
  map (fun i => default VNil (elems !! i)) (seq 0 len) = take len elems.
Proof.
  revert len. induction elems as [|v elems IH]; intros len Hlen.
  - cbn in Hlen. replace len with 0%nat by lia. reflexivity.
  - destruct len as [|len]; [reflexivity|].
    cbn [seq map take]. f_equal. rewrite <- seq_shift, map_map.
    apply IH. cbn in Hlen. lia.
Qed.

Lemma lookups_of_map_to_list (mp : gmap string value) :
  map (fun kv => default VNil (mp !! fst kv)) (map_to_list mp) = map snd (map_to_list mp).
Proof.
  apply map_ext_in. intros [k v] Hin. cbn [fst snd].
  apply list_elem_of_In in Hin. apply elem_of_map_to_list in Hin.
  rewrite Hin. reflexivity.
Qed.

Section GetAll.

Variable growslice : nat -> nat -> nat.
Variables tLess tGreater tEqual tNotEqual tLessEqual tGreaterEqual
  : value -> value -> bool * option string.

Local Abbreviation Get' :=
  (Get growslice tLess tGreater tEqual tNotEqual tLessEqual tGreaterEqual).

(** X8. Get with the wildcard, on a document that is an array: the
    elements of the array, all of them, once each and in the order of the
    array; no error, no warning, and the store is not touched. *)
Theorem Get_wildcard_of_array (fuel : nat) (name_ : string)
  (a d len : nat) (backing elems : list value) (h : heap) (w : list string) :
  arrays h !! a = Some backing ->
  backing !! 0%nat = Some (VSlice d len) ->
  arrays h !! d = Some elems ->
  (len <= length elems)%nat ->
  Get' fuel (mkJsonpath name_ (Some [ListNode [WildcardNode]]) (Some (a, 1%nat)))
    (mkState h w)
  = (Ok (take len elems), mkState h w).
Proof.
  intros Ha Hb Hd Hlen.
  unfold Get, FindResult, evalList, walk.
  cbn [parser dataHolder dataHolder_value NewFootprint SelectAll seq map
       evalList_with walk_node].
  unfold evalWildcard, expandM, bind, get_heap, lift, ret. cbn [st_heap].
  unfold expandFootprints. cbn [length Nat.eqb expand_each Expand expand_indexes Index].
  unfold Store.slice_get at 1. rewrite Ha.
  change ((0 <=? Z.of_nat 0)%Z && (Z.of_nat 0 <? Z.of_nat 1)%Z) with true.
  change (Z.to_nat (Z.of_nat 0)) with 0%nat. cbv iota.
  rewrite Hb. cbn [NewFootprint si_info Virtual RealSize no_info app forM SelectAll].
  unfold bind, ret. cbn [length Nat.eqb expand_each Expand app].
  match goal with |- context [(?n =? 0)%nat] => destruct (n =? 0)%nat eqn:E end.
  - apply Nat.eqb_eq in E. rewrite length_map, length_seq in E. subst len. reflexivity.
  - rewrite (expand_indexes_in_range h d len elems) by
      (try assumption; apply Forall_map, Forall_forall; intros i Hi;
       apply elem_of_seq in Hi; cbn [Index]; lia).
    rewrite ?app_nil_r, !map_map. cbn [Index si_info].
    rewrite <- (lookups_of_seq_are_take elems len Hlen).
    do 2 f_equal. apply map_ext. intros i. rewrite HolderPtr_NewFootprint, Nat2Z.id. reflexivity.
Qed.

(** X9. Get with the wildcard, on a document that is an object: the values
    of the object, one for each key (in the order in which the keys are
    enumerated); no error, no warning, and the store is not touched. *)
Theorem Get_wildcard_of_object (fuel : nat) (name_ : string) (a m : nat)
  (backing : list value) (mp : gmap string value) (h : heap) (w : list string) :
  arrays h !! a = Some backing ->
  backing !! 0%nat = Some (VMap m) ->
  maps h !! m = Some mp ->
  Get' fuel (mkJsonpath name_ (Some [ListNode [WildcardNode]]) (Some (a, 1%nat)))
    (mkState h w)
  = (Ok (map snd (map_to_list mp)), mkState h w).
Proof.
  intros Ha Hb Hm.
  unfold Get, FindResult, evalList, walk.
  cbn [parser dataHolder dataHolder_value NewFootprint SelectAll seq map
       evalList_with walk_node].
  unfold evalWildcard, expandM, bind, get_heap, lift, ret. cbn [st_heap].
  unfold expandFootprints. cbn [length Nat.eqb expand_each Expand expand_indexes Index].
  unfold Store.slice_get at 1. rewrite Ha.
  change ((0 <=? Z.of_nat 0)%Z && (Z.of_nat 0 <? Z.of_nat 1)%Z) with true.
  change (Z.to_nat (Z.of_nat 0)) with 0%nat. cbv iota.
  rewrite Hb. cbn [NewFootprint si_info Virtual RealSize no_info app forM SelectAll].
  unfold Store.map_of. rewrite Hm.
  unfold bind, ret. cbn [length Nat.eqb expand_each Expand app].
  unfold Store.map_of. cbn [st_heap]. rewrite Hm.
  match goal with |- context [(?n =? 0)%nat] => destruct (n =? 0)%nat eqn:E end.
  - apply Nat.eqb_eq in E. rewrite length_map in E.
    apply nil_length_inv in E. rewrite E. reflexivity.
  - rewrite app_nil_r. unfold expand_keys. rewrite !map_map. cbn [Key sk_info].
    rewrite <- lookups_of_map_to_list.
    do 2 f_equal. apply map_ext. intros kv. apply HolderPtr_NewFootprint.
Qed.

End GetAll.

Lemma Get_wildcard_of_array_witness :
  Examples.Get 0 (mkJsonpath "example" (Some [ListNode [WildcardNode]]) (Some (0%nat, 1%nat)))
    (mkState (mkHeap [[VSlice 1 2]; [VInt 10; VInt 20; VInt 30]] []) [])
  = (Ok (take 2 [VInt 10; VInt 20; VInt 30]),
     mkState (mkHeap [[VSlice 1 2]; [VInt 10; VInt 20; VInt 30]] []) []).
Proof.
  apply (Get_wildcard_of_array Examples.exact_cap
           (Examples.compare_with Z.ltb) (Examples.compare_with Z.gtb)
           (Examples.compare_with Z.eqb) (Examples.compare_with (fun a b => negb (Z.eqb a b)))
           (Examples.compare_with Z.leb) (Examples.compare_with Z.geb)
           0%nat "example" 0%nat 1%nat 2%nat [VSlice 1 2] [VInt 10; VInt 20; VInt 30]
           (mkHeap [[VSlice 1 2]; [VInt 10; VInt 20; VInt 30]] []) []);
    [reflexivity | reflexivity | reflexivity | simpl; lia].
Defined.

Lemma Get_wildcard_of_object_witness :
  Examples.Get 0 (mkJsonpath "example" (Some [ListNode [WildcardNode]]) (Some (0%nat, 1%nat)))
    (mkState (mkHeap [[VMap 0]] [{["key" := VInt 1]}]) [])
  = (Ok (map snd (map_to_list ({["key" := VInt 1]} : gmap string value))),
     mkState (mkHeap [[VMap 0]] [{["key" := VInt 1]}]) []).
Proof.
  apply (Get_wildcard_of_object Examples.exact_cap
           (Examples.compare_with Z.ltb) (Examples.compare_with Z.gtb)
           (Examples.compare_with Z.eqb) (Examples.compare_with (fun a b => negb (Z.eqb a b)))
           (Examples.compare_with Z.leb) (Examples.compare_with Z.geb)
           0%nat "example" 0%nat 0%nat [VMap 0] {["key" := VInt 1]}
           (mkHeap [[VMap 0]] [{["key" := VInt 1]}]) []);
    reflexivity.
Defined.

(** ** Writing through a footprint *)

Lemma forM__map_store (data : value) (m : nat) (sks : list SelectionKey) :
  forall (h : heap) (mp : gmap string value) (w : list string),
    maps h !! m = Some mp ->
    forM_ (fun sk => map_store m (Key sk) data) sks (mkState h w)
    = (Ok tt,
       mkState (mkHeap (arrays h)
                  (<[m := foldl (fun acc sk => <[Key sk := data]> acc) mp sks]> (maps h))) w).
Proof.
  induction sks as [|sk sks IH]; intros h mp w Hm.
  - cbn [forM_ foldl]. unfold ret. rewrite list_insert_id by exact Hm.
    destruct h; reflexivity.
  - cbn [forM_ foldl]. unfold bind at 1.
    unfold map_store at 1, bind, get_heap, must, ret. cbn [st_heap].
    unfold Store.map_store. rewrite Hm. unfold put_heap. cbn [warnings].
    rewrite (IH _ (<[Key sk := data]> mp));
      [|cbn [maps]; apply list_lookup_insert_eq; eapply lookup_lt_Some; exact Hm].
    cbn [arrays maps]. rewrite list_insert_insert_eq. reflexivity.
Qed.

Lemma foldl_insert_lookup (data : value) (sks : list SelectionKey) :
  forall (mp : gmap string value) (k : string),
    foldl (fun acc sk => <[Key sk := data]> acc) mp sks !! k
    = if decide (k ∈ map Key sks) then Some data else mp !! k.
Proof.
  induction sks as [|sk sks IH]; intros mp k; [reflexivity|].
  cbn [foldl map]. rewrite IH.
  destruct (decide (k ∈ map Key sks)) as [Hin|Hnin].
  - rewrite decide_True by (right; exact Hin). reflexivity.
  - destruct (decide (k = Key sk)) as [->|Hne].
    + rewrite decide_True by left. apply lookup_insert_eq.
    + rewrite decide_False by (intros Hc; apply elem_of_cons in Hc as [?|?]; contradiction).
      apply lookup_insert_ne. congruence.
Qed.

(** X10. UpdateAll on a map footprint writes the value under every key of
    the selection and nowhere else: afterwards the object holds the value
    under each selected key (present before or not) and what it held under
    every other key; the other objects, the arrays and the warnings are as
    before. There is no error. *)
Theorem UpdateAll_map_writes_selected_keys (data : value) (leave virt : bool) (m : nat)
  (sks : list SelectionKey) (mp : gmap string value) (h : heap) (w : list string) :
  maps h !! m = Some mp ->
  exists mp',
    UpdateAll data (MapFootprint leave (VMap m) sks virt) (mkState h w)
    = (Ok tt, mkState (mkHeap (arrays h) (<[m := mp']> (maps h))) w)
    /\ (forall k, mp' !! k = if decide (k ∈ map Key sks) then Some data else mp !! k).
Proof.
  intros Hm.
  exists (foldl (fun acc sk => <[Key sk := data]> acc) mp sks). split.
  - cbn [UpdateAll]. unfold bind, get_heap, must, Store.map_of, ret. cbn [st_heap].
    rewrite Hm. apply forM__map_store. exact Hm.
  - apply foldl_insert_lookup.
Qed.

Lemma UpdateAll_map_writes_selected_keys_witness :
  exists mp',
    UpdateAll (VInt 7) (MapFootprint false (VMap 0)
                          [mkSelectionKey "a" no_info; mkSelectionKey "b" no_info] false)
      (mkState (mkHeap [] [{["a" := VInt 1]}]) [])
    = (Ok tt, mkState (mkHeap [] (<[0%nat := mp']> [({["a" := VInt 1]} : gmap string value)])) [])
    /\ (forall k, mp' !! k
                  = if decide (k ∈ map Key [mkSelectionKey "a" no_info; mkSelectionKey "b" no_info])
                    then Some (VInt 7) else ({["a" := VInt 1]} : gmap string value) !! k).
Proof.
  apply (UpdateAll_map_writes_selected_keys (VInt 7) false false 0
           [mkSelectionKey "a" no_info; mkSelectionKey "b" no_info] {["a" := VInt 1]}
           (mkHeap [] [{["a" := VInt 1]}]) []).
  reflexivity.
Defined.

Lemma forM__slice_store (data : value) (a len : nat) (sis : list SelectionIndex) :
  forall (h : heap) (backing : list value) (w : list string),
    arrays h !! a = Some backing ->
    (len <= length backing)%nat ->
    Forall (fun s => (0 <= Index s < Z.of_nat len)%Z) sis ->
    forM_ (fun si => slice_store a len (Index si) data) sis (mkState h w)
    = (Ok tt,
       mkState (mkHeap (<[a := foldl (fun acc si => <[Z.to_nat (Index si) := data]> acc)
                                backing sis]> (arrays h)) (maps h)) w).
Proof.
  induction sis as [|si sis IH]; intros h backing w Ha Hlen Hr.
  - cbn [forM_ foldl]. unfold ret. rewrite list_insert_id by exact Ha.
    destruct h; reflexivity.
  - apply Forall_cons in Hr as [Hsi Hr].
    cbn [forM_ foldl]. unfold bind at 1.
    unfold slice_store at 1, bind, get_heap, must, ret. cbn [st_heap].
    unfold Store.slice_store. rewrite Ha.
    replace ((0 <=? Index si)%Z && (Index si <? Z.of_nat len)%Z) with true
      by (symmetry; apply andb_true_iff; split; [apply Z.leb_le | apply Z.ltb_lt]; lia).
    replace (Z.to_nat (Index si) <? length backing)%nat with true
      by (symmetry; apply Nat.ltb_lt; lia).
    unfold put_heap. cbn [warnings].
    rewrite (IH _ (<[Z.to_nat (Index si) := data]> backing)).
    + cbn [arrays maps]. rewrite list_insert_insert_eq. reflexivity.
    + cbn [arrays]. apply list_lookup_insert_eq. eapply lookup_lt_Some. exact Ha.
    + rewrite length_insert. exact Hlen.
    + exact Hr.
Qed.

Lemma foldl_list_insert_lookup (data : value) (sis : list SelectionIndex) :
  forall (backing : list value) (i : nat),
    Forall (fun s => (0 <= Index s)%Z) sis ->
    (i < length backing)%nat ->
    foldl (fun acc si => <[Z.to_nat (Index si) := data]> acc) backing sis !! i
    = if decide (Z.of_nat i ∈ map Index sis) then Some data else backing !! i.
Proof.
  induction sis as [|si sis IH]; intros backing i Hr Hi; [reflexivity|].
  apply Forall_cons in Hr as [Hsi Hr].
  cbn [foldl map]. rewrite IH by (try assumption; rewrite length_insert; exact Hi).
  destruct (decide (Z.of_nat i ∈ map Index sis)) as [Hin|Hnin].
  - rewrite decide_True by (right; exact Hin). reflexivity.
  - destruct (decide (Z.of_nat i = Index si)) as [He|Hne].
    + rewrite decide_True by (rewrite He; left).
      rewrite <- He, Nat2Z.id. apply list_lookup_insert_eq. exact Hi.
    + rewrite decide_False by (intros Hc; apply elem_of_cons in Hc as [?|?]; contradiction).
      apply list_lookup_insert_ne. lia.
Qed.

Lemma foldl_list_insert_length (data : value) (sis : list SelectionIndex) :
  forall backing : list value,
    length (foldl (fun acc si => <[Z.to_nat (Index si) := data]> acc) backing sis)
    = length backing.
Proof.
  induction sis as [|si sis IH]; intros backing; [reflexivity|].
  cbn [foldl]. rewrite IH. apply length_insert.
Qed.

(** X11. UpdateAll on an array footprint whose selection holds indexes of
    the array writes the value at every selected index and nowhere else: the
    array keeps its length (and its capacity), holds the value at each selected
    index and what it held at every other; the other arrays, the objects and the
    warnings are as before. *)
Theorem UpdateAll_array_writes_selected_indexes (data : value) (leave : bool)
  (a len : nat) (sis : list SelectionIndex) (info : VirtualInfo)
  (backing : list value) (h : heap) (w : list string) :
  arrays h !! a = Some backing ->
  (len <= length backing)%nat ->
  Forall (fun s => (0 <= Index s < Z.of_nat len)%Z) sis ->
  exists backing',
    UpdateAll data (ArrayFootprint leave (VSlice a len) sis info) (mkState h w)
    = (Ok tt, mkState (mkHeap (<[a := backing']> (arrays h)) (maps h)) w)
    /\ length backing' = length backing
    /\ (forall i, (i < length backing)%nat ->
                  backing' !! i
                  = if decide (Z.of_nat i ∈ map Index sis) then Some data else backing !! i).
Proof.
  intros Ha Hlen Hr.
  exists (foldl (fun acc si => <[Z.to_nat (Index si) := data]> acc) backing sis).
  split; [|split].
  - cbn [UpdateAll]. apply forM__slice_store; assumption.
  - apply foldl_list_insert_length.
  - intros i Hi. apply foldl_list_insert_lookup; [|exact Hi].
    eapply Forall_impl; [exact Hr|]. cbn. intros; lia.
Qed.

Lemma UpdateAll_array_writes_selected_indexes_witness :
  exists backing',
    UpdateAll (VInt 7) (ArrayFootprint false (VSlice 0 3)
                          [mkSelectionIndex 0 no_info; mkSelectionIndex 2 no_info] zero_info)
      (mkState (mkHeap [[VInt 1; VInt 2; VInt 3]] []) [])
    = (Ok tt, mkState (mkHeap (<[0%nat := backing']> [[VInt 1; VInt 2; VInt 3]]) []) [])
    /\ length backing' = length [VInt 1; VInt 2; VInt 3]
    /\ (forall i, (i < length [VInt 1; VInt 2; VInt 3])%nat ->
                  backing' !! i
                  = if decide (Z.of_nat i
                               ∈ map Index [mkSelectionIndex 0 no_info; mkSelectionIndex 2 no_info])
                    then Some (VInt 7) else [VInt 1; VInt 2; VInt 3] !! i).
Proof.
  apply (UpdateAll_array_writes_selected_indexes (VInt 7) false 0 3
           [mkSelectionIndex 0 no_info; mkSelectionIndex 2 no_info] zero_info
           [VInt 1; VInt 2; VInt 3] (mkHeap [[VInt 1; VInt 2; VInt 3]] []) []);
    [reflexivity | simpl; lia | repeat constructor; simpl; lia].
Defined.

(** ** Selections made into objects *)

Lemma enforce_object_keys_makes_objects (m : nat) (sks : list SelectionKey) :
  forall (h : heap) (mp : gmap string value) (w : list string),
    maps h !! m = Some mp ->
    Forall (fun s => exists c, mp !! Key s = Some c
                               /\ (is_map c = true \/ Virtual (sk_info s) = true)) sks ->
    exists st' mp',
      enforce_object_keys m sks (mkState h w) = (Ok tt, st')
      /\ warnings st' = w
      /\ arrays (st_heap st') = arrays h
      /\ maps (st_heap st') !! m = Some mp'
      /\ (forall k, k ∈ map Key sks -> exists n, mp' !! k = Some (VMap n))
      /\ (forall k, k ∉ map Key sks -> mp' !! k = mp !! k)
      /\ (forall k n, mp !! k = Some (VMap n) -> mp' !! k = Some (VMap n)).
Proof.
  induction sks as [|s sks IH]; intros h mp w Hm Hall.
  - exists (mkState h w), mp. cbn [enforce_object_keys map]. unfold ret.
    repeat split; try assumption; try reflexivity.
    + intros k Hk. inversion Hk.
    + intros k n Hk. exact Hk.
  - apply Forall_cons in Hall as [(c & Hc & Hok) Hall].
    cbn [enforce_object_keys]. unfold bind at 1, get_heap. cbn [st_heap].
    unfold bind at 1, must, Store.map_of. rewrite Hm. unfold ret at 1. rewrite Hc.
    unfold enforce_object_child.
    destruct (is_map c) eqn:Hmap.
    + (* an object already: nothing is written *)
      destruct c; try discriminate Hmap.
      unfold bind, ret.
      destruct (IH h mp w Hm Hall) as (st' & mp' & Hrun & Hw & Ha & Hm' & Hin & Hout & Hkeep).
      exists st', mp'. rewrite Hrun.
      repeat split; try assumption.
      * intros k Hk. cbn [map] in Hk. apply elem_of_cons in Hk as [->|Hk].
        -- eexists. apply Hkeep. exact Hc.
        -- apply Hin. exact Hk.
      * intros k Hk. apply Hout. intros Hc'. apply Hk. cbn [map]. right. exact Hc'.
    + (* not an object: the selection is virtual, and a fresh object is stored *)
      destruct Hok as [Hok|Hv]; [discriminate|]. rewrite Hv.
      unfold bind, get_heap, put_heap, ret. cbn [st_heap warnings Store.map_alloc fst snd].
      unfold map_store, bind, get_heap, must, ret. cbn [st_heap].
      unfold Store.map_store. cbn [maps arrays].
      rewrite (lookup_app_l_Some _ _ _ _ Hm). unfold put_heap. cbn [warnings st_heap].
      set (mp2 := <[Key s := VMap (length (maps h))]> mp).
      set (h2 := mkHeap (arrays h) (<[m := mp2]> (maps h ++ [∅]))).
      assert (Hm2 : maps h2 !! m = Some mp2).
      { subst h2. cbn [maps]. apply list_lookup_insert_eq.
        apply lookup_lt_Some in Hm. rewrite length_app. lia. }
      assert (Hall2 : Forall (fun s => exists c, mp2 !! Key s = Some c
                               /\ (is_map c = true \/ Virtual (sk_info s) = true)) sks).
      { eapply Forall_impl; [exact Hall|]. cbn. intros s' (c' & Hc' & Hok').
        destruct (decide (Key s' = Key s)) as [He|Hne].
        - exists (VMap (length (maps h))). subst mp2. rewrite He, lookup_insert_eq.
          split; [reflexivity | left; reflexivity].
        - exists c'. subst mp2. rewrite lookup_insert_ne by congruence. split; assumption. }
      destruct (IH h2 mp2 w Hm2 Hall2)
        as (st' & mp' & Hrun & Hw & Ha & Hm' & Hin & Hout & Hkeep).
      exists st', mp'. rewrite Hrun.
      repeat split; try assumption.
      * intros k Hk. cbn [map] in Hk. apply elem_of_cons in Hk as [->|Hk].
        -- eexists. apply Hkeep. subst mp2. apply lookup_insert_eq.
        -- apply Hin. exact Hk.
      * intros k Hk. cbn [map] in Hk. apply not_elem_of_cons in Hk as [Hne Hk].
        rewrite (Hout k Hk). subst mp2. apply lookup_insert_ne. congruence.
      * intros k n Hk. apply Hkeep. subst mp2.
        destruct (decide (k = Key s)) as [->|Hne].
        -- rewrite Hc in Hk. injection Hk as ->. discriminate Hmap.
        -- rewrite lookup_insert_ne by congruence. exact Hk.
Qed.

(** X12. EnforceObjectSelection on a map footprint, when every selected key
    is in the object and holds an object or is marked virtual: the call
    succeeds, and afterwards every selected key holds an object; a key that
    held an object holds the same one, a key that is not selected holds what it
    held; the arrays and the warnings are as before. *)
Theorem EnforceObjectSelection_makes_objects (leave virt : bool) (m : nat)
  (sks : list SelectionKey) (mp : gmap string value) (h : heap) (w : list string) :
  maps h !! m = Some mp ->
  Forall (fun s => exists c, mp !! Key s = Some c
                             /\ (is_map c = true \/ Virtual (sk_info s) = true)) sks ->
  exists st' mp',
    EnforceObjectSelection (MapFootprint leave (VMap m) sks virt) (mkState h w) = (Ok tt, st')
    /\ warnings st' = w
    /\ arrays (st_heap st') = arrays h
    /\ maps (st_heap st') !! m = Some mp'
    /\ (forall k, k ∈ map Key sks -> exists n, mp' !! k = Some (VMap n))
    /\ (forall k, k ∉ map Key sks -> mp' !! k = mp !! k)
    /\ (forall k n, mp !! k = Some (VMap n) -> mp' !! k = Some (VMap n)).
Proof.
  intros Hm Hall. cbn [EnforceObjectSelection].
  apply enforce_object_keys_makes_objects; assumption.
Qed.

Lemma EnforceObjectSelection_makes_objects_witness :
  exists st' mp',
    EnforceObjectSelection
      (MapFootprint false (VMap 0) [mkSelectionKey "a" (mkVirtualInfo true (-1))] false)
      (mkState (mkHeap [] [{["a" := VNil]}]) []) = (Ok tt, st')
    /\ warnings st' = []
    /\ arrays (st_heap st') = []
    /\ maps (st_heap st') !! 0%nat = Some mp'
    /\ (forall k, k ∈ map Key [mkSelectionKey "a" (mkVirtualInfo true (-1))] ->
                  exists n, mp' !! k = Some (VMap n))
    /\ (forall k, k ∉ map Key [mkSelectionKey "a" (mkVirtualInfo true (-1))] ->
                  mp' !! k = ({["a" := VNil]} : gmap string value) !! k)
    /\ (forall k n, ({["a" := VNil]} : gmap string value) !! k = Some (VMap n) ->
                    mp' !! k = Some (VMap n)).
Proof.
  apply (EnforceObjectSelection_makes_objects false false 0
           [mkSelectionKey "a" (mkVirtualInfo true (-1))] {["a" := VNil]}
           (mkHeap [] [{["a" := VNil]}]) []).
  - reflexivity.
  - constructor; [|constructor]. exists VNil. split; [reflexivity | right; reflexivity].
Defined.

(** ** Paths of fields and indexes *)

Section Paths.

Variable growslice : nat -> nat -> nat.
Variables tLess tGreater tEqual tNotEqual tLessEqual tGreaterEqual
  : value -> value -> bool * option string.

Local Abbreviation Get' :=
  (Get growslice tLess tGreater tEqual tNotEqual tLessEqual tGreaterEqual).
Local Abbreviation evalList' :=
  (evalList growslice tLess tGreater tEqual tNotEqual tLessEqual tGreaterEqual false).

Lemma evalList_follows_path (fuel : nat) (h : heap) (w : list string) :
  Forall (fun b : list value => (Z.of_nat (length b) <= 9223372036854775807)%Z) (arrays h) ->
  forall (path : list Node) (fp : Footprint) (v v' : value),
    selects_one h fp v ->
    lookup_path h v path = Some v' ->
    exists fp',
      evalList' fuel [fp] path (mkState h w) = (Ok [fp'], mkState h w)
      /\ selects_one h fp' v'.
Proof.
  intros Hsizes. induction path as [|node path IH]; intros fp v v' Hsel Hpath.
  - injection Hpath as <-. exists fp. split; [reflexivity | exact Hsel].
  - destruct Hsel as [info Hexp].
    destruct node as [| |field| | |node| | | | | | |]; try discriminate Hpath.
    + (* a field *)
      cbn [lookup_path] in Hpath.
      destruct v as [| | | | | |m]; try discriminate Hpath.
      destruct (Store.map_of h m) as [mp|] eqn:Hm; [|discriminate Hpath].
      destruct (mp !! field) as [child|] eqn:Hc; [|discriminate Hpath].
      destruct (IH (MapFootprint false (VMap m) [mkSelectionKey field no_info] false)
                  child v') as (fp' & Hrun & Hsel').
      { exists no_info. unfold expandFootprints.
        cbn [length Nat.eqb expand_each Expand]. rewrite Hm.
        unfold expand_keys. cbn [map Key sk_info]. rewrite Hc. reflexivity. }
      { exact Hpath. }
      exists fp'. split; [|exact Hsel'].
      unfold evalList in *. cbn [evalList_with]. unfold bind at 1.
      unfold walk at 1. cbn [walk_node]. unfold evalField.
      unfold bind, expandM, get_heap, lift, ret. cbn [st_heap]. unfold bind. cbn [st_heap]. rewrite Hexp.
      cbn [concat_map_M]. unfold bind, ret. unfold evalField_one at 1.
      rewrite HolderPtr_NewFootprint.
      unfold bind, get_heap, must, ret. cbn [st_heap]. rewrite Hm, Hc.
      cbn [app]. exact Hrun.
    + (* an index *)
      cbn [lookup_path] in Hpath.
      destruct v as [| | | | |d len|]; try discriminate Hpath.
      destruct (Store.slice_elems h d len) as [elems|] eqn:He; [|discriminate Hpath].
      unfold Store.slice_elems in He.
      destruct (arrays h !! d) as [backing|] eqn:Hd; [|discriminate He].
      destruct (len <=? length backing)%nat eqn:Hlen; [|discriminate He].
      injection He as <-. apply Nat.leb_le in Hlen.
      assert (HL : (Z.of_nat len <= 9223372036854775807)%Z).
      { rewrite Forall_forall in Hsizes.
        pose proof (Hsizes backing (list_elem_of_lookup_2 _ _ _ Hd)). lia. }
      set (i := if (0 <=? Value node)%Z then Value node
                else (Value node + Z.of_nat len)%Z) in Hpath.
      destruct (0 <=? i)%Z eqn:Hi0; [|discriminate Hpath]. apply Z.leb_le in Hi0.
      destruct (take len backing !! Z.to_nat i) as [child|] eqn:Hc; [|discriminate Hpath].
      assert (Hilen : (i < Z.of_nat len)%Z).
      { apply lookup_lt_Some in Hc. rewrite length_take in Hc. lia. }
      rewrite lookup_take_lt in Hc by lia.
      assert (Hidx : element_index len node = i).
      { unfold element_index. subst i.
        destruct (Z.leb_spec 0 (Value node)).
        - replace (Value node <=? Z.of_nat len - 1)%Z with true
            by (symmetry; apply Z.leb_le; lia).
          reflexivity.
        - cbn [andb]. replace (- Z.of_nat len <=? Value node)%Z with true
            by (symmetry; apply Z.leb_le; lia).
          apply wrap64_small. lia. }
      assert (Hget : Store.slice_get h d len i = Some child).
      { unfold Store.slice_get. rewrite Hd.
        replace ((0 <=? i)%Z && (i <? Z.of_nat len)%Z) with true
          by (symmetry; apply andb_true_iff; split; [apply Z.leb_le | apply Z.ltb_lt]; lia).
        exact Hc. }
      destruct (IH (ArrayFootprint false (VSlice d len)
                      [mkSelectionIndex i (mkVirtualInfo false (-1))] zero_info)
                  child v') as (fp' & Hrun & Hsel').
      { exists (mkVirtualInfo false (-1)). unfold expandFootprints.
        cbn [length Nat.eqb expand_each Expand expand_indexes Index si_info].
        rewrite Hget. reflexivity. }
      { exact Hpath. }
      exists fp'. split; [|exact Hsel'].
      unfold evalList in *. cbn [evalList_with]. unfold bind at 1.
      unfold walk at 1. cbn [walk_node]. unfold evalArrayElement.
      unfold bind, expandM, get_heap, lift, ret. cbn [st_heap]. unfold bind. cbn [st_heap].
      rewrite Hexp.
      cbn [concat_map_M]. unfold bind, ret. unfold evalArrayElement_one at 1.
      rewrite HolderPtr_NewFootprint.
      unfold bind, lift, ret. cbn [NewFootprint RealSize_of andb]. rewrite Hidx.
      replace ((0 <=? i)%Z && (i <? Z.of_nat len)%Z) with true
        by (symmetry; apply andb_true_iff; split; [apply Z.leb_le | apply Z.ltb_lt]; lia).
      cbn [app]. exact Hrun.
Qed.

(** X13. Get with a path of fields and of indexes, on a document in which
    the path leads to a value (every field is a key of the object it is read
    in, every index is an index of its array, counted from the end when
    negative): Get returns that value and that value only, without an error or
    a warning, and the store is not touched. *)
Theorem Get_follows_path (fuel : nat) (name_ : string) (path : list Node)
  (a : nat) (backing : list value) (doc v : value) (h : heap) (w : list string) :
  Forall (fun b : list value => (Z.of_nat (length b) <= MaxInt64)%Z) (arrays h) ->
  arrays h !! a = Some backing ->
  backing !! 0%nat = Some doc ->
  path <> [] ->
  lookup_path h doc path = Some v ->
  Get' fuel (mkJsonpath name_ (Some [ListNode path]) (Some (a, 1%nat))) (mkState h w)
  = (Ok [v], mkState h w).
Proof.
  intros Hsizes Ha Hb Hne Hpath.
  destruct (evalList_follows_path fuel h w Hsizes path
              (ArrayFootprint false (VSlice a 1)
                 [mkSelectionIndex (Z.of_nat 0) no_info] zero_info) doc v)
    as (fp' & Hrun & info & Hexp).
  { exists no_info. unfold expandFootprints.
    cbn [length Nat.eqb expand_each Expand expand_indexes Index si_info].
    unfold Store.slice_get. rewrite Ha.
    change ((0 <=? Z.of_nat 0)%Z && (Z.of_nat 0 <? Z.of_nat 1)%Z) with true.
    change (Z.to_nat (Z.of_nat 0)) with 0%nat. cbv iota. rewrite Hb. reflexivity. }
  { exact Hpath. }
  unfold Get, FindResult.
  cbn [parser dataHolder dataHolder_value NewFootprint SelectAll seq map].
  unfold bind at 1 2 3, get_heap, lift. cbn [st_heap].
  destruct path as [|node path]; [contradiction|].
  change (mkVirtualInfo false 0) with zero_info.
  rewrite Hrun. unfold bind, expandM, get_heap, lift, ret. cbn [st_heap].
  unfold bind. cbn [st_heap].
  replace (expandFootprints h [fp'] true) with (Ok [NewFootprint v (Some info)]).
  - cbn [map]. rewrite HolderPtr_NewFootprint. reflexivity.
  - rewrite <- Hexp. unfold expandFootprints in *.
    cbn [length Nat.eqb expand_each] in *.
    destruct (Expand h fp') as [fps|e| |]; try reflexivity. discriminate Hexp.
Qed.

End Paths.

Lemma Get_follows_path_witness :
  Examples.Get 0
    (mkJsonpath "example"
       (Some [ListNode [FieldNode "a"; ArrayElementNode (mkParamsEntry (-1) true false)]])
       (Some (0%nat, 1%nat)))
    (mkState (mkHeap [[VMap 0]; [VInt 10; VInt 20]] [{["a" := VSlice 1 2]}]) [])
  = (Ok [VInt 20], mkState (mkHeap [[VMap 0]; [VInt 10; VInt 20]] [{["a" := VSlice 1 2]}]) []).
Proof.
  apply (Get_follows_path Examples.exact_cap
           (Examples.compare_with Z.ltb) (Examples.compare_with Z.gtb)
           (Examples.compare_with Z.eqb) (Examples.compare_with (fun a b => negb (Z.eqb a b)))
           (Examples.compare_with Z.leb) (Examples.compare_with Z.geb)
           0%nat "example" [FieldNode "a"; ArrayElementNode (mkParamsEntry (-1) true false)]
           0%nat [VMap 0] (VMap 0) (VInt 20)
           (mkHeap [[VMap 0]; [VInt 10; VInt 20]] [{["a" := VSlice 1 2]}]) []);
    [repeat constructor; vm_compute; discriminate | reflexivity | reflexivity
    | discriminate | reflexivity].
Defined.

(** ** What Set refuses *)

Section SetRefuses.

Variable growslice : nat -> nat -> nat.
Variables tLess tGreater tEqual tNotEqual tLessEqual tGreaterEqual
  : value -> value -> bool * option string.

Local Abbreviation Set' :=
  (Set_ growslice tLess tGreater tEqual tNotEqual tLessEqual tGreaterEqual).

(** X14. Set does not replace a value that is there by an object: with a
    path of two fields, on a document that is an object in which the first
    field holds a value that is not an object (a scalar, null or an array), Set
    fails with the error that the selection is not an array or a virtual, and
    the store and the warnings are as they were. *)
Theorem Set_does_not_overwrite_a_scalar_by_an_object
  (fuel : nat) (name_ outer inner : string) (change held : value) (a m : nat)
  (backing : list value) (mp : gmap string value) (h : heap) (w : list string) :
  arrays h !! a = Some backing ->
  backing !! 0%nat = Some (VMap m) ->
  maps h !! m = Some mp ->
  mp !! outer = Some held ->
  is_map held = false ->
  Set' fuel (mkJsonpath name_ (Some [ListNode [FieldNode outer; FieldNode inner]])
               (Some (a, 1%nat))) change (mkState h w)
  = (Err "the selection is not an array or a virtual", mkState h w).
Proof.
  intros Ha Hb Hm Hheld Hnot.
  unfold Set_, FindResult, evalList, walk.
  cbn [parser dataHolder dataHolder_value NewFootprint SelectAll seq map
       evalList_with walk_node].
  unfold evalField at 1. cbn [forM_].
  unfold bind, get_heap, lift, ret. cbn [st_heap].
  cbn [EnforceObjectSelection enforce_object_indexes Index].
  change ((Z.of_nat 0 <? 0)%Z || (Z.of_nat 1 <? Z.of_nat 0)%Z) with false. cbv iota.
  unfold bind, get_heap, must, ret. cbn [st_heap].
  unfold Store.slice_get at 1. rewrite Ha.
  change ((0 <=? Z.of_nat 0)%Z && (Z.of_nat 0 <? Z.of_nat 1)%Z) with true.
  change (Z.to_nat (Z.of_nat 0)) with 0%nat. cbv iota.
  rewrite Hb. unfold ret. cbn [enforce_object_child is_map si_info].
  unfold ret.
  unfold expandM at 1, bind, get_heap, lift, ret. cbn [st_heap].
  unfold expandFootprints. cbn [length Nat.eqb expand_each Expand expand_indexes Index].
  unfold Store.slice_get. rewrite Ha.
  change ((0 <=? Z.of_nat 0)%Z && (Z.of_nat 0 <? Z.of_nat 1)%Z) with true.
  change (Z.to_nat (Z.of_nat 0)) with 0%nat. cbv iota.
  rewrite Hb. cbn [NewFootprint si_info Virtual RealSize no_info app concat_map_M].
  unfold bind, ret. unfold evalField_one at 1. cbn [HolderPtr].
  unfold bind, get_heap, must, Store.map_of, ret. cbn [st_heap]. rewrite Hm, Hheld.
  cbn [app]. unfold evalField. cbn [forM_ EnforceObjectSelection enforce_object_keys].
  unfold bind, get_heap, must, Store.map_of, ret. cbn [st_heap Key sk_info].
  rewrite Hm, Hheld. unfold enforce_object_child. rewrite Hnot. cbn [Virtual].
  reflexivity.
Qed.

End SetRefuses.

Lemma Set_does_not_overwrite_a_scalar_by_an_object_witness :
  Examples.Set_ 0 (mkJsonpath "example" (Some [ListNode [FieldNode "a"; FieldNode "b"]])
                     (Some (0%nat, 1%nat))) (VInt 7)
    (mkState (mkHeap [[VMap 0]] [{["a" := VInt 1]}]) [])
  = (Err "the selection is not an array or a virtual",
     mkState (mkHeap [[VMap 0]] [{["a" := VInt 1]}]) []).
Proof.
  apply (Set_does_not_overwrite_a_scalar_by_an_object Examples.exact_cap
           (Examples.compare_with Z.ltb) (Examples.compare_with Z.gtb)
           (Examples.compare_with Z.eqb) (Examples.compare_with (fun a b => negb (Z.eqb a b)))
           (Examples.compare_with Z.leb) (Examples.compare_with Z.geb)
           0%nat "example" "a" "b" (VInt 7) (VInt 1) 0%nat 0%nat [VMap 0] {["a" := VInt 1]}
           (mkHeap [[VMap 0]] [{["a" := VInt 1]}]) []);
    reflexivity.
Defined.

(** ** The recursive descent and the filter *)





Section FilterOrder.

Variables tLess tGreater tEqual tNotEqual tLessEqual tGreaterEqual
  : value -> value -> bool * option string.
Variables evalLeft evalRight : list Footprint -> M (list Footprint).

Local Abbreviation filter_element' :=
  (filter_element tLess tGreater tEqual tNotEqual tLessEqual tGreaterEqual evalLeft evalRight).
Local Abbreviation filter_elements' :=
  (filter_elements tLess tGreater tEqual tNotEqual tLessEqual tGreaterEqual evalLeft evalRight).

Lemma filter_element_exists_no_error (element : Footprint) (st : state) :
  forall e s', filter_element' "exists" element st <> (Err e, s').
Proof.
  intros e s'. unfold filter_element, bind, try.
  destruct (evalLeft [element] st) as [[[|l ls]|err| |] s1]; cbn; unfold ret; congruence.
Qed.

(** X16. The elements a filter selects are elements of the array or of the
    object it filters, marked leave-as-it-is, in the order in which they were
    enumerated and each at most as often as it was enumerated: with any
    operator and any two sides, a result of the inner loop of evalFilter is a
    sublist of the marked elements. With the operator exists (a filter without
    a comparison) the loop returns no error, whatever the evaluation of the
    left side returns. *)
Theorem filter_selects_a_sublist_of_the_elements (operator : string)
  (elements : list Footprint) (st : state) :
  (forall r st', filter_elements' operator elements st = (Ok r, st') ->
                 sublist r (map LeaveItAsItIs elements))
  /\ (forall e st', filter_elements' "exists" elements st <> (Err e, st')).
Proof.
  split.
  - revert st. induction elements as [|el more IH]; intros st r st' H.
    + cbn in H. injection H as <- _. constructor.
    + cbn [filter_elements map] in H. unfold bind at 1 in H.
      destruct (filter_element' operator (LeaveItAsItIs el) st) as [[v|e| |] s1];
        try discriminate H.
      unfold bind at 1 in H.
      destruct (filter_elements' operator more s1) as [[rest|e| |] s2] eqn:Hrest;
        try discriminate H.
      unfold ret in H. injection H as <- _.
      specialize (IH _ _ _ Hrest).
      destruct v; [apply sublist_cons | apply sublist_skip]; exact IH.
  - revert st. induction elements as [|el more IH]; intros st e st' H.
    + discriminate H.
    + cbn [filter_elements] in H. unfold bind at 1 in H.
      destruct (filter_element' "exists" (LeaveItAsItIs el) st) as [[v|e'| |] s1] eqn:Hel;
        try discriminate H.
      * unfold bind at 1 in H.
        destruct (filter_elements' "exists" more s1) as [[rest|e'| |] s2] eqn:Hrest;
          try discriminate H.
        eapply IH. exact Hrest.
      * eapply filter_element_exists_no_error. exact Hel.
Qed.

(** X17. genericCompare never passes an element when the comparison failed:
    an error comes with the verdict false, whatever the helper answered; and
    an operator that is none of the six is an error that names it. *)
Theorem genericCompare_error_means_no_pass (operator : string) (left right : value) :
  (forall e,
      snd (genericCompare tLess tGreater tEqual tNotEqual tLessEqual tGreaterEqual
             operator left right) = Some e ->
      fst (genericCompare tLess tGreater tEqual tNotEqual tLessEqual tGreaterEqual
             operator left right) = false)
  /\ (~ In operator ["<"; ">"; "=="; "!="; "<="; ">="] ->
      genericCompare tLess tGreater tEqual tNotEqual tLessEqual tGreaterEqual
        operator left right
      = (false, Some ("unrecognized filter operator " ++ operator)%string)).
Proof.
  split.
  - intros e. unfold genericCompare.
    repeat match goal with
           | |- context [String.eqb ?a ?b] => destruct (String.eqb a b)
           end;
      try match goal with
          | |- context [?f left right] => destruct (f left right) as [pass [err|]]
          end; cbn; congruence.
  - intros Hnot. unfold genericCompare.
    repeat match goal with
           | |- context [String.eqb ?a ?b] =>
               destruct (String.eqb_spec a b) as [->|_];
               [exfalso; apply Hnot; cbn; tauto|]
           end.
    reflexivity.
Qed.

End FilterOrder.

(** ** The data holder *)

Section DataHolder.

Variable growslice : nat -> nat -> nat.

(** X18. InitData appends the document to the documents the Jsonpath
    holds: on a Jsonpath that holds none it holds that document afterwards,
    and on one that holds [n] documents it holds the same ones followed by the
    new one, whether the holder is grown in place or moved. Data returns the
    first document: after a second InitData it still returns the document of
    the first. The objects of the store and the warnings are not touched. *)
Theorem InitData_appends_and_Data_reads_the_first (j : Jsonpath) (obj : value)
  (h : heap) (w : list string) :
  (dataHolder j = None ->
   exists a' h',
     InitData growslice j obj (mkState h w)
     = (Ok (mkJsonpath (name j) (parser j) (Some (a', 1%nat))), mkState h' w)
     /\ maps h' = maps h
     /\ Store.slice_elems h' a' 1 = Some [obj]
     /\ Data (mkJsonpath (name j) (parser j) (Some (a', 1%nat))) (mkState h' w)
        = (Ok obj, mkState h' w))
  /\ (forall a n backing,
         dataHolder j = Some (a, n) ->
         arrays h !! a = Some backing ->
         (n <= length backing)%nat ->
         exists a' h',
           InitData growslice j obj (mkState h w)
           = (Ok (mkJsonpath (name j) (parser j) (Some (a', (n + 1)%nat))), mkState h' w)
           /\ maps h' = maps h
           /\ Store.slice_elems h' a' (n + 1) = Some (take n backing ++ [obj])
           /\ (forall first, (1 <= n)%nat -> backing !! 0%nat = Some first ->
                 Data j (mkState h w) = (Ok first, mkState h w)
                 /\ Data (mkJsonpath (name j) (parser j) (Some (a', (n + 1)%nat)))
                      (mkState h' w)
                    = (Ok first, mkState h' w))).
Proof.
  split.
  - intros Hnone. exists (length (arrays h)), (mkHeap (arrays h ++ [[obj]]) (maps h)).
    unfold InitData, Data, bind, get_heap, put_heap, ret. cbn [st_heap warnings dataHolder].
    rewrite Hnone. cbn [st_heap warnings arrays maps].
    repeat split.
    + unfold Store.slice_elems. cbn [arrays].
      rewrite lookup_app_r by lia. rewrite Nat.sub_diag. reflexivity.
    + unfold must, Store.slice_get. cbn [arrays].
      rewrite lookup_app_r by lia. rewrite Nat.sub_diag. reflexivity.
  - intros a n backing Hsome Ha Hn.
    destruct (append_nils_elems growslice h a n 1 backing Ha Hn)
      as (a' & h1 & Happ & Hmaps & Helems).
    unfold Store.slice_elems in Helems.
    destruct (arrays h1 !! a') as [b'|] eqn:Hb'; [|discriminate Helems].
    destruct (Nat.leb_spec (n + 1) (length b')) as [Hlen|]; [|discriminate Helems].
    injection Helems as Helems.
    exists a', (mkHeap (<[a' := <[n := obj]> b']> (arrays h1)) (maps h1)).
    assert (Hrun : InitData growslice j obj (mkState h w)
                   = (Ok (mkJsonpath (name j) (parser j) (Some (a', (n + 1)%nat))),
                      mkState (mkHeap (<[a' := <[n := obj]> b']> (arrays h1)) (maps h1)) w)).
    { unfold InitData, bind, get_heap. cbn [st_heap]. rewrite Hsome, Happ.
      unfold must, ret, put_heap. cbn [fst snd warnings st_heap].
      unfold slice_store, bind, get_heap, must. cbn [st_heap].
      unfold Store.slice_store. rewrite Hb'.
      replace ((0 <=? Z.of_nat n)%Z && (Z.of_nat n <? Z.of_nat (n + 1))%Z) with true
        by (symmetry; apply andb_true_iff; split; [apply Z.leb_le | apply Z.ltb_lt]; lia).
      rewrite Nat2Z.id.
      replace (n <? length b')%nat with true by (symmetry; apply Nat.ltb_lt; lia).
      unfold ret, put_heap. cbn [warnings]. reflexivity. }
    assert (Hlt : (a' < length (arrays h1))%nat) by (eapply lookup_lt_Some; exact Hb').
    split; [exact Hrun|]. split; [exact Hmaps|]. split.
    + unfold Store.slice_elems. cbn [arrays].
      rewrite list_lookup_insert_eq by exact Hlt. rewrite length_insert.
      destruct (Nat.leb_spec (n + 1) (length b')) as [_|]; [|lia].
      f_equal. apply list_eq. intros i.
      destruct (Nat.lt_ge_cases i (n + 1)) as [Hi|Hi].
      * rewrite lookup_take_lt by exact Hi.
        destruct (decide (i = n)) as [->|Hne].
        -- rewrite list_lookup_insert_eq by lia.
           rewrite lookup_app_r by (rewrite length_take; lia).
           rewrite length_take, Nat.min_l by lia. rewrite Nat.sub_diag. reflexivity.
        -- rewrite list_lookup_insert_ne by congruence.
           rewrite <- (lookup_take_lt b' (n + 1) i) by exact Hi. rewrite Helems.
           rewrite !lookup_app_l by (rewrite length_take; lia). reflexivity.
      * rewrite lookup_take_ge by exact Hi. symmetry. apply lookup_ge_None.
        rewrite length_app, length_take. cbn [length]. lia.
    + intros first Hn1 Hfirst.
      unfold Data, bind, get_heap, must. cbn [st_heap dataHolder]. rewrite Hsome.
      unfold Store.slice_get. cbn [arrays]. rewrite Ha.
      rewrite list_lookup_insert_eq by exact Hlt.
      replace ((0 <=? 0)%Z && (0 <? Z.of_nat n)%Z) with true
        by (symmetry; apply andb_true_iff; split; [apply Z.leb_le | apply Z.ltb_lt]; lia).
      replace ((0 <=? 0)%Z && (0 <? Z.of_nat (n + 1))%Z) with true
        by (symmetry; apply andb_true_iff; split; [apply Z.leb_le | apply Z.ltb_lt]; lia).
      change (Z.to_nat 0) with 0%nat. rewrite Hfirst.
      rewrite list_lookup_insert_ne by lia.
      assert (Hb0 : b' !! 0%nat = Some first).
      { rewrite <- (lookup_take_lt b' (n + 1) 0) by lia. rewrite Helems.
        rewrite lookup_app_l by (rewrite length_take; lia).
        rewrite lookup_take_lt by lia. exact Hfirst. }
      rewrite Hb0. split; reflexivity.
Qed.

End DataHolder.

(* ===================================================================== *)
(** * Further properties of the parser *)
(* ===================================================================== *)

Lemma str_drop_length n : forall s, String.length (str_drop n s) = (String.length s - n)%nat.
Proof.
  induction n as [|n IH]; intros [|c s]; cbn [str_drop String.length];
    rewrite ?IH; try reflexivity; lia.
Qed.

Lemma str_length_app (s t : string) :
  String.length (s ++ t) = (String.length s + String.length t)%nat.
Proof. induction s as [|c s IH]; simpl; [reflexivity | rewrite IH; reflexivity]. Qed.

Lemma str_take_app_length (s t : string) : str_take (String.length s) (s ++ t) = s.
Proof. induction s as [|c s IH]; simpl; [destruct t; reflexivity | rewrite IH; reflexivity]. Qed.

Lemma str_drop_add n m : forall s, str_drop (n + m) s = str_drop m (str_drop n s).
Proof.
  induction n as [|n IH]; intros s; [reflexivity|].
  destruct s as [|c s]; simpl; [destruct m; reflexivity | apply IH].
Qed.

(** next on an ASCII byte. *)
Lemma next_ascii (p : Parse.Parser) (c : ascii) (t : string) :
  Parse.rest p = String c t ->
  (byte_val c < 128)%Z ->
  Parse.next p = (byte_val c, Parse.set_pos (Parse.set_width p 1) (Parse.pos p + 1)).
Proof.
  intros Hrest Hc. destruct (str_drop_cons _ _ _ _ Hrest) as [_ Hlt].
  unfold Parse.next. destruct (Nat.leb_spec (String.length (Parse.input p)) (Parse.pos p));
    [lia|].
  rewrite Hrest. unfold DecodeRuneInString.
  replace (byte_val c <? 128)%Z with true by (symmetry; apply Z.ltb_lt; exact Hc).
  reflexivity.
Qed.

Lemma rest_after_one (p : Parse.Parser) (c : ascii) (t : string) (w : nat) :
  Parse.rest p = String c t ->
  Parse.rest (Parse.set_pos (Parse.set_width p w) (Parse.pos p + 1)) = t.
Proof.
  intros Hrest. unfold Parse.rest. cbn. rewrite Nat.add_1_r.
  apply (str_drop_cons _ _ _ _ Hrest).
Qed.

Lemma plain_byte_is_kept (c : ascii) :
  plain_field_byte c = true -> Ascii.eqb c "\"%char = false.
Proof.
  unfold plain_field_byte. intros H.
  apply andb_true_iff in H as [_ H]. apply negb_true_iff in H.
  destruct (Ascii.eqb_spec c "\"%char) as [->|]; [|reflexivity].
  vm_compute in H. discriminate H.
Qed.

Lemma remove_backslashes_plain (s : string) :
  str_forall plain_field_byte s = true -> remove_backslashes s = s.
Proof.
  induction s as [|c s IH]; [reflexivity|]. cbn [str_forall remove_backslashes].
  intros H. apply andb_true_iff in H as [Hc Hs].
  rewrite (plain_byte_is_kept c Hc), IH by exact Hs. reflexivity.
Qed.

Section FieldNames.

Variables IsLetter_tables IsDigit_tables : rune -> bool.
Variables TrimFunc_IsSpace TrimRightFunc_IsSpace : string -> string.
Variable ParseFloat : string -> option float64.
Variable unquote_escapes : string -> ascii -> option string.

Local Abbreviation parseInsideAction' :=
  (Parse.parseInsideAction IsLetter_tables IsDigit_tables TrimFunc_IsSpace
     TrimRightFunc_IsSpace ParseFloat unquote_escapes).
Local Abbreviation Parse' :=
  (Parse.Parse IsLetter_tables IsDigit_tables TrimFunc_IsSpace
     TrimRightFunc_IsSpace ParseFloat unquote_escapes).
Local Abbreviation New' :=
  (New IsLetter_tables IsDigit_tables TrimFunc_IsSpace TrimRightFunc_IsSpace
     ParseFloat unquote_escapes).

(** advance runs over the plain bytes of a name and stops before the
    terminator. *)
Lemma advance_loop_over_plain_bytes (c : ascii) (t : string) :
  (byte_val c < 128)%Z ->
  Parse.isTerminator (byte_val c) = true ->
  forall (field : string) (n : nat) (p : Parse.Parser),
    str_forall plain_field_byte field = true ->
    Parse.rest p = (field ++ String c t)%string ->
    (String.length field <= n)%nat ->
    Parse.advance_loop n p
    = Some (Parse.mkParser (Parse.Name p) (Parse.Root p) (Parse.input p)
              (Parse.pos p + String.length field) (Parse.start p) 1).
Proof.
  intros Hc Hterm. induction field as [|a field IH]; intros n p Hplain Hrest Hn.
  - cbn [append] in Hrest.
    assert (Hadv : Parse.advance p
                   = (false, Parse.mkParser (Parse.Name p) (Parse.Root p) (Parse.input p)
                               (Parse.pos p + 0) (Parse.start p) 1)).
    { unfold Parse.advance. rewrite (next_ascii p c t Hrest Hc).
      destruct (byte_val c =? Parse.r_of Parse.backslash)%Z eqn:Hb.
      - apply Z.eqb_eq in Hb. rewrite Hb in Hterm. discriminate Hterm.
      - rewrite Hterm. unfold Parse.backup. cbn.
        rewrite Nat.add_sub, Nat.add_0_r. reflexivity. }
    destruct n; cbn [Parse.advance_loop String.length]; rewrite Hadv; reflexivity.
  - cbn [append] in Hrest. cbn [str_forall] in Hplain.
    apply andb_true_iff in Hplain as [Ha Hplain].
    unfold plain_field_byte in Ha.
    apply andb_true_iff in Ha as [Ha Hnb]. apply andb_true_iff in Ha as [Ha Hnt].
    apply Z.ltb_lt in Ha. apply negb_true_iff in Hnb, Hnt.
    cbn [String.length] in Hn. destruct n as [|n]; [lia|].
    cbn [Parse.advance_loop]. unfold Parse.advance.
    rewrite (next_ascii p a _ Hrest Ha). rewrite Hnb, Hnt.
    rewrite (IH n (Parse.set_pos (Parse.set_width p 1) (Parse.pos p + 1)) Hplain);
      [| eapply rest_after_one; exact Hrest | lia].
    cbn. rewrite <- Nat.add_assoc. reflexivity.
Qed.

(** parseField on a name of plain bytes. *)
Lemma parseField_plain_name (k : Parse.K) (cur : list Node) (p : Parse.Parser)
  (field : string) (c : ascii) (t : string) :
  (byte_val c < 128)%Z ->
  Parse.isTerminator (byte_val c) = true ->
  str_forall plain_field_byte field = true ->
  field <> "*" ->
  Parse.rest p = (field ++ String c t)%string ->
  Parse.parseField k cur p
  = k (cur ++ [FieldNode field])
      (Parse.mkParser (Parse.Name p) (Parse.Root p) (Parse.input p)
         (Parse.pos p + String.length field) (Parse.pos p + String.length field) 1).
Proof.
  intros Hc Hterm Hplain Hstar Hrest.
  unfold Parse.parseField. cbn [Parse.consumeText].
  set (p1 := Parse.set_start p (Parse.pos p)).
  assert (Hfuel : (String.length field <= Parse.scan_fuel p1)%nat).
  { unfold Parse.scan_fuel, p1. cbn.
    pose proof (f_equal String.length Hrest) as Hl.
    unfold Parse.rest in Hl. rewrite str_drop_length, str_length_app in Hl. lia. }
  rewrite (advance_loop_over_plain_bytes c t Hc Hterm field _ p1 Hplain Hrest Hfuel).
  cbn [Parse.consumeText Parse.pos Parse.start Parse.input Parse.Name Parse.Root p1
       Parse.set_start].
  replace (Parse.pos p + String.length field - Parse.pos p)%nat
    with (String.length field) by lia.
  unfold Parse.rest in Hrest. rewrite Hrest, str_take_app_length.
  destruct (String.eqb_spec field "*") as [He|_]; [contradiction|].
  rewrite remove_backslashes_plain by exact Hplain. reflexivity.
Qed.

Ltac dispatch_rune :=
  unfold Parse.isEndOfLine, Parse.r_of, Parse.dquote, Parse.squote, eof;
  change (rune_of_ascii " ") with 32%Z; change (rune_of_ascii "@") with 64%Z;
  change (rune_of_ascii "$") with 36%Z; change (rune_of_ascii "[") with 91%Z;
  change (rune_of_ascii "034") with 34%Z; change (rune_of_ascii "'") with 39%Z;
  change (rune_of_ascii ".") with 46%Z;
  cbn [Z.eqb Pos.eqb orb].

(** A space, a dollar or an at sign inside an action. *)
Lemma parseInsideAction_skips_byte
  (fuel : nat) (cur : list Node) (p : Parse.Parser) (c : ascii) (t : string) :
  Parse.rest p = String c t ->
  c = " "%char \/ c = "$"%char \/ c = "@"%char ->
  parseInsideAction' (S fuel) cur p
  = parseInsideAction' fuel cur
      (Parse.mkParser (Parse.Name p) (Parse.Root p) (Parse.input p)
         (Parse.pos p + 1) (Parse.pos p + 1) 1).
Proof.
  intros Hrest Hc.
  assert (Hnext : Parse.next p
                  = (byte_val c, Parse.set_pos (Parse.set_width p 1) (Parse.pos p + 1))).
  { apply (next_ascii p c t Hrest). destruct Hc as [-> | [-> | ->]]; vm_compute; reflexivity. }
  cbn [Parse.parseInsideAction]. rewrite Hrest, Hnext.
  destruct Hc as [-> | [-> | ->]].
  - change (HasPrefix (String " " t) Parse.rightDelim) with false.
    change (HasPrefix (String " " t) "[?(") with false.
    change (HasPrefix (String " " t) "..") with false. cbv iota.
    change (byte_val " ") with 32%Z. dispatch_rune. reflexivity.
  - change (HasPrefix (String "$" t) Parse.rightDelim) with false.
    change (HasPrefix (String "$" t) "[?(") with false.
    change (HasPrefix (String "$" t) "..") with false. cbv iota.
    change (byte_val "$") with 36%Z. dispatch_rune. reflexivity.
  - change (HasPrefix (String "@" t) Parse.rightDelim) with false.
    change (HasPrefix (String "@" t) "[?(") with false.
    change (HasPrefix (String "@" t) "..") with false. cbv iota.
    change (byte_val "@") with 64%Z. dispatch_rune. reflexivity.
Qed.

(** X19. Inside an action a space, the root symbol and the symbol of the
    current element are consumed and leave no node, wherever they stand: the
    parser goes on after the byte with the list as it was. (The parser does not
    tell the one symbol from the other, and asks for neither at the head of a
    path.) *)
Theorem parseInsideAction_skips_space_root_and_current
  (fuel : nat) (cur : list Node) (p : Parse.Parser) (c : ascii) (t : string) :
  Parse.rest p = String c t ->
  c = " "%char \/ c = "$"%char \/ c = "@"%char ->
  parseInsideAction' (S fuel) cur p
  = parseInsideAction' fuel cur
      (Parse.mkParser (Parse.Name p) (Parse.Root p) (Parse.input p)
         (Parse.pos p + 1) (Parse.pos p + 1) 1).
Proof.
  intros Hrest Hc. apply (parseInsideAction_skips_byte fuel cur p c t Hrest Hc).
Qed.

(** A dot and a name of plain bytes before a terminator that is not a dot:
    the field of that name. *)
Lemma parseInsideAction_plain_field
  (fuel : nat) (cur : list Node) (p : Parse.Parser) (field : string) (c : ascii) (t : string) :
  (byte_val c < 128)%Z ->
  Parse.isTerminator (byte_val c) = true ->
  c <> "."%char ->
  str_forall plain_field_byte field = true ->
  field <> "*" ->
  Parse.rest p = String "."%char (field ++ String c t) ->
  parseInsideAction' (S fuel) cur p
  = parseInsideAction' fuel (cur ++ [FieldNode field])
      (Parse.mkParser (Parse.Name p) (Parse.Root p) (Parse.input p)
         (Parse.pos p + 1 + String.length field) (Parse.pos p + 1 + String.length field) 1).
Proof.
  intros Hc Hterm Hnd Hplain Hstar Hrest.
  assert (Hnext : Parse.next p
                  = (46%Z, Parse.set_pos (Parse.set_width p 1) (Parse.pos p + 1))).
  { apply (next_ascii p "."%char _ Hrest). vm_compute. reflexivity. }
  assert (Hnodot : HasPrefix (field ++ String c t) "." = false).
  { unfold HasPrefix. destruct field as [|a field].
    - change (EmptyString ++ String c t)%string with (String c t). cbn [String.prefix].
      destruct (ascii_dec "."%char c) as [He|_]; [congruence | reflexivity].
    - change (String a field ++ String c t)%string with (String a (field ++ String c t)).
      cbn [String.prefix].
      cbn [str_forall] in Hplain. apply andb_true_iff in Hplain as [Ha _].
      destruct (ascii_dec "."%char a) as [<-|_]; [|reflexivity].
      vm_compute in Ha. discriminate Ha. }
  cbn [Parse.parseInsideAction]. rewrite Hrest, Hnext.
  change (HasPrefix (String "." (field ++ String c t)) Parse.rightDelim) with false.
  change (HasPrefix (String "." (field ++ String c t)) "[?(") with false.
  change (HasPrefix (String "." (field ++ String c t)) "..")
    with (HasPrefix (field ++ String c t) ".").
  rewrite Hnodot. cbv iota. dispatch_rune.
  rewrite (parseField_plain_name _ cur _ field c t Hc Hterm Hplain Hstar);
    [reflexivity|].
  eapply rest_after_one. exact Hrest.
Qed.

(** The right delimiter at the end of the input closes the list and ends
    the parse. *)
Lemma parseInsideAction_right_delim_at_end (fuel : nat) (cur : list Node) (p : Parse.Parser) :
  Parse.rest p = "}" ->
  parseInsideAction' (S fuel) cur p
  = Parse.POk (Parse.mkParser (Parse.Name p) (Parse.Root p ++ [ListNode cur]) (Parse.input p)
                 (Parse.pos p + 1) (Parse.pos p + 1) 0).
Proof.
  intros Hrest. destruct (str_drop_cons _ _ _ _ Hrest) as [Hdrop Hlt].
  apply str_drop_is_empty in Hdrop.
  cbn [Parse.parseInsideAction]. rewrite Hrest.
  change (HasPrefix "}" Parse.rightDelim) with true. cbv iota.
  unfold Parse.parseRightDelim. cbn [Parse.consumeText Parse.rightDelim String.length].
  unfold Parse.parseText, Parse.scan_fuel. cbn [Parse.parseText_loop].
  unfold Parse.rest at 1. cbn [Parse.pos Parse.input Parse.set_Root Parse.set_start Parse.set_pos].
  rewrite (str_drop_empty (Parse.pos p + 1)) by lia.
  change (HasPrefix EmptyString Parse.leftDelim) with false. cbv iota.
  unfold Parse.next. cbn [Parse.pos Parse.input Parse.set_Root Parse.set_start Parse.set_pos].
  destruct (Nat.leb_spec (String.length (Parse.input p)) (Parse.pos p + 1)) as [_|]; [|lia].
  change (eof =? eof)%Z with true. cbv iota.
  unfold Parse.flush_text.
  cbn [Parse.start Parse.pos Parse.set_width Parse.set_Root Parse.set_start Parse.set_pos].
  rewrite Nat.ltb_irrefl. reflexivity.
Qed.

(** X20. New compiles a dollar, a dot and a name to the path of one field
    of that name, for every name of ASCII bytes none of which is a terminator
    (a space, a tab, an end of line, a dot, a comma, a bracket, a dollar, an at
    sign, a brace) or a backslash, but the name that is a star (the
    wildcard); the name may be empty. *)
Theorem New_compiles_a_field (name_ field : string) :
  str_forall plain_field_byte field = true ->
  field <> "*" ->
  New' name_ ("$." ++ field) = Ok (mkJsonpath name_ (Some [ListNode [FieldNode field]]) None).
Proof.
  intros Hplain Hstar. unfold New.
  set (text := String "{" (String "$" (String "." (field ++ "}")))).
  change ("{" ++ ("$." ++ field) ++ "}")%string with text.
  unfold Parse.Parse, Parse.Parse_with.
  assert (Hfuel : exists f, Parse.parse_fuel text = S (S (S f))).
  { unfold Parse.parse_fuel. subst text. cbn [String.length].
    eexists (_ + _)%nat. cbn. reflexivity. }
  destruct Hfuel as [f ->].
  unfold Parse.parseText, Parse.scan_fuel. cbn [Parse.input Parse.parseText_loop].
  unfold Parse.rest at 1. cbn [Parse.pos Parse.input str_drop].
  change (HasPrefix text Parse.leftDelim) with true. cbv iota.
  unfold Parse.flush_text, Parse.parseLeftDelim.
  cbn [Parse.start Parse.pos Nat.ltb Nat.leb Parse.consumeText Parse.set_pos Parse.set_start
       Parse.Name Parse.Root Parse.input Parse.width Parse.leftDelim String.length Nat.add
       Nat.sub str_take].
  rewrite (parseInsideAction_skips_byte _ _ _ "$"%char
             (String "." (field ++ "}")));
    [|reflexivity | right; left; reflexivity].
  rewrite (parseInsideAction_plain_field _ _ _ field "}"%char EmptyString);
    [|vm_compute; reflexivity | reflexivity | discriminate | exact Hplain | exact Hstar
     | reflexivity].
  rewrite parseInsideAction_right_delim_at_end.
  - reflexivity.
  - unfold Parse.rest. cbn [Parse.pos Parse.input Nat.add]. subst text.
    cbn [str_drop]. rewrite <- (Nat.add_0_r (String.length field)), str_drop_add.
    clear. induction field as [|a field IH]; [reflexivity | exact IH].
Qed.

End FieldNames.

Lemma parseInsideAction_skips_space_root_and_current_witness :
  Parse.parseInsideAction Examples.no_rune Examples.no_rune Examples.same Examples.same
    Examples.no_float Examples.no_escape 3 [] (Parse.mkParser "example" [] "{@}" 1 1 0)
  = Parse.parseInsideAction Examples.no_rune Examples.no_rune Examples.same Examples.same
      Examples.no_float Examples.no_escape 2 [] (Parse.mkParser "example" [] "{@}" (1 + 1) (1 + 1) 1).
Proof.
  apply (parseInsideAction_skips_space_root_and_current
           Examples.no_rune Examples.no_rune Examples.same Examples.same
           Examples.no_float Examples.no_escape 2 []
           (Parse.mkParser "example" [] "{@}" 1 1 0) "@"%char "}");
    [reflexivity | right; right; reflexivity].
Defined.

Lemma New_compiles_a_field_witness :
  Examples.New ("$." ++ "key")
  = Ok (mkJsonpath "example" (Some [ListNode [FieldNode "key"]]) None).
Proof.
  apply (New_compiles_a_field Examples.no_rune Examples.no_rune Examples.same Examples.same
           Examples.no_float Examples.no_escape "example" "key");
    [reflexivity | discriminate].
Defined.

Section RecursiveDescent.

Variables IsLetter_tables IsDigit_tables : rune -> bool.
Variables TrimFunc_IsSpace TrimRightFunc_IsSpace : string -> string.
Variable ParseFloat : string -> option float64.
Variable unquote_escapes : string -> ascii -> option string.

Local Abbreviation parseInsideAction' :=
  (Parse.parseInsideAction IsLetter_tables IsDigit_tables TrimFunc_IsSpace
     TrimRightFunc_IsSpace ParseFloat unquote_escapes).

(** X21. A recursive descent that follows a recursive descent is rejected:
    when the input goes on with two dots and the last node parsed is the
    recursive descent, parseInsideAction fails with the error of the invalid
    multiple recursive descent, whatever follows the dots and however much was
    parsed before. *)
Theorem parseInsideAction_rejects_a_second_recursive_descent
  (fuel : nat) (cur : list Node) (p : Parse.Parser) (t : string) :
  Parse.rest p = String "."%char (String "."%char t) ->
  last cur = Some RecursiveNode ->
  parseInsideAction' (S fuel) cur p = Parse.PErr "invalid multiple recursive descent".
Proof.
  intros Hrest Hlast. cbn [Parse.parseInsideAction]. rewrite Hrest.
  change (HasPrefix (String "." (String "." t)) Parse.rightDelim) with false.
  change (HasPrefix (String "." (String "." t)) "[?(") with false.
  replace (HasPrefix (String "." (String "." t)) "..") with true
    by (destruct t; vm_compute; reflexivity).
  cbv iota.
  unfold Parse.parseRecursive. rewrite Hlast. reflexivity.
Qed.

End RecursiveDescent.

Lemma parseInsideAction_rejects_a_second_recursive_descent_witness :
  Parse.parseInsideAction Examples.no_rune Examples.no_rune Examples.same Examples.same
    Examples.no_float Examples.no_escape 1 [RecursiveNode]
    (Parse.mkParser "example" [] "{$....}" 4 4 0)
  = Parse.PErr "invalid multiple recursive descent".
Proof.
  apply (parseInsideAction_rejects_a_second_recursive_descent
           Examples.no_rune Examples.no_rune Examples.same Examples.same
           Examples.no_float Examples.no_escape 0 [RecursiveNode]
           (Parse.mkParser "example" [] "{$....}" 4 4 0) "}");
    reflexivity.
Defined.

(** Four dots are two recursive descents, and do not compile; three dots
    are a recursive descent and the field with the empty name. *)
Example new_rejects_four_dots :
  Examples.New "$...." = Err "cannot parse jsonpath string"
  /\ Examples.New "$..."
     = Ok (mkJsonpath "example" (Some [ListNode [RecursiveNode; FieldNode EmptyString]]) None)
  /\ Examples.New "$..a"
     = Ok (mkJsonpath "example" (Some [ListNode [RecursiveNode; FieldNode "a"]]) None).
Proof. repeat split; vm_compute; reflexivity. Qed.

(** ** Text outside an action *)

Lemma byte_val_nonneg (c : ascii) : (0 <= byte_val c)%Z.
Proof. unfold byte_val. lia. Qed.

(** A rune decoded from a string that is not empty takes one byte at least
    and no more than the string has, and is no end of file. *)
Lemma DecodeRuneInString_nonempty (c : ascii) (t : string) :
  (1 <= snd (DecodeRuneInString (String c t)) <= S (String.length t))%nat
  /\ (0 <= fst (DecodeRuneInString (String c t)))%Z.
Proof.
  pose proof (byte_val_nonneg c) as Hc.
  unfold DecodeRuneInString.
  repeat match goal with
         | |- context [if ?b then _ else _] => destruct b eqn:?
         | |- context [match ?s with EmptyString => _ | String _ _ => _ end] =>
             destruct s eqn:?
         end;
    cbn [fst snd String.length]; unfold RuneError;
    (split; [lia|]); try lia;
    repeat first [apply Z.lor_nonneg; split | apply Z.shiftl_nonneg
                 | apply Z.land_nonneg; right; lia | lia].
Qed.

Lemma HasPrefix_absent_byte (c : ascii) (s : string) :
  str_contains s c = false ->
  forall n, HasPrefix (str_drop n s) (String c EmptyString) = false.
Proof.
  induction s as [|d s IH]; intros Hs n.
  - destruct n; reflexivity.
  - cbn [str_contains] in Hs. apply orb_false_iff in Hs as [Hd Hs].
    destruct n as [|n]; [|apply IH; exact Hs].
    unfold HasPrefix. cbn [str_drop String.prefix].
    destruct (ascii_dec c d) as [->|_]; [|reflexivity].
    rewrite Ascii.eqb_refl in Hd. discriminate Hd.
Qed.

Lemma str_take_all (s : string) : str_take (String.length s) s = s.
Proof. induction s as [|c s IH]; [reflexivity | cbn; rewrite IH; reflexivity]. Qed.

Section PlainText.

Variables IsLetter_tables IsDigit_tables : rune -> bool.
Variables TrimFunc_IsSpace TrimRightFunc_IsSpace : string -> string.
Variable ParseFloat : string -> option float64.
Variable unquote_escapes : string -> ascii -> option string.

Local Abbreviation Parse' :=
  (Parse.Parse IsLetter_tables IsDigit_tables TrimFunc_IsSpace
     TrimRightFunc_IsSpace ParseFloat unquote_escapes).

Lemma parseText_loop_plain (k : Parse.K) (text : string) :
  str_contains text "{" = false ->
  forall (n : nat) (p : Parse.Parser),
    Parse.input p = text -> Parse.start p = 0%nat -> Parse.Root p = [] ->
    (Parse.pos p <= String.length text)%nat ->
    (String.length text - Parse.pos p <= n)%nat ->
    Parse.parseText_loop k n p
    = Parse.POk (Parse.mkParser (Parse.Name p)
                   (match text with EmptyString => [] | _ => [TextNode text] end)
                   text (String.length text) (String.length text) 0).
Proof.
  intros Hno. induction n as [|n IH]; intros p Hin Hst Hroot Hpos Hn.
  all: destruct p as [nm root inp ps st wd]; cbn in Hin, Hst, Hroot, Hpos, Hn; subst inp st root.
  all: cbn [Parse.parseText_loop]; unfold Parse.rest; cbn [Parse.pos Parse.input];
    change Parse.leftDelim with (String "{"%char EmptyString);
    rewrite (HasPrefix_absent_byte _ _ Hno); unfold Parse.next; cbn [Parse.pos Parse.input].
  all: destruct (Nat.leb_spec (String.length text) ps) as [Hle|Hgt].
  all: try (exfalso; lia).
  1,2: assert (ps = String.length text) by lia; subst ps;
    change (eof =? eof)%Z with true; cbv iota; unfold Parse.flush_text;
    cbn [Parse.start Parse.pos Parse.set_width Parse.consumeText Parse.input Parse.Name
         Parse.Root Parse.set_start Parse.set_Root];
    destruct text as [|c text]; [reflexivity|];
    change (0 <? String.length (String c text))%nat with true; cbv iota;
    rewrite Nat.sub_0_r;
    change (str_drop 0 (String c text)) with (String c text);
    rewrite (str_take_all (String c text)); reflexivity.
  destruct (str_drop_nonempty ps text Hgt) as (c & t & Hc).
  unfold Parse.rest. cbn [Parse.pos Parse.input]. rewrite Hc.
  pose proof (DecodeRuneInString_nonempty c t) as [Hw Hr].
  pose proof (f_equal String.length Hc) as Hl. rewrite str_drop_length in Hl.
  cbn [String.length] in Hl.
  destruct (DecodeRuneInString (String c t)) as [r w]. cbn [fst snd] in Hw, Hr.
  replace (r =? eof)%Z with false by (symmetry; apply Z.eqb_neq; unfold eof; lia).
  cbv iota. rewrite IH; cbn; try reflexivity; lia.
Qed.

(** X22. Parse on a text that holds no left brace returns, and does not
    fail: the root holds one text node with the whole text (no node when the
    text is empty), and the parser stands at the end of the input. *)
Theorem Parse_text_without_action (name_ text : string) :
  str_contains text "{" = false ->
  Parse' name_ text
  = Parse.POk (Parse.mkParser name_
                 (match text with EmptyString => [] | _ => [TextNode text] end)
                 text (String.length text) (String.length text) 0).
Proof.
  intros Hno. unfold Parse.Parse, Parse.Parse_with, Parse.parseText.
  rewrite (parseText_loop_plain _ text Hno); [reflexivity..| |];
    unfold Parse.scan_fuel; cbn [Parse.pos Parse.input]; lia.
Qed.

End PlainText.

Lemma Parse_text_without_action_witness :
  Examples.Parse "plain text"
  = Parse.POk (Parse.mkParser "example"
                 (match "plain text" with EmptyString => [] | _ => [TextNode "plain text"] end)
                 "plain text" (String.length "plain text") (String.length "plain text") 0).
Proof.
  apply (Parse_text_without_action Examples.no_rune Examples.no_rune Examples.same
           Examples.same Examples.no_float Examples.no_escape "example" "plain text").
  reflexivity.
Defined.

(** ** A segment on a value of another kind *)

Section WrongKind.

Variable growslice : nat -> nat -> nat.
Variables tLess tGreater tEqual tNotEqual tLessEqual tGreaterEqual
  : value -> value -> bool * option string.

Local Abbreviation Get' :=
  (Get growslice tLess tGreater tEqual tNotEqual tLessEqual tGreaterEqual).
Local Abbreviation evalList' :=
  (evalList growslice tLess tGreater tEqual tNotEqual tLessEqual tGreaterEqual false).
Local Abbreviation walk' :=
  (walk growslice tLess tGreater tEqual tNotEqual tLessEqual tGreaterEqual false).

(** Get, from the evaluation of the last segment after the others. *)
Lemma Get_after_path (fuel : nat) (name_ : string) (path : list Node) (last_ : Node)
  (a : nat) (backing : list value) (doc v : value) (h : heap) (w : list string)
  (fps : list Footprint) (w' : list string) (r : list Footprint) :
  Forall (fun b : list value => (Z.of_nat (length b) <= MaxInt64)%Z) (arrays h) ->
  arrays h !! a = Some backing ->
  backing !! 0%nat = Some doc ->
  lookup_path h doc path = Some v ->
  (forall fp, selects_one h fp v ->
              walk' fuel [fp] last_ (mkState h w) = (Ok fps, mkState h w')) ->
  expandFootprints h fps true = Ok r ->
  Get' fuel (mkJsonpath name_ (Some [ListNode (path ++ [last_])]) (Some (a, 1%nat)))
    (mkState h w)
  = (Ok (map HolderPtr r), mkState h w').
Proof.
  intros Hsizes Ha Hb Hpath Hlast Hexp.
  destruct (evalList_follows_path growslice tLess tGreater tEqual tNotEqual tLessEqual
              tGreaterEqual fuel h w Hsizes path
              (ArrayFootprint false (VSlice a 1)
                 [mkSelectionIndex (Z.of_nat 0) no_info] zero_info) doc v)
    as (fp' & Hrun & Hsel).
  { exists no_info. unfold expandFootprints.
    cbn [length Nat.eqb expand_each Expand expand_indexes Index si_info].
    unfold Store.slice_get. rewrite Ha.
    change ((0 <=? Z.of_nat 0)%Z && (Z.of_nat 0 <? Z.of_nat 1)%Z) with true.
    change (Z.to_nat (Z.of_nat 0)) with 0%nat. cbv iota. rewrite Hb. reflexivity. }
  { exact Hpath. }
  unfold Get, FindResult.
  cbn [parser dataHolder dataHolder_value NewFootprint SelectAll seq map].
  unfold bind at 1 2 3, get_heap, lift. cbn [st_heap].
  change (mkVirtualInfo false 0) with zero_info.
  assert (Hall : evalList' fuel
                   [ArrayFootprint false (VSlice a 1)
                      [mkSelectionIndex (Z.of_nat 0) no_info] zero_info]
                   (path ++ [last_]) (mkState h w) = (Ok fps, mkState h w')).
  { unfold evalList in *. rewrite evalList_with_app. unfold bind. rewrite Hrun.
    cbn [evalList_with]. unfold bind. rewrite (Hlast fp' Hsel). reflexivity. }
  destruct (path ++ [last_]) as [|n0 l0] eqn:Hp; [destruct path; discriminate Hp|].
  rewrite Hall. unfold bind, expandM, get_heap, lift, ret. cbn [st_heap].
  unfold bind. cbn [st_heap]. rewrite Hexp. reflexivity.
Qed.

(** X23. Get with a path that leads to a value, and one more segment that
    does not fit the kind of the value. A wildcard on a scalar returns the
    scalar itself. An index or a slice on a value that is no array returns
    nothing, with the warning that an index cannot be used on it. A field on a
    value that is no object returns nothing, without a warning. None of them
    is an error, and the store is not touched. *)
Theorem Get_segment_on_another_kind (fuel : nat) (name_ : string) (path : list Node)
  (a : nat) (backing : list value) (doc v : value) (h : heap) (w : list string) :
  Forall (fun b : list value => (Z.of_nat (length b) <= MaxInt64)%Z) (arrays h) ->
  arrays h !! a = Some backing ->
  backing !! 0%nat = Some doc ->
  lookup_path h doc path = Some v ->
  let get last_ :=
    Get' fuel (mkJsonpath name_ (Some [ListNode (path ++ [last_])]) (Some (a, 1%nat)))
      (mkState h w) in
  let warned :=
    mkState h (w ++ ["cannot use a index number to find a element in a non-array object"]) in
  (is_map v = false -> is_slice v = false -> get WildcardNode = (Ok [v], mkState h w))
  /\ (is_slice v = false -> forall node, get (ArrayElementNode node) = (Ok [], warned))
  /\ (is_slice v = false -> forall params, get (ArrayNode params) = (Ok [], warned))
  /\ (is_map v = false -> forall field, get (FieldNode field) = (Ok [], mkState h w)).
Proof.
  intros Hsizes Ha Hb Hpath get warned. subst get warned. cbv beta.
  repeat split.
  - intros Hm Hs.
    apply (Get_after_path fuel name_ path WildcardNode a backing doc v h w
             [NonRefFootprint false v] w [NonRefFootprint false v] Hsizes Ha Hb Hpath);
      [|reflexivity].
    intros fp [info Hexp]. unfold walk. cbn [walk_node]. unfold evalWildcard.
    unfold bind, expandM, get_heap, lift, ret. cbn [st_heap]. unfold bind. cbn [st_heap].
    rewrite Hexp. destruct v; try discriminate; reflexivity.
  - intros Hs node.
    apply (Get_after_path fuel name_ path (ArrayElementNode node) a backing doc v h w
             [] _ [] Hsizes Ha Hb Hpath); [|reflexivity].
    intros fp [info Hexp]. unfold walk. cbn [walk_node]. unfold evalArrayElement.
    unfold bind, expandM, get_heap, lift, ret. cbn [st_heap]. unfold bind. cbn [st_heap].
    rewrite Hexp. cbn [concat_map_M]. unfold bind, ret, evalArrayElement_one.
    rewrite HolderPtr_NewFootprint. destruct v; try discriminate; reflexivity.
  - intros Hs params.
    apply (Get_after_path fuel name_ path (ArrayNode params) a backing doc v h w
             [] _ [] Hsizes Ha Hb Hpath); [|reflexivity].
    intros fp [info Hexp]. unfold walk. cbn [walk_node]. unfold evalArray.
    unfold bind, expandM, get_heap, lift, ret. cbn [st_heap fst snd]. unfold bind.
    cbn [st_heap]. rewrite Hexp. cbn [concat_map_M]. unfold bind, ret, evalArray_one.
    rewrite HolderPtr_NewFootprint. destruct v; try discriminate; reflexivity.
  - intros Hm field.
    apply (Get_after_path fuel name_ path (FieldNode field) a backing doc v h w
             [] _ [] Hsizes Ha Hb Hpath); [|reflexivity].
    intros fp [info Hexp]. unfold walk. cbn [walk_node]. unfold evalField.
    unfold bind, expandM, get_heap, lift, ret. cbn [st_heap]. unfold bind. cbn [st_heap].
    rewrite Hexp. cbn [concat_map_M]. unfold bind, ret, evalField_one.
    rewrite HolderPtr_NewFootprint. destruct v; try discriminate; reflexivity.
Qed.

End WrongKind.

Lemma Get_segment_on_another_kind_witness :
  let get last_ :=
    Examples.Get 0
      (mkJsonpath "example" (Some [ListNode ([FieldNode "a"] ++ [last_])]) (Some (0%nat, 1%nat)))
      (mkState (mkHeap [[VMap 0]] [{["a" := VInt 1]}]) []) in
  let warned :=
    mkState (mkHeap [[VMap 0]] [{["a" := VInt 1]}])
      ([] ++ ["cannot use a index number to find a element in a non-array object"]) in
  (is_map (VInt 1) = false -> is_slice (VInt 1) = false ->
   get WildcardNode = (Ok [VInt 1], mkState (mkHeap [[VMap 0]] [{["a" := VInt 1]}]) []))
  /\ (is_slice (VInt 1) = false -> forall node, get (ArrayElementNode node) = (Ok [], warned))
  /\ (is_slice (VInt 1) = false -> forall params, get (ArrayNode params) = (Ok [], warned))
  /\ (is_map (VInt 1) = false ->
      forall field, get (FieldNode field)
                    = (Ok [], mkState (mkHeap [[VMap 0]] [{["a" := VInt 1]}]) [])).
Proof.
  apply (Get_segment_on_another_kind Examples.exact_cap
           (Examples.compare_with Z.ltb) (Examples.compare_with Z.gtb)
           (Examples.compare_with Z.eqb) (Examples.compare_with (fun a b => negb (Z.eqb a b)))
           (Examples.compare_with Z.leb) (Examples.compare_with Z.geb)
           0%nat "example" [FieldNode "a"] 0%nat [VMap 0] (VMap 0) (VInt 1)
           (mkHeap [[VMap 0]] [{["a" := VInt 1]}]) []);
    [repeat constructor; vm_compute; discriminate | reflexivity | reflexivity | reflexivity].
Defined.

(** ** Writing at an index *)

Section SetIndex.

Variable growslice : nat -> nat -> nat.
Variables tLess tGreater tEqual tNotEqual tLessEqual tGreaterEqual
  : value -> value -> bool * option string.

Local Abbreviation Get' :=
  (Get growslice tLess tGreater tEqual tNotEqual tLessEqual tGreaterEqual).
Local Abbreviation Set' :=
  (Set_ growslice tLess tGreater tEqual tNotEqual tLessEqual tGreaterEqual).

(** What EnforceArraySelection leaves of an array that is to hold the
    index [n]: the array itself when it is long enough, and otherwise the
    array grown to n+1 elements. *)
Lemma enforce_array_child_for_index (n : Z) (info : VirtualInfo) (a d len : nat)
  (elems : list value) (h : heap) (w : list string) :
  (0 <= n)%Z ->
  arrays h !! d = Some elems -> (len <= length elems)%nat ->
  a <> d -> (a < length (arrays h))%nat ->
  let L' := Nat.max len (Z.to_nat n + 1) in
  exists d' h1 b' stored,
    enforce_array_child growslice (n + 1) info (VSlice d len) (mkState h w)
    = (Ok (stored, mkVirtualInfo (Virtual info) (Z.of_nat len)), mkState h1 w)
    /\ (stored = Some (VSlice d' L') \/ stored = None /\ d' = d /\ L' = len)
    /\ maps h1 = maps h
    /\ arrays h1 !! a = arrays h !! a
    /\ a <> d'
    /\ arrays h1 !! d' = Some b'
    /\ (L' <= length b')%nat
    /\ take L' b' = take len elems ++ replicate (L' - len) VNil.
Proof.
  intros Hn Hd Hlen Hne Ha L'.
  destruct (Z.ltb_spec (Z.of_nat len) (n + 1)) as [Hgrow|Hfit].
  - destruct (append_nils_frame growslice h d len (Z.to_nat (n + 1 - Z.of_nat len)) elems Hd Hlen)
      as (d' & h1 & b' & Happ & Hmaps & Hb' & Hlen' & Htake & Hwhere & Hframe).
    replace (len + Z.to_nat (n + 1 - Z.of_nat len))%nat with L' in * by (subst L'; lia).
    replace (Z.to_nat (n + 1 - Z.of_nat len)) with (L' - len)%nat in * by (subst L'; lia).
    assert (Hne' : a <> d').
    { destruct Hwhere as [->| ->]; [exact Hne | lia]. }
    exists d', h1, b', (Some (VSlice d' L')).
    repeat split; try assumption; [|left; reflexivity|apply Hframe; assumption].
    unfold enforce_array_child.
    destruct (Z.eqb_spec (n + 1) (-1)) as [Hm|_]; [lia|].
    destruct (Z.ltb_spec (Z.of_nat len) (n + 1)) as [_|Hbad]; [|lia].
    cbn [negb andb]. unfold bind, get_heap, must, put_heap, ret. cbn [st_heap warnings].
    replace (Z.to_nat (n + 1 - Z.of_nat len)) with (L' - len)%nat by (subst L'; lia).
    rewrite Happ. reflexivity.
  - assert (HL : L' = len) by (subst L'; lia).
    exists d, h, elems, None.
    rewrite (enforce_array_child_long_enough growslice (n + 1) info d len) by (right; lia).
    rewrite HL. repeat split; try assumption; try reflexivity.
    + right. repeat split; reflexivity.
    + rewrite Nat.sub_diag. cbn [replicate]. rewrite app_nil_r. reflexivity.
Qed.

(** X24. Set with one index that is not negative, on a document that is an
    array, then Get with the same expression. The Set succeeds; the document is
    afterwards an array that holds the index: the array of before when it was
    long enough, and otherwise one of index+1 elements with the elements of
    before and nil for the new ones; it holds the value at the index. The Get
    returns the value that was set. The objects of the store and the warnings
    are as before. *)
Theorem Set_then_Get_index (fuel fuel' : nat) (name_ : string) (n : Z) (derived : bool)
  (change : value) (a d len : nat) (backing elems : list value) (h : heap) (w : list string) :
  arrays h !! a = Some backing ->
  backing !! 0%nat = Some (VSlice d len) ->
  arrays h !! d = Some elems ->
  (len <= length elems)%nat ->
  a <> d ->
  (0 <= n < MaxInt64)%Z ->
  (Z.of_nat len <= MaxInt64)%Z ->
  let j := mkJsonpath name_ (Some [ListNode [ArrayElementNode (mkParamsEntry n true derived)]])
             (Some (a, 1%nat)) in
  let L' := Nat.max len (Z.to_nat n + 1) in
  exists st' d',
    Set' fuel j change (mkState h w) = (Ok tt, st')
    /\ Data j st' = (Ok (VSlice d' L'), st')
    /\ Store.slice_elems (st_heap st') d' L'
       = Some (<[Z.to_nat n := change]> (take len elems ++ replicate (L' - len) VNil))
    /\ Get' fuel' j st' = (Ok [change], st')
    /\ maps (st_heap st') = maps h
    /\ warnings st' = w.
Proof.
  intros Ha Hb Hd Hlen Hne Hn HL j L'. subst j.
  change MaxInt64 with 9223372036854775807%Z in *.
  assert (Halt : (a < length (arrays h))%nat) by (eapply lookup_lt_Some; exact Ha).
  destruct (enforce_array_child_for_index n no_info a d len elems h w
              (proj1 Hn) Hd Hlen Hne Halt)
    as (d' & h1 & b' & stored & Hchild & Hstored & Hmaps & Hsame & Hne' & Hb' & Hlen' & Htake).
  fold L' in Hstored, Hlen', Htake.
  (* the holder after the array was stored back *)
  set (backing2 := <[0%nat := VSlice d' L']> backing).
  set (h2 := mkHeap (<[a := backing2]> (arrays h1)) (maps h1)).
  set (h3 := mkHeap (<[d' := <[Z.to_nat n := change]> b']> (arrays h2)) (maps h2)).
  assert (Ha1 : arrays h1 !! a = Some backing) by (rewrite Hsame; exact Ha).
  assert (Halt1 : (a < length (arrays h1))%nat) by (eapply lookup_lt_Some; exact Ha1).
  assert (Hdlt1 : (d' < length (arrays h1))%nat) by (eapply lookup_lt_Some; exact Hb').
  assert (Hb0 : (0 < length backing)%nat) by (eapply lookup_lt_Some; exact Hb).
  assert (Ha2 : arrays h2 !! a = Some backing2).
  { subst h2. cbn [arrays]. apply list_lookup_insert_eq. exact Halt1. }
  assert (Hd2 : arrays h2 !! d' = Some b').
  { subst h2. cbn [arrays]. rewrite list_lookup_insert_ne by exact Hne'. exact Hb'. }
  assert (Hb2 : backing2 !! 0%nat = Some (VSlice d' L')).
  { subst backing2. apply list_lookup_insert_eq. exact Hb0. }
  assert (Ha3 : arrays h3 !! a = Some backing2).
  { subst h3. cbn [arrays]. rewrite list_lookup_insert_ne by congruence. exact Ha2. }
  assert (Hd3 : arrays h3 !! d' = Some (<[Z.to_nat n := change]> b')).
  { subst h3. cbn [arrays]. apply list_lookup_insert_eq.
    subst h2. cbn [arrays]. rewrite length_insert. exact Hdlt1. }
  assert (HnL : (Z.to_nat n < L')%nat) by (subst L'; lia).
  assert (Hset : Set' fuel
                   (mkJsonpath name_
                      (Some [ListNode [ArrayElementNode (mkParamsEntry n true derived)]])
                      (Some (a, 1%nat))) change (mkState h w)
                 = (Ok tt, mkState h3 w)).
  { unfold Set_, FindResult, evalList, walk.
    cbn [parser dataHolder dataHolder_value NewFootprint SelectAll seq map
         evalList_with walk_node].
    unfold evalArrayElement. cbn [Value Known negb].
    destruct (Z.ltb_spec n 0) as [Hneg|_]; [lia|].
    rewrite wrap64_small by lia.
    cbn [forM EnforceArraySelection enforce_array_indexes Index si_info].
    change ((Z.of_nat 0 <? 0)%Z || (Z.of_nat 1 <? Z.of_nat 0)%Z) with false. cbv iota.
    assert (Henf : EnforceArraySelection growslice (n + 1)
                     (ArrayFootprint false (VSlice a 1)
                        [mkSelectionIndex (Z.of_nat 0) no_info] (mkVirtualInfo false 0))
                     (mkState h w)
                   = (Ok (ArrayFootprint false (VSlice a 1)
                            [mkSelectionIndex (Z.of_nat 0)
                               (mkVirtualInfo false (Z.of_nat len))]
                            (mkVirtualInfo false 0)),
                      mkState h2 w)).
    { cbn [EnforceArraySelection enforce_array_indexes Index si_info].
      change ((Z.of_nat 0 <? 0)%Z || (Z.of_nat 1 <? Z.of_nat 0)%Z) with false. cbv iota.
      unfold bind at 1 2 3, get_heap, must. cbn [st_heap].
      unfold Store.slice_get. rewrite Ha.
      change ((0 <=? Z.of_nat 0)%Z && (Z.of_nat 0 <? Z.of_nat 1)%Z) with true.
      change (Z.to_nat (Z.of_nat 0)) with 0%nat. cbv iota. rewrite Hb.
      unfold ret at 1. unfold bind at 1. rewrite Hchild. cbn [fst snd Virtual no_info].
      destruct Hstored as [-> | (-> & -> & HL')].
      - unfold bind, slice_store, bind, get_heap, must, ret. cbn [st_heap].
        unfold Store.slice_store. rewrite Ha1.
        change ((0 <=? Z.of_nat 0)%Z && (Z.of_nat 0 <? Z.of_nat 1)%Z) with true.
        change (Z.to_nat (Z.of_nat 0)) with 0%nat. cbv iota.
        replace (0 <? length backing)%nat with true by (symmetry; apply Nat.ltb_lt; exact Hb0).
        unfold put_heap. cbn [warnings]. reflexivity.
      - unfold bind, ret. subst h2 backing2. rewrite HL'.
        rewrite (list_insert_id backing 0 _ Hb), (list_insert_id (arrays h1) a _ Ha1).
        destruct h1; reflexivity. }
    unfold bind at 1 2 3 4 5 6 7 8, get_heap, lift, ret. cbn [st_heap].
    rewrite Henf.
    unfold expandM, bind, get_heap, lift. cbn [st_heap].
    unfold expandFootprints. cbn [length Nat.eqb expand_each Expand expand_indexes Index].
    unfold Store.slice_get at 1. rewrite Ha2.
    change ((0 <=? Z.of_nat 0)%Z && (Z.of_nat 0 <? Z.of_nat 1)%Z) with true.
    change (Z.to_nat (Z.of_nat 0)) with 0%nat. cbv iota. rewrite Hb2.
    cbn [NewFootprint si_info Virtual RealSize app concat_map_M].
    unfold bind, ret. unfold evalArrayElement_one at 1. cbn [HolderPtr RealSize_of].
    unfold bind, lift, ret. cbn [andb RealSize].
    assert (Hidx : element_index L' (mkParamsEntry n true derived) = n).
    { unfold element_index. cbn [Value].
      replace ((0 <=? n)%Z && (n <=? Z.of_nat L' - 1)%Z) with true
        by (symmetry; apply andb_true_iff; split; apply Z.leb_le; lia).
      reflexivity. }
    rewrite Hidx.
    replace ((0 <=? n)%Z && (n <? Z.of_nat L')%Z) with true
      by (symmetry; apply andb_true_iff; split; [apply Z.leb_le | apply Z.ltb_lt]; lia).
    cbn [app forM_ UpdateAll Index].
    unfold bind, slice_store, bind, get_heap, must, ret. cbn [st_heap].
    unfold Store.slice_store. rewrite Hd2.
    replace ((0 <=? n)%Z && (n <? Z.of_nat L')%Z) with true
      by (symmetry; apply andb_true_iff; split; [apply Z.leb_le | apply Z.ltb_lt]; lia).
    replace (Z.to_nat n <? length b')%nat with true by (symmetry; apply Nat.ltb_lt; lia).
    unfold put_heap. cbn [warnings]. reflexivity. }
  exists (mkState h3 w), d'. cbn [st_heap warnings].
  split; [exact Hset|]. split; [|split; [|split; [|split]]].
  - unfold Data, bind, get_heap, must. cbn [st_heap dataHolder].
    unfold Store.slice_get. rewrite Ha3.
    change ((0 <=? 0)%Z && (0 <? Z.of_nat 1)%Z) with true. cbv iota.
    change (Z.to_nat 0) with 0%nat. rewrite Hb2. reflexivity.
  - unfold Store.slice_elems. rewrite Hd3. rewrite length_insert.
    destruct (Nat.leb_spec L' (length b')) as [_|]; [|lia].
    f_equal. rewrite take_insert_lt by exact HnL. rewrite Htake. reflexivity.
  - rewrite (Get_array_element_run growslice tLess tGreater tEqual tNotEqual tLessEqual
               tGreaterEqual fuel' name_ (mkParamsEntry n true derived) a d' L' backing2
               (<[Z.to_nat n := change]> b') h3 w Ha3 Hb2 Hd3);
      [| rewrite length_insert; exact Hlen'
       | apply in_int64_bounds; cbn [Value]; lia
       | change MaxInt64 with 9223372036854775807%Z; subst L'; lia].
    cbn [Value].
    replace ((0 <=? n)%Z && (n <? Z.of_nat L')%Z) with true
      by (symmetry; apply andb_true_iff; split; [apply Z.leb_le | apply Z.ltb_lt]; lia).
    rewrite list_lookup_insert_eq by lia. reflexivity.
  - subst h3 h2. cbn [maps]. exact Hmaps.
  - reflexivity.
Qed.

End SetIndex.

Lemma Set_then_Get_index_witness :
  let j := mkJsonpath "example"
             (Some [ListNode [ArrayElementNode (mkParamsEntry 2 true false)]])
             (Some (0%nat, 1%nat)) in
  let L' := Nat.max 1 (Z.to_nat 2 + 1) in
  exists st' d',
    Examples.Set_ 0 j (VBool false) (mkState (mkHeap [[VSlice 1 1]; [VInt 7]] []) [])
    = (Ok tt, st')
    /\ Data j st' = (Ok (VSlice d' L'), st')
    /\ Store.slice_elems (st_heap st') d' L'
       = Some (<[Z.to_nat 2 := VBool false]> (take 1 [VInt 7] ++ replicate (L' - 1) VNil))
    /\ Examples.Get 0 j st' = (Ok [VBool false], st')
    /\ maps (st_heap st') = []
    /\ warnings st' = [].
Proof.
  apply (Set_then_Get_index Examples.exact_cap
           (Examples.compare_with Z.ltb) (Examples.compare_with Z.gtb)
           (Examples.compare_with Z.eqb) (Examples.compare_with (fun a b => negb (Z.eqb a b)))
           (Examples.compare_with Z.leb) (Examples.compare_with Z.geb)
           0%nat 0%nat "example" 2%Z false (VBool false) 0%nat 1%nat 1%nat
           [VSlice 1 1] [VInt 7] (mkHeap [[VSlice 1 1]; [VInt 7]] []) []);
    [reflexivity | reflexivity | reflexivity | simpl; lia | discriminate
    | vm_compute; split; [discriminate | reflexivity] | vm_compute; discriminate].
Defined.

Lemma filter_selects_a_sublist_of_the_elements_witness :
  sublist [NonRefFootprint true (VInt 1)]
    (map LeaveItAsItIs [NonRefFootprint false (VInt 1); NonRefFootprint false (VInt 2)]).
Proof.
  apply (proj1 (filter_selects_a_sublist_of_the_elements
                  (Examples.compare_with Z.ltb) (Examples.compare_with Z.gtb)
                  (Examples.compare_with Z.eqb)
                  (Examples.compare_with (fun a b => negb (Z.eqb a b)))
                  (Examples.compare_with Z.leb) (Examples.compare_with Z.geb)
                  (fun fps => ret fps) (fun fps => ret [NewFootprint (VInt 1) None]) "=="
                  [NonRefFootprint false (VInt 1); NonRefFootprint false (VInt 2)]
                  empty_state)
           [NonRefFootprint true (VInt 1)] empty_state).
  reflexivity.
Defined.

Lemma genericCompare_error_means_no_pass_witness :
  fst (genericCompare (Examples.compare_with Z.ltb) (Examples.compare_with Z.gtb)
         (Examples.compare_with Z.eqb) (Examples.compare_with (fun a b => negb (Z.eqb a b)))
         (Examples.compare_with Z.leb) (Examples.compare_with Z.geb)
         "=~" (VInt 1) (VInt 1)) = false.
Proof.
  apply (proj1 (genericCompare_error_means_no_pass
                  (Examples.compare_with Z.ltb) (Examples.compare_with Z.gtb)
                  (Examples.compare_with Z.eqb)
                  (Examples.compare_with (fun a b => negb (Z.eqb a b)))
                  (Examples.compare_with Z.leb) (Examples.compare_with Z.geb)
                  "=~" (VInt 1) (VInt 1))
           "unrecognized filter operator =~").
  reflexivity.
Defined.

Lemma InitData_appends_and_Data_reads_the_first_witness :
  exists a' h',
    InitData Examples.exact_cap (mkJsonpath "example" None None) (VInt 1) empty_state
    = (Ok (mkJsonpath "example" None (Some (a', 1%nat))), mkState h' [])
    /\ maps h' = []
    /\ Store.slice_elems h' a' 1 = Some [VInt 1]
    /\ Data (mkJsonpath "example" None (Some (a', 1%nat))) (mkState h' [])
       = (Ok (VInt 1), mkState h' []).
Proof.
  apply (proj1 (InitData_appends_and_Data_reads_the_first Examples.exact_cap
                  (mkJsonpath "example" None None) (VInt 1) empty_heap [])).
  reflexivity.
Defined.

(** Two documents given to one Jsonpath: Data returns the first; a Get is
    evaluated on both (the second one, a scalar, has no field). *)
Example init_data_twice :
  match Examples.load "$.a" (JObject [("a", JNumber 1)]) with
  | (Ok j, s) =>
      match InitData Examples.exact_cap j (VInt 5) s with
      | (Ok j2, s2) =>
          fst (Data j2 s2) = fst (Data j s)
          /\ fst (Examples.Get 8 j s) = Ok [VFloat 1]
          /\ fst (Examples.Get 8 j2 s2) = Ok [VFloat 1]
      | _ => False
      end
  | _ => False
  end.
Proof. vm_compute. repeat split; reflexivity. Qed.

(* ===================================================================== *)
(** * The warnings are only added to *)
(* ===================================================================== *)

Lemma ignores_warnings_ret {A} (a : A) : ignores_warnings (ret a).
Proof. intros h w. cbn. rewrite app_nil_r. reflexivity. Qed.

Lemma ignores_warnings_throw {A} e : ignores_warnings (@throw A e).
Proof. intros h w. cbn. rewrite app_nil_r. reflexivity. Qed.

Lemma ignores_warnings_panic {A} : ignores_warnings (@panic A).
Proof. intros h w. cbn. rewrite app_nil_r. reflexivity. Qed.

Lemma ignores_warnings_out_of_fuel {A} : ignores_warnings (@out_of_fuel A).
Proof. intros h w. cbn. rewrite app_nil_r. reflexivity. Qed.

Lemma ignores_warnings_lift {A} (o : outcome A) : ignores_warnings (lift o).
Proof. intros h w. cbn. rewrite app_nil_r. reflexivity. Qed.

Lemma ignores_warnings_must {A} (o : option A) : ignores_warnings (must o).
Proof. intros h w. destruct o; cbn; rewrite app_nil_r; reflexivity. Qed.

Lemma ignores_warnings_get_heap : ignores_warnings get_heap.
Proof. intros h w. cbn. rewrite app_nil_r. reflexivity. Qed.

Lemma ignores_warnings_put_heap h' : ignores_warnings (put_heap h').
Proof. intros h w. cbn. rewrite app_nil_r. reflexivity. Qed.

Lemma ignores_warnings_AddWarning x : ignores_warnings (AddWarning x).
Proof. intros h w. reflexivity. Qed.

Lemma ignores_warnings_bind {A B} (c : M A) (f : A -> M B) :
  ignores_warnings c -> (forall a, ignores_warnings (f a)) -> ignores_warnings (bind c f).
Proof.
  intros Hc Hf h w. unfold bind. rewrite (Hc h w).
  destruct (c (mkState h [])) as [[a|e| |] [h1 w1]]; cbn [fst snd st_heap warnings];
    try reflexivity.
  rewrite (Hf a h1 (w ++ w1)), (Hf a h1 w1).
  cbn [fst snd st_heap warnings]. rewrite app_assoc. reflexivity.
Qed.

Lemma ignores_warnings_try {A} (c : M A) : ignores_warnings c -> ignores_warnings (try c).
Proof.
  intros Hc h w. unfold try. rewrite (Hc h w).
  destruct (c (mkState h [])) as [[a|e| |] [h1 w1]]; reflexivity.
Qed.

Lemma ignores_warnings_forM {A B} (f : A -> M B) (l : list A) :
  (forall x, ignores_warnings (f x)) -> ignores_warnings (forM f l).
Proof.
  intros Hf. induction l as [|x l IH]; simpl.
  - apply ignores_warnings_ret.
  - apply ignores_warnings_bind; [apply Hf|]. intros y.
    apply ignores_warnings_bind; [apply IH|]. intros ys. apply ignores_warnings_ret.
Qed.

Lemma ignores_warnings_forM_ {A} (f : A -> M unit) (l : list A) :
  (forall x, ignores_warnings (f x)) -> ignores_warnings (forM_ f l).
Proof.
  intros Hf. induction l as [|x l IH]; simpl.
  - apply ignores_warnings_ret.
  - apply ignores_warnings_bind; [apply Hf|]. intros y. apply IH.
Qed.

Lemma ignores_warnings_concat_map_M {A B} (f : A -> M (list B)) (l : list A) :
  (forall x, ignores_warnings (f x)) -> ignores_warnings (concat_map_M f l).
Proof.
  intros Hf. induction l as [|x l IH]; simpl.
  - apply ignores_warnings_ret.
  - apply ignores_warnings_bind; [apply Hf|]. intros y.
    apply ignores_warnings_bind; [apply IH|]. intros ys. apply ignores_warnings_ret.
Qed.

Lemma ignores_warnings_expandM fps remain : ignores_warnings (expandM fps remain).
Proof.
  unfold expandM. apply ignores_warnings_bind; [apply ignores_warnings_get_heap|].
  intros h. apply ignores_warnings_lift.
Qed.

Lemma ignores_warnings_map_store m key v : ignores_warnings (map_store m key v).
Proof.
  unfold map_store.
  apply ignores_warnings_bind; [apply ignores_warnings_get_heap | intros h].
  apply ignores_warnings_bind; [apply ignores_warnings_must | intros h'].
  apply ignores_warnings_put_heap.
Qed.

Lemma ignores_warnings_slice_store a len i v : ignores_warnings (slice_store a len i v).
Proof.
  unfold slice_store.
  apply ignores_warnings_bind; [apply ignores_warnings_get_heap | intros h].
  apply ignores_warnings_bind; [apply ignores_warnings_must | intros h'].
  apply ignores_warnings_put_heap.
Qed.

Create HintDb warns.
#[export] Hint Resolve ignores_warnings_ret ignores_warnings_throw ignores_warnings_panic
  ignores_warnings_out_of_fuel ignores_warnings_lift ignores_warnings_must
  ignores_warnings_get_heap ignores_warnings_put_heap ignores_warnings_AddWarning
  ignores_warnings_expandM ignores_warnings_try ignores_warnings_map_store
  ignores_warnings_slice_store : warns.

(** One step of a proof that a computation ignores the warnings. *)
Ltac warns_step :=
  match goal with
  | |- ignores_warnings (bind _ _) => apply ignores_warnings_bind; [|intros ?]
  | |- ignores_warnings (forM _ _) => apply ignores_warnings_forM; intros ?
  | |- ignores_warnings (forM_ _ _) => apply ignores_warnings_forM_; intros ?
  | |- ignores_warnings (concat_map_M _ _) => apply ignores_warnings_concat_map_M; intros ?
  | |- ignores_warnings (match ?x with _ => _ end) => destruct x
  | |- ignores_warnings (if ?x then _ else _) => destruct x
  | |- ignores_warnings (let '(_, _) := ?x in _) => destruct x
  | |- ignores_warnings _ => solve [auto with warns]
  end.

Ltac warns := repeat warns_step.

Section Warnings.

Variable growslice : nat -> nat -> nat.
Variables tLess tGreater tEqual tNotEqual tLessEqual tGreaterEqual
  : value -> value -> bool * option string.

Local Abbreviation walk_node' :=
  (walk_node growslice tLess tGreater tEqual tNotEqual tLessEqual tGreaterEqual).
Local Abbreviation filter_element' :=
  (filter_element tLess tGreater tEqual tNotEqual tLessEqual tGreaterEqual).
Local Abbreviation filter_elements' :=
  (filter_elements tLess tGreater tEqual tNotEqual tLessEqual tGreaterEqual).
Local Abbreviation evalFilter_with' :=
  (evalFilter_with tLess tGreater tEqual tNotEqual tLessEqual tGreaterEqual).

Lemma enforce_array_child_warns size info child :
  ignores_warnings (enforce_array_child growslice size info child).
Proof. unfold enforce_array_child. warns. Qed.

Lemma enforce_array_keys_warns size m sks :
  ignores_warnings (enforce_array_keys growslice size m sks).
Proof.
  induction sks as [|s sks IH]; cbn [enforce_array_keys]; warns;
    first [apply enforce_array_child_warns | exact IH].
Qed.

Lemma enforce_array_indexes_warns size a len sis :
  ignores_warnings (enforce_array_indexes growslice size a len sis).
Proof.
  induction sis as [|s sis IH]; cbn [enforce_array_indexes]; warns;
    first [apply enforce_array_child_warns | exact IH].
Qed.

Lemma EnforceArraySelection_warns size fp :
  ignores_warnings (EnforceArraySelection growslice size fp).
Proof.
  unfold EnforceArraySelection. warns;
    first [apply enforce_array_keys_warns | apply enforce_array_indexes_warns].
Qed.

Lemma enforce_object_child_warns info child :
  ignores_warnings (enforce_object_child info child).
Proof. unfold enforce_object_child. warns. Qed.

Lemma enforce_object_keys_warns m sks : ignores_warnings (enforce_object_keys m sks).
Proof.
  induction sks as [|s sks IH]; cbn [enforce_object_keys]; warns;
    first [apply enforce_object_child_warns | exact IH].
Qed.

Lemma enforce_object_indexes_warns a len sis :
  ignores_warnings (enforce_object_indexes a len sis).
Proof.
  induction sis as [|s sis IH]; cbn [enforce_object_indexes]; warns;
    first [apply enforce_object_child_warns | exact IH].
Qed.

Lemma EnforceObjectSelection_warns fp : ignores_warnings (EnforceObjectSelection fp).
Proof.
  unfold EnforceObjectSelection. warns;
    first [apply enforce_object_keys_warns | apply enforce_object_indexes_warns].
Qed.

Lemma UpdateAll_warns data fp : ignores_warnings (UpdateAll data fp).
Proof. unfold UpdateAll. warns. Qed.

Lemma evalField_warns wm fps name : ignores_warnings (evalField wm fps name).
Proof.
  unfold evalField, evalField_one. warns; apply EnforceObjectSelection_warns.
Qed.

Lemma evalArray_warns wm fps params : ignores_warnings (evalArray growslice wm fps params).
Proof.
  unfold evalArray, evalArray_one. warns; apply EnforceArraySelection_warns.
Qed.

Lemma evalArrayElement_warns wm fps node :
  ignores_warnings (evalArrayElement growslice wm fps node).
Proof.
  unfold evalArrayElement, evalArrayElement_one. warns; apply EnforceArraySelection_warns.
Qed.

Lemma evalWildcard_warns fps : ignores_warnings (evalWildcard fps).
Proof. unfold evalWildcard. warns. Qed.

Lemma evalRecursive_warns fuel fps : ignores_warnings (evalRecursive fuel fps).
Proof. unfold evalRecursive. warns. Qed.

Lemma evalLiteral_warns fps v : ignores_warnings (evalLiteral fps v).
Proof. unfold evalLiteral. warns. Qed.

Lemma evalList_with_warns (w : list Footprint -> Node -> M (list Footprint)) nodes :
  Forall (fun n => forall fps, ignores_warnings (w fps n)) nodes ->
  forall fps, ignores_warnings (evalList_with w fps nodes).
Proof.
  induction 1 as [|n nodes Hn _ IH]; intros fps; simpl.
  - apply ignores_warnings_ret.
  - apply ignores_warnings_bind; [apply Hn | intros fps'; apply IH].
Qed.

Lemma evalUnion_with_warns (ev : list Footprint -> list Node -> M (list Footprint)) fps nodes :
  Forall (fun l => forall fps, ignores_warnings (ev fps l)) nodes ->
  ignores_warnings (evalUnion_with ev fps nodes).
Proof.
  induction 1 as [|l nodes Hl _ IH]; simpl.
  - apply ignores_warnings_ret.
  - apply ignores_warnings_bind; [apply Hl | intros r].
    apply ignores_warnings_bind; [apply IH | intros r']. apply ignores_warnings_ret.
Qed.

Section FilterWarnings.

Variables evalLeft evalRight : list Footprint -> M (list Footprint).
Hypothesis HLeft : forall fps, ignores_warnings (evalLeft fps).
Hypothesis HRight : forall fps, ignores_warnings (evalRight fps).

Lemma filter_element_warns operator element :
  ignores_warnings (filter_element' evalLeft evalRight operator element).
Proof.
  unfold filter_element.
  apply ignores_warnings_bind; [apply ignores_warnings_try, HLeft|]. intros lefts.
  destruct (String.eqb operator "exists").
  - warns.
  - destruct lefts as [lefts|err]; [|apply ignores_warnings_throw].
    apply ignores_warnings_bind; [apply ignores_warnings_expandM|]. intros ls.
    destruct ls as [|l [|l2 ls]]; [apply ignores_warnings_ret| |apply ignores_warnings_throw].
    apply ignores_warnings_bind; [apply HRight|]. intros rights.
    apply ignores_warnings_bind; [apply ignores_warnings_expandM|]. intros rs.
    destruct rs as [|r [|r2 rs]]; [apply ignores_warnings_ret| |apply ignores_warnings_throw].
    destruct (genericCompare _ _ _ _ _ _ _ _ _) as [pass err]. warns.
Qed.

Lemma filter_elements_warns operator elements :
  ignores_warnings (filter_elements' evalLeft evalRight operator elements).
Proof.
  induction elements as [|e elements IH]; simpl.
  - apply ignores_warnings_ret.
  - apply ignores_warnings_bind; [apply filter_element_warns | intros v].
    apply ignores_warnings_bind; [apply IH | intros rest]. apply ignores_warnings_ret.
Qed.

Lemma evalFilter_with_warns operator fps :
  ignores_warnings (evalFilter_with' evalLeft evalRight operator fps).
Proof.
  unfold evalFilter_with.
  apply ignores_warnings_bind; [apply ignores_warnings_expandM | intros fps'].
  apply ignores_warnings_concat_map_M. intros fp.
  apply ignores_warnings_bind; [apply ignores_warnings_get_heap | intros h].
  destruct (SelectAll h fp); auto with warns.
  apply ignores_warnings_bind; [destruct (Expand h a); auto with warns | intros elements].
  apply filter_elements_warns.
Qed.

End FilterWarnings.

Lemma walk_warns wm fuel node : forall fps, ignores_warnings (walk_node' wm fuel node fps).
Proof.
  induction node using Node_nested_ind; intros fps; cbn [walk_node].
  - apply evalList_with_warns. assumption.
  - apply ignores_warnings_throw.
  - apply evalField_warns.
  - apply ignores_warnings_throw.
  - apply evalArray_warns.
  - apply evalArrayElement_warns.
  - apply evalFilter_with_warns; intros fps'; apply evalList_with_warns; assumption.
  - apply evalLiteral_warns.
  - apply evalLiteral_warns.
  - apply evalLiteral_warns.
  - apply evalWildcard_warns.
  - apply evalRecursive_warns.
  - apply evalUnion_with_warns.
    match goal with H : Forall _ _ |- _ => induction H; constructor; auto end.
    intros fps'. apply evalList_with_warns. assumption.
Qed.

Lemma FindResult_warns wm fuel j :
  ignores_warnings (FindResult growslice tLess tGreater tEqual tNotEqual tLessEqual
                      tGreaterEqual wm fuel j).
Proof.
  unfold FindResult. destruct (parser j) as [root|]; [|apply ignores_warnings_throw].
  apply ignores_warnings_bind; [apply ignores_warnings_get_heap | intros h].
  apply ignores_warnings_bind; [apply ignores_warnings_lift | intros selected].
  destruct root as [|[nodes| | | | | | | | | | | |] root]; try apply ignores_warnings_panic.
  destruct nodes as [|n nodes]; [apply ignores_warnings_throw|].
  unfold evalList. apply evalList_with_warns.
  apply Forall_forall. intros m _ fps. apply walk_warns.
Qed.

Local Abbreviation Get' :=
  (Get growslice tLess tGreater tEqual tNotEqual tLessEqual tGreaterEqual).
Local Abbreviation Set' :=
  (Set_ growslice tLess tGreater tEqual tNotEqual tLessEqual tGreaterEqual).

Lemma Get_warns fuel j : ignores_warnings (Get' fuel j).
Proof.
  unfold Get. apply ignores_warnings_bind; [apply FindResult_warns | intros fps].
  apply ignores_warnings_bind; [apply ignores_warnings_expandM | intros fps'].
  apply ignores_warnings_ret.
Qed.

Lemma Set_warns fuel j change : ignores_warnings (Set' fuel j change).
Proof.
  unfold Set_. apply ignores_warnings_bind; [apply FindResult_warns | intros fps].
  apply ignores_warnings_forM_. intros fp. apply UpdateAll_warns.
Qed.

(** X25. Get and Set only add to the warnings, and do not read them: the
    warnings of before are a prefix of the warnings after a call, whatever the
    call returns; and what the call returns, the store it leaves and the
    warnings it adds are the same whatever the warnings of before. (No call
    clears the warnings: they pile up from one call to the next.) *)
Theorem Get_and_Set_only_add_warnings (fuel : nat) (j : Jsonpath) (change : value)
  (h : heap) (w : list string) :
  (exists added,
      forall w0,
        Get' fuel j (mkState h w0)
        = (fst (Get' fuel j (mkState h w)),
           mkState (st_heap (snd (Get' fuel j (mkState h w)))) (w0 ++ added)))
  /\ (exists added,
         forall w0,
           Set' fuel j change (mkState h w0)
           = (fst (Set' fuel j change (mkState h w)),
              mkState (st_heap (snd (Set' fuel j change (mkState h w)))) (w0 ++ added))).
Proof.
  split.
  - exists (warnings (snd (Get' fuel j (mkState h [])))). intros w0.
    rewrite (Get_warns fuel j h w0), (Get_warns fuel j h w). reflexivity.
  - exists (warnings (snd (Set' fuel j change (mkState h [])))). intros w0.
    rewrite (Set_warns fuel j change h w0), (Set_warns fuel j change h w). reflexivity.
Qed.


End Warnings.

(* ===================================================================== *)
(** * Quoted strings *)
(* ===================================================================== *)

Lemma str_get_last (body : string) (q : ascii) :
  String.get (String.length body) (body ++ String q EmptyString) = Some q.
Proof. induction body as [|c body IH]; [reflexivity | exact IH]. Qed.

Section Quotes.

Variables IsLetter_tables IsDigit_tables : rune -> bool.
Variables TrimFunc_IsSpace TrimRightFunc_IsSpace : string -> string.
Variable ParseFloat : string -> option float64.
Variable unquote_escapes : string -> ascii -> option string.
Variable growslice : nat -> nat -> nat.
Variables tLess tGreater tEqual tNotEqual tLessEqual tGreaterEqual
  : value -> value -> bool * option string.

(** X27. UnquoteExtend takes the quotes off a string between two single or
    two double quotes whose body holds no backslash and none of that quote: it
    returns the body, and does not call the decoder of escapes. A string
    shorter than two bytes, or whose first and last bytes differ, is an
    error. *)
Theorem UnquoteExtend_simple_body (q : ascii) (body : string) :
  (q = Parse.squote \/ q = Parse.dquote ->
   str_contains body Parse.backslash = false ->
   str_contains body q = false ->
   Parse.UnquoteExtend unquote_escapes (String q (body ++ String q EmptyString)) = Some body)
  /\ (forall c, Parse.UnquoteExtend unquote_escapes (String c EmptyString) = None)
  /\ (forall q', q' <> q ->
        Parse.UnquoteExtend unquote_escapes (String q (body ++ String q' EmptyString)) = None).
Proof.
  assert (Hn : forall q', String.length (String q (body ++ String q' EmptyString))
                          = S (S (String.length body))).
  { intros q'. cbn [String.length]. rewrite str_length_app. cbn [String.length]. lia. }
  assert (Hparts : forall q',
    str_at (String q (body ++ String q' EmptyString)) 0 = Some q
    /\ str_at (String q (body ++ String q' EmptyString)) (S (S (String.length body)) - 1)
       = Some q'
    /\ str_slice (String q (body ++ String q' EmptyString)) 1 (S (S (String.length body)) - 1)
       = Some body).
  { intros q'. split; [reflexivity|]. split.
    - unfold str_at. cbn [Nat.sub String.get]. rewrite ?Nat.sub_0_r. apply str_get_last.
    - unfold str_slice. rewrite Hn. cbn [Nat.sub]. rewrite ?Nat.sub_0_r.
      replace ((1 <=? S (String.length body))%nat
               && (S (String.length body) <=? S (S (String.length body)))%nat) with true
        by (symmetry; apply andb_true_iff; split; apply Nat.leb_le; lia).
      cbn [str_drop Nat.sub]. rewrite ?Nat.sub_0_r, str_take_app_length. reflexivity. }
  split; [|split].
  - intros Hq Hnb Hnq. unfold Parse.UnquoteExtend. rewrite Hn.
    destruct (Hparts q) as (-> & -> & ->).
    change (S (S (String.length body)) <? 2)%nat with false. cbv iota.
    rewrite Ascii.eqb_refl. cbn [negb]. rewrite Hnb, Hnq. cbn [negb andb].
    destruct Hq as [-> | ->]; reflexivity.
  - intros c. reflexivity.
  - intros q' Hne. unfold Parse.UnquoteExtend. rewrite Hn.
    destruct (Hparts q') as (-> & -> & ->).
    change (S (S (String.length body)) <? 2)%nat with false. cbv iota.
    destruct (Ascii.eqb_spec q q') as [He|_]; [congruence | reflexivity].
Qed.

Local Abbreviation evalList' :=
  (evalList growslice tLess tGreater tEqual tNotEqual tLessEqual tGreaterEqual).
Local Abbreviation filter_element' :=
  (filter_element tLess tGreater tEqual tNotEqual tLessEqual tGreaterEqual).


End Quotes.

Lemma UnquoteExtend_simple_body_witness :
  Parse.UnquoteExtend Examples.no_escape (String "'" ("key" ++ String "'" EmptyString))
  = Some "key".
Proof.
  apply (proj1 (UnquoteExtend_simple_body Examples.no_escape "'"%char "key"));
    [left; reflexivity | reflexivity | reflexivity].
Defined.


(** Through the facade: the comparison with a number selects, the one with
    a quoted string fails. *)
Example get_filter_with_a_quoted_string :
  Examples.get "$[?(@.a=='x')]" (JArray [JObject [("a", JString "x")]]) = Err "unexpected Node"
  /\ Examples.get "$[?(@.a==1)]" (JArray [JObject [("a", JNumber 1)]])
     = Ok ([Some (JObject [("a", JNumber 1)])], []).
Proof. split; vm_compute; reflexivity. Qed.

(* ===================================================================== *)
(** * The search of a closing quote *)
(* ===================================================================== *)

Lemma findRune_from_sound (target : rune) :
  forall rs escapeMode i0 i,
    Parse.findRune_from rs target escapeMode i0 = Some i ->
    (i0 <= i)%nat /\ rs !! (i - i0)%nat = Some target.
Proof.
  induction rs as [|r rs IH]; intros esc i0 i H; [discriminate H|].
  cbn [Parse.findRune_from] in H.
  destruct ((r =? target)%Z && negb esc) eqn:Hhit.
  - injection H as <-. rewrite Nat.sub_diag. split; [lia|].
    apply andb_true_iff in Hhit as [Hr _]. apply Z.eqb_eq in Hr. subst r. reflexivity.
  - assert (Hnext : forall e, Parse.findRune_from rs target e (S i0) = Some i ->
                              (i0 <= i)%nat /\ (r :: rs) !! (i - i0)%nat = Some target).
    { intros e He. destruct (IH _ _ _ He) as [Hle Hlook]. split; [lia|].
      replace (i - i0)%nat with (S (i - S i0)) by lia. exact Hlook. }
    destruct ((r =? Parse.r_of Parse.backslash)%Z && negb esc); [eapply Hnext; exact H|].
    destruct (r =? eof)%Z; [discriminate H | eapply Hnext; exact H].
Qed.

Lemma findRune_from_absent (target : rune) :
  forall rs escapeMode i0,
    target ∉ rs -> Parse.findRune_from rs target escapeMode i0 = None.
Proof.
  induction rs as [|r rs IH]; intros esc i0 Hin; [reflexivity|].
  apply not_elem_of_cons in Hin as [Hne Hin].
  cbn [Parse.findRune_from].
  replace (r =? target)%Z with false by (symmetry; apply Z.eqb_neq; congruence).
  cbn [andb].
  destruct ((r =? Parse.r_of Parse.backslash)%Z && negb esc); [apply IH; exact Hin|].
  destruct (r =? eof)%Z; [reflexivity | apply IH; exact Hin].
Qed.

(** X29. findRune answers with an index at which the slice holds the rune
    looked for, and with none when the slice does not hold the rune. The
    rune right after a backslash that is itself not escaped is passed over:
    a quote after one backslash is not found. *)
Theorem findRune_finds_the_rune (rs : list rune) (target : rune) :
  (forall i, Parse.findRune rs target = Some i -> rs !! i = Some target)
  /\ (target ∉ rs -> Parse.findRune rs target = None)
  /\ (target <> Parse.r_of Parse.backslash -> target <> eof ->
      Parse.findRune (Parse.r_of Parse.backslash :: target :: rs) target
      = (fun i => S (S i)) <$> Parse.findRune rs target).
Proof.
  split; [|split].
  - intros i H. destruct (findRune_from_sound target rs false 0 i H) as [_ Hl].
    rewrite Nat.sub_0_r in Hl. exact Hl.
  - intros Hin. apply findRune_from_absent. exact Hin.
  - intros Hne Hneof. unfold Parse.findRune. cbn [Parse.findRune_from].
    replace (Parse.r_of Parse.backslash =? target)%Z with false
      by (symmetry; apply Z.eqb_neq; congruence).
    rewrite Z.eqb_refl. cbn [andb negb].
    rewrite Z.eqb_refl. cbn [andb negb].
    replace (target =? Parse.r_of Parse.backslash)%Z with false
      by (symmetry; apply Z.eqb_neq; congruence).
    cbn [andb].
    assert (Hshift : forall rs e i0,
              Parse.findRune_from rs target e (S (S i0))
              = (fun i => S (S i)) <$> Parse.findRune_from rs target e i0).
    { clear. induction rs as [|r rs IH]; intros e i0; [reflexivity|].
      cbn [Parse.findRune_from].
      destruct ((r =? target)%Z && negb e); [reflexivity|].
      destruct ((r =? Parse.r_of Parse.backslash)%Z && negb e); [apply IH|].
      destruct (r =? eof)%Z; [reflexivity | apply IH]. }
    replace (target =? eof)%Z with false by (symmetry; apply Z.eqb_neq; congruence).
    apply Hshift.
Qed.

Lemma findRune_finds_the_rune_witness :
  [92%Z; 39%Z; 97%Z; 39%Z] !! 3%nat = Some 39%Z.
Proof.
  apply (proj1 (findRune_finds_the_rune [92%Z; 39%Z; 97%Z; 39%Z] 39%Z) 3%nat).
  reflexivity.
Defined.
